(** * Fish Agent Reward Server: the reward scoring pipeline

    A shallow embedding of [Assets/Scripts/server/server.py]: the frame
    sampler, the classification stage, the segmentation stage, the model
    registry and the [/upload/video] handler, with the properties the
    specification states about them.

    Conventions.
    - Python integers are [Z]; list lengths are converted with [Py.len].
    - Python floats that carry probabilities, rewards and times are
      rationals ([Q]); [0.0] is [0].  The rounding of float arithmetic is not
      modelled.
    - Effectful code is written in a monad of state and exceptions over the
      process state [World]: temporary files, the score log, the clock, the
      globals of the model registry, and a trace of what happened.
    - External libraries (OpenCV, torch, transformers, SAM2, the file
      system, the clock) are oracles collected in a record [Env]; every
      external call that can raise can be told to.
    - The getters of the model registry are modelled twice: in the monad, as
      one thread runs them, and as a transition system of callers
      interleaved statement by statement over an explicit lock.  A caller
      on its own takes the second to where the first ends. *)

From Stdlib Require Import Ascii Permutation Sorted.
From Stdlib Require Import ZArith QArith List Bool String Lia Arith.
From Stdlib Require DecimalString.
Import ListNotations.

Local Open Scope Z_scope.

(** ** Python primitives *)

Module Py.

Definition len {A : Type} (l : list A) : Z := Z.of_nat (List.length l).

(** [range(n)]: the integers [0 .. n-1], empty when [n <= 0]. *)
Definition range (n : Z) : list Z := map Z.of_nat (seq 0 (Z.to_nat n)).

(** [[x] * n]: [n] copies of [x], empty when [n <= 0]. *)
Definition replicate {A : Type} (x : A) (n : Z) : list A := repeat x (Z.to_nat n).

(** [l[-1]] when [l] is not empty. *)
Fixpoint last_item {A : Type} (l : list A) : option A :=
  match l with
  | [] => None
  | [x] => Some x
  | _ :: l' => last_item l'
  end.

(** How a slice bound is normalised against a length: a negative bound
    counts from the end, and every bound is clipped to [0 .. n]. *)
Definition clip (n i : Z) : Z :=
  if i <? 0 then Z.max 0 (n + i) else Z.min i n.

(** [l[s:e]]. *)
Definition slice {A : Type} (l : list A) (s e : Z) : list A :=
  let n := len l in
  let s' := clip n s in
  let e' := clip n e in
  firstn (Z.to_nat (e' - s')) (skipn (Z.to_nat s') l).

(** [int(round(a / b))] for integers [a] and [b > 0]: the true quotient
    rounded to the nearest integer, a tie going to the even neighbour
    (Python 3 [round]).  The float quotient is taken as exact, which it is
    to within the tie test for operands far below 2^53. *)
Definition round_div (a b : Z) : Z :=
  let q := a / b in
  let r := a mod b in
  if 2 * r <? b then q
  else if b <? 2 * r then q + 1
  else if Z.even q then q else q + 1.

(** [l.index(x)] on a list of strings; [None] stands for [ValueError]. *)
Fixpoint index (x : string) (l : list string) : option nat :=
  match l with
  | [] => None
  | y :: l' => if String.eqb x y then Some 0%nat
               else option_map S (index x l')
  end.

(** [x in l] on a list of strings. *)
Definition contains (x : string) (l : list string) : bool :=
  existsb (String.eqb x) l.

End Py.

(** ** The frame sampler: temporal windowing
    ([load_video_frame_sequences], lines 406-436) *)

Section Windows.

Context {frame : Type}.

(** Lines 411-414: a clip shorter than [frame_count] is extended with copies
    of its last frame. *)
Definition pad_frames (processed_frames : list frame) (padding_frame : frame)
    (frame_count : Z) : list frame :=
  let total_frames := Py.len processed_frames in
  if total_frames <? frame_count
  then processed_frames ++ Py.replicate padding_frame (frame_count - total_frames)
  else processed_frames.

(** Lines 416-426. *)
Definition start_indices (total_frames frame_count sequence_count : Z) : list Z :=
  if (sequence_count <=? 1) || (total_frames <=? frame_count) then [0]
  else
    let max_start := Z.max (total_frames - frame_count) 0 in
    if (sequence_count =? 1) || (max_start =? 0) then [0]
    else map (fun i => Py.round_div (i * max_start) (sequence_count - 1))
             (Py.range sequence_count).

(** Lines 430-433: one window, padded with its own last frame when the slice
    came out short and is not empty. *)
Definition window_at (processed_frames : list frame) (frame_count start : Z)
    : list frame :=
  let end_ := start + frame_count in
  let seq := Py.slice processed_frames start end_ in
  match Py.last_item seq with
  | Some tail =>
      if Py.len seq <? frame_count
      then seq ++ Py.replicate tail (frame_count - Py.len seq)
      else seq
  | None => seq
  end.

(** Lines 406-436, from the decoded and converted frames on. *)
Definition sample_windows (processed_frames : list frame)
    (frame_count sequence_count : Z) : list (list frame) :=
  match Py.last_item processed_frames with
  | None => []
  | Some padding_frame =>
      let processed_frames := pad_frames processed_frames padding_frame frame_count in
      let total_frames := Py.len processed_frames in
      map (window_at processed_frames frame_count)
          (start_indices total_frames frame_count sequence_count)
  end.

End Windows.

(** ** Runtime: exceptions, process state and the effect monad *)

(** A temporary file or directory name; [tempfile] hands out fresh ones. *)
Definition path := nat.

(** The identity of a loaded model object. *)
Definition handle := nat.

(** The compute device a model is bound to. *)
Inductive device : Type := cuda | cpu.

(** Python exceptions, as far as the handlers of the server tell them apart:
    [except HTTPException], [except asyncio.TimeoutError], [except Exception]. *)
Inductive exn : Type :=
| HTTPException (status_code : Z)
| TimeoutError
| Exception (what : string).

Inductive outcome (A : Type) : Type :=
| Return (a : A)
| Raise (e : exn).

Arguments Return {A} a.
Arguments Raise {A} e.

(** The external calls of [server.py] that a run can be told to fail at.
    OpenCV's capture object reports failure through [isOpened()] and the flag
    of [read()], not by raising, so opening, reading and releasing a capture
    are not among them; the per-frame work on what was read is. *)
Inductive ext_call : Type :=
| build_sam2_video_predictor_hf
| SAM2AutomaticMaskGenerator
| VideoMAEImageProcessor_from_pretrained
| VideoMAEForVideoClassification_from_pretrained
| video_classifier_to
| video_classifier_eval
| seg_cap_get
| seg_TemporaryDirectory
| seg_extract_frames
| predictor_init_state
| seg_imread
| mask_generator_generate
| seg_sort_masks
| predictor_add_new_points_or_box
| predictor_propagate_in_video
| predictor_reset_state
| seg_NamedTemporaryFile
| seg_VideoWriter
| seg_render
| seg_writer_release
| seg_TemporaryDirectory_cleanup
| cls_convert_frames
| upload_NamedTemporaryFile
| upload_write
| score_log_write.

(** What the run leaves behind for an observer. *)
Inductive event : Type :=
| EvTempFile (p : path)          (* a temporary file was created *)
| EvSegment (p : path)           (* segment_uploaded_video entered *)
| EvClassify (p : path)          (* classify_segmented_video entered *)
| EvModelLoad (c : ext_call)     (* a model constructor ran *)
| EvInference                    (* the classifier ran on one window *)
| EvRemove (p : path)            (* os.remove succeeded *)
| EvRemoveFailed (p : path).     (* os.remove raised; a warning was logged *)

(** One line of [video_scores.txt]. *)
Inductive log_entry : Type :=
| Received (episode_number file_size attempt_number : Z)
| Scored (episode_number file_size : Z) (score analysis_time : Q)
         (attempt_number : Z).

Record World : Type := mkWorld {
  fs : list (path * Z);               (* temporary files on disk, with sizes *)
  next_tmp : path;                    (* fresh-name supply of tempfile *)
  trace : list event;                 (* newest first *)
  score_log : list log_entry;         (* newest first *)
  ticks : nat;                        (* clock reads so far *)
  next_handle : handle;               (* fresh model identities *)
  sam2_predictor : option handle;
  sam2_mask_generator : option handle;
  sam2_device : option device;
  video_processor : option handle;
  video_classifier : option handle;
  video_device : option device
}.

Definition set_fs (f : list (path * Z)) (w : World) : World :=
  mkWorld f (next_tmp w) (trace w) (score_log w) (ticks w) (next_handle w)
    (sam2_predictor w) (sam2_mask_generator w) (sam2_device w)
    (video_processor w) (video_classifier w) (video_device w).

Definition set_next_tmp (n : path) (w : World) : World :=
  mkWorld (fs w) n (trace w) (score_log w) (ticks w) (next_handle w)
    (sam2_predictor w) (sam2_mask_generator w) (sam2_device w)
    (video_processor w) (video_classifier w) (video_device w).

Definition set_trace (t : list event) (w : World) : World :=
  mkWorld (fs w) (next_tmp w) t (score_log w) (ticks w) (next_handle w)
    (sam2_predictor w) (sam2_mask_generator w) (sam2_device w)
    (video_processor w) (video_classifier w) (video_device w).

Definition set_score_log (l : list log_entry) (w : World) : World :=
  mkWorld (fs w) (next_tmp w) (trace w) l (ticks w) (next_handle w)
    (sam2_predictor w) (sam2_mask_generator w) (sam2_device w)
    (video_processor w) (video_classifier w) (video_device w).

Definition set_ticks (n : nat) (w : World) : World :=
  mkWorld (fs w) (next_tmp w) (trace w) (score_log w) n (next_handle w)
    (sam2_predictor w) (sam2_mask_generator w) (sam2_device w)
    (video_processor w) (video_classifier w) (video_device w).

Definition set_next_handle (h : handle) (w : World) : World :=
  mkWorld (fs w) (next_tmp w) (trace w) (score_log w) (ticks w) h
    (sam2_predictor w) (sam2_mask_generator w) (sam2_device w)
    (video_processor w) (video_classifier w) (video_device w).

Definition set_sam2_predictor (v : option handle) (w : World) : World :=
  mkWorld (fs w) (next_tmp w) (trace w) (score_log w) (ticks w) (next_handle w)
    v (sam2_mask_generator w) (sam2_device w)
    (video_processor w) (video_classifier w) (video_device w).

Definition set_sam2_mask_generator (v : option handle) (w : World) : World :=
  mkWorld (fs w) (next_tmp w) (trace w) (score_log w) (ticks w) (next_handle w)
    (sam2_predictor w) v (sam2_device w)
    (video_processor w) (video_classifier w) (video_device w).

Definition set_sam2_device (v : option device) (w : World) : World :=
  mkWorld (fs w) (next_tmp w) (trace w) (score_log w) (ticks w) (next_handle w)
    (sam2_predictor w) (sam2_mask_generator w) v
    (video_processor w) (video_classifier w) (video_device w).

Definition set_video_processor (v : option handle) (w : World) : World :=
  mkWorld (fs w) (next_tmp w) (trace w) (score_log w) (ticks w) (next_handle w)
    (sam2_predictor w) (sam2_mask_generator w) (sam2_device w)
    v (video_classifier w) (video_device w).

Definition set_video_classifier (v : option handle) (w : World) : World :=
  mkWorld (fs w) (next_tmp w) (trace w) (score_log w) (ticks w) (next_handle w)
    (sam2_predictor w) (sam2_mask_generator w) (sam2_device w)
    (video_processor w) v (video_device w).

Definition set_video_device (v : option device) (w : World) : World :=
  mkWorld (fs w) (next_tmp w) (trace w) (score_log w) (ticks w) (next_handle w)
    (sam2_predictor w) (sam2_mask_generator w) (sam2_device w)
    (video_processor w) (video_classifier w) v.

(** A process that has just started: nothing on disk, no model loaded. *)
Definition fresh_world : World :=
  mkWorld [] 0%nat [] [] 0%nat 0%nat None None None None None None.

(** Effectful code: a state transformer that either returns or raises. *)
Definition M (A : Type) : Type := World -> outcome A * World.

Definition ret {A : Type} (a : A) : M A := fun w => (Return a, w).

Definition raise {A : Type} (e : exn) : M A := fun w => (Raise e, w).

Definition bind {A B : Type} (m : M A) (k : A -> M B) : M B :=
  fun w =>
    match m w with
    | (Return a, w') => k a w'
    | (Raise e, w') => (Raise e, w')
    end.

Declare Scope py_scope.
Delimit Scope py_scope with py.

Notation "x <- c1 ;; c2" := (bind c1 (fun x => c2))
  (at level 61, c1 at next level, right associativity) : py_scope.
Notation "c1 ;; c2" := (bind c1 (fun _ => c2))
  (at level 61, right associativity) : py_scope.

Local Open Scope py_scope.

(** [try: m  except Exception as e: h e].  Every constructor of [exn] is an
    [Exception] in Python, so the handler sees them all. *)
Definition try_except {A : Type} (m : M A) (h : exn -> M A) : M A :=
  fun w =>
    match m w with
    | (Return a, w') => (Return a, w')
    | (Raise e, w') => h e w'
    end.

(** [try: m  finally: f].  The [finally] block runs on both exits; when it
    raises, its exception replaces the pending result. *)
Definition try_finally {A : Type} (m : M A) (f : M unit) : M A :=
  fun w =>
    match m w with
    | (r, w') =>
        match f w' with
        | (Return _, w'') => (r, w'')
        | (Raise e, w'') => (Raise e, w'')
        end
    end.

Definition get_world : M World := fun w => (Return w, w).

Definition modify (f : World -> World) : M unit := fun w => (Return tt, f w).

Definition emit (e : event) : M unit :=
  modify (fun w => set_trace (e :: trace w) w).

(** ** The file system of temporary artifacts *)

Definition listed (p : path) (f : list (path * Z)) : bool :=
  existsb (fun e => Nat.eqb (fst e) p) f.

Definition size_in (p : path) (f : list (path * Z)) : Z :=
  match find (fun e => Nat.eqb (fst e) p) f with
  | Some e => snd e
  | None => 0
  end.

(** [os.path.exists(p)] and the number of bytes written to [p] so far. *)
Definition exists_on_disk (p : path) (w : World) : bool := listed p (fs w).

Definition size_on_disk (p : path) (w : World) : Z := size_in p (fs w).

Definition fs_create (p : path) (f : list (path * Z)) : list (path * Z) :=
  (p, 0) :: f.

Definition fs_append (p : path) (n : Z) (f : list (path * Z)) : list (path * Z) :=
  map (fun e => if Nat.eqb (fst e) p then (fst e, snd e + n) else e) f.

Definition fs_remove (p : path) (f : list (path * Z)) : list (path * Z) :=
  filter (fun e => negb (Nat.eqb (fst e) p)) f.

(** ** The environment of one server process *)

Record Env (frame : Type) : Type := mkEnv {
  (* what the imports at the top of the module found *)
  SAM2_AVAILABLE : bool;
  torch_available : bool;
  cv2_available : bool;
  TRANSFORMERS_AVAILABLE : bool;
  cuda_is_available : bool;
  (* configuration *)
  VIDEO_CLASS_FRAME_COUNT : Z;
  VIDEO_CLASS_NAMES : list string;
  (* fault injection: the external calls that raise *)
  raises : ext_call -> bool;
  (* OpenCV: [None] when the capture does not open, else the frames that
     successive [cap.read()] calls deliver *)
  decode : path -> option (list frame);
  cv2_resize : frame -> frame;
  cv2_cvtColor : frame -> frame;
  (* SAM2 on the first frame *)
  first_frame_readable : bool;
  mask_count : nat;
  (* processor, classifier and softmax on one window: row 0 of [probs], or
     [None] when any of the three raises *)
  softmax_probs : list frame -> option (list Q);
  (* os.remove *)
  remove_raises : path -> bool;
  (* time.time(), by number of earlier reads *)
  clock : nat -> Q
}.

Arguments SAM2_AVAILABLE {frame} _.
Arguments torch_available {frame} _.
Arguments cv2_available {frame} _.
Arguments TRANSFORMERS_AVAILABLE {frame} _.
Arguments cuda_is_available {frame} _.
Arguments VIDEO_CLASS_FRAME_COUNT {frame} _.
Arguments VIDEO_CLASS_NAMES {frame} _.
Arguments raises {frame} _ _.
Arguments decode {frame} _ _.
Arguments cv2_resize {frame} _ _.
Arguments cv2_cvtColor {frame} _ _.
Arguments first_frame_readable {frame} _.
Arguments mask_count {frame} _.
Arguments softmax_probs {frame} _ _.
Arguments remove_raises {frame} _ _.
Arguments clock {frame} _ _.

(** Line 63 and the chunk size of line 563. *)
Definition MAX_FILE_SIZE : Z := 100 * 1024 * 1024.
Definition CHUNK_SIZE : Z := 1024 * 1024.

(** Line 85. *)
Definition DEFAULT_CLASS_NAMES : list string := ["simulator"; "real"]%string.

(** ** Requests and responses *)

(** One [await file.read(1024 * 1024)] under [asyncio.wait_for]. *)
Inductive read_result : Type :=
| Chunk (n : Z)       (* a chunk of [n] bytes; [n <= 0] is the empty chunk *)
| ReadTimeout         (* asyncio.TimeoutError *)
| ReadFailure.        (* any other exception of the transport *)

Record Upload : Type := mkUpload {
  episode_number : Z;
  attempt_number : Z;               (* Form(default=1) *)
  file_size : Z;                    (* Form(default=0): the declared size *)
  content_type : option string;
  body : list read_result           (* the reads, then end of stream *)
}.

(** Lines 529-532: the form fields, with the defaults FastAPI fills in for
    the ones the client leaves out. *)
Definition upload_form (episode_number : Z) (attempt_number file_size : option Z)
    (content_type : option string) (body : list read_result) : Upload :=
  mkUpload episode_number
           (match attempt_number with Some a => a | None => 1 end)
           (match file_size with Some n => n | None => 0 end)
           content_type body.

(** Lines 508-512. *)
Record UploadResponse : Type := mkUploadResponse {
  status : string;
  filename : option string;
  resp_episode_number : option Z;
  reward : Q
}.

Inductive json : Type :=
| JNull
| JStr (s : string)
| JInt (n : Z)
| JFloat (x : Q).

(** The response body FastAPI serialises from the model. *)
Definition model_dump (r : UploadResponse) : list (string * json) :=
  [ ("status"%string, JStr (status r));
    ("filename"%string, match filename r with Some s => JStr s | None => JNull end);
    ("episode_number"%string,
       match resp_episode_number r with Some n => JInt n | None => JNull end);
    ("reward"%string, JFloat (reward r)) ].

Fixpoint json_get (k : string) (o : list (string * json)) : option json :=
  match o with
  | [] => None
  | (k', v) :: o' => if String.eqb k k' then Some v else json_get k o'
  end.

Definition has_float_field (k : string) (r : UploadResponse) : bool :=
  match json_get k (model_dump r) with
  | Some (JFloat _) => true
  | _ => false
  end.

(** ** The pipeline *)

(** What a failing external call raises. *)
Definition call_failed : exn := Exception "external call failed".

Section Pipeline.

Context {frame : Type}.
Variable env : Env frame.

(** An external call: raises when the environment says so. *)
Definition call (c : ext_call) : M unit :=
  fun w =>
    if raises env c then (Raise call_failed, w)
    else (Return tt, w).

(** [time.time()]. *)
Definition time_time : M Q :=
  fun w => (Return (clock env (ticks w)), set_ticks (S (ticks w)) w).

(** A model constructor: a new object with a fresh identity. *)
Definition new_model (c : ext_call) : M handle :=
  call c ;;
  w <- get_world ;;
  modify (set_next_handle (S (next_handle w))) ;;
  emit (EvModelLoad c) ;;
  ret (next_handle w).

(** [torch.device("cuda" if torch.cuda.is_available() else "cpu")]. *)
Definition select_device : device :=
  if cuda_is_available env then cuda else cpu.

(** *** Model registry, as one thread runs it (lines 190-211, 359-378) *)

Definition get_sam2_components : M (option handle * option handle) :=
  if negb (SAM2_AVAILABLE env) || negb (torch_available env)
     || negb (cv2_available env)
  then raise (Exception "SAM2 dependencies are not available")
  else
    (* with sam2_init_lock: *)
    w <- get_world ;;
    match sam2_predictor w with
    | None =>
        let device := select_device in
        p <- new_model build_sam2_video_predictor_hf ;;
        modify (set_sam2_predictor (Some p)) ;;
        g <- new_model SAM2AutomaticMaskGenerator ;;
        modify (set_sam2_mask_generator (Some g)) ;;
        modify (set_sam2_device (Some device))
    | Some _ => ret tt
    end ;;
    w' <- get_world ;;
    ret (sam2_predictor w', sam2_mask_generator w').

Definition get_video_classifier_components
    : M (option handle * option handle * option device) :=
  if negb (TRANSFORMERS_AVAILABLE env) || negb (torch_available env)
  then raise (Exception "Video classifier dependencies are not available")
  else
    (* with video_init_lock: *)
    w <- get_world ;;
    match video_classifier w with
    | None =>
        let device := select_device in
        p <- new_model VideoMAEImageProcessor_from_pretrained ;;
        modify (set_video_processor (Some p)) ;;
        c <- new_model VideoMAEForVideoClassification_from_pretrained ;;
        modify (set_video_classifier (Some c)) ;;
        call video_classifier_to ;;
        call video_classifier_eval ;;
        modify (set_video_device (Some device))
    | Some _ => ret tt
    end ;;
    w' <- get_world ;;
    ret (video_processor w', video_classifier w', video_device w').

(** *** Temporary artifacts *)

(** [tempfile.NamedTemporaryFile(delete=False, ...)] and [mkdtemp]: a fresh
    name, present on disk from now on. *)
Definition new_temp (c : ext_call) : M path :=
  call c ;;
  w <- get_world ;;
  let p := next_tmp w in
  modify (fun w => set_next_tmp (S p) (set_fs (fs_create p (fs w)) w)) ;;
  emit (EvTempFile p) ;;
  ret p.

(** [with tempfile.TemporaryDirectory() as d: body d].  Leaving the block,
    by [return] or by an exception, removes the directory with all it
    holds; when that removal fails, its exception is what leaves the block
    and the directory stays. *)
Definition with_TemporaryDirectory {A : Type} (body : path -> M A) : M A :=
  d <- new_temp seg_TemporaryDirectory ;;
  try_finally (body d)
    (call seg_TemporaryDirectory_cleanup ;;
     modify (fun w => set_fs (fs_remove d (fs w)) w) ;; emit (EvRemove d)).

(** [os.remove(p)]. *)
Definition os_remove (p : path) : M unit :=
  fun w =>
    if remove_raises env p || negb (exists_on_disk p w)
    then (Raise (Exception "OSError"), w)
    else (Return tt, set_fs (fs_remove p (fs w)) w).

(** Lines 611-616 and 630-635:
    [if p and os.path.exists(p): try: os.remove(p) except Exception: warn]. *)
Definition cleanup (p : option path) : M unit :=
  match p with
  | None => ret tt
  | Some p =>
      w <- get_world ;;
      if exists_on_disk p w
      then try_except (os_remove p ;; emit (EvRemove p))
                      (fun _ => emit (EvRemoveFailed p))
      else ret tt
  end.

(** *** Segmentation stage (lines 229-356) *)

Definition segment_uploaded_video (input_path : path) : M (option path) :=
  emit (EvSegment input_path) ;;
  if negb (SAM2_AVAILABLE env) || negb (torch_available env)
     || negb (cv2_available env)
  then ret None
  else
    r <- try_except (c <- get_sam2_components ;; ret (Some c))
                    (fun _ => ret None) ;;
    match r with
    | None => ret None
    | Some (predictor, mask_generator) =>
        (* with sam2_infer_lock: try: ... except Exception: return None *)
        try_except
          (match decode env input_path with
           | None => ret None
           | Some frames =>
               call seg_cap_get ;;
               with_TemporaryDirectory (fun frames_dir =>
                 match frames with
                 | [] => ret None
                 | _ :: _ =>
                     call seg_extract_frames ;;
                     call predictor_init_state ;;
                     call predictor_reset_state ;;
                     call seg_imread ;;
                     if negb (first_frame_readable env) then ret None
                     else
                       match mask_generator with
                       | None => raise (Exception "AttributeError")
                       | Some _ => call mask_generator_generate
                       end ;;
                       if Nat.eqb (mask_count env) 0 then ret None
                       else
                         call seg_sort_masks ;;
                         call predictor_add_new_points_or_box ;;
                         call predictor_propagate_in_video ;;
                         call predictor_reset_state ;;
                         output_path <- new_temp seg_NamedTemporaryFile ;;
                         call seg_VideoWriter ;;
                         call seg_render ;;
                         call seg_writer_release ;;
                         ret (Some output_path)
                 end)
           end)
          (fun _ => ret None)
    end.

(** *** Frame sampler (lines 381-436) *)

(** Lines 400-401: [cv2.resize] to [size], then BGR to RGB. *)
Definition convert (f : frame) : frame := cv2_cvtColor env (cv2_resize env f).

Definition load_video_frame_sequences (video_path : path)
    (frame_count sequence_count : Z) : M (list (list frame)) :=
  if negb (cv2_available env) then ret []
  else
    match decode env video_path with
    | None => ret []
    | Some frames =>
        (* try: the read loop  finally: cap.release() *)
        processed_frames <-
          try_finally
            (match frames with
             | [] => ret []
             | _ :: _ => call cls_convert_frames ;; ret (map convert frames)
             end)
            (ret tt) ;;
        ret (sample_windows processed_frames frame_count sequence_count)
    end.

(** *** Classification stage (lines 439-484) *)

Fixpoint list_max (l : list Q) : option Q :=
  match l with
  | [] => None
  | x :: l' =>
      match list_max l' with
      | None => Some x
      | Some m => Some (if Qle_bool m x then x else m)
      end
  end.

(** Lines 470-474: the score read off one row of probabilities; [None] is
    the [IndexError] of a row that is too short. *)
Definition window_score (probs : list Q) : option Q :=
  if Py.contains "real" (VIDEO_CLASS_NAMES env) then
    match Py.index "real" (VIDEO_CLASS_NAMES env) with
    | Some real_idx => nth_error probs real_idx
    | None => None
    end
  else list_max probs.

(** Lines 465-475 for one window. *)
Definition score_window (frames : list frame) : M Q :=
  emit EvInference ;;
  match softmax_probs env frames with
  | None => raise (Exception "inference failed")
  | Some probs =>
      match window_score probs with
      | None => raise (Exception "IndexError")
      | Some score => ret score
      end
  end.

(** Lines 462-475: the loop, with the list [scores] built so far. *)
Fixpoint score_windows (frame_sequences : list (list frame)) (scores : list Q)
    : M (list Q) :=
  match frame_sequences with
  | [] => ret scores
  | frames :: rest =>
      match frames with
      | [] => score_windows rest scores
      | _ :: _ =>
          score <- score_window frames ;;
          score_windows rest (scores ++ [score])
      end
  end.

(** [sum(scores) / len(scores)]. *)
Definition mean (scores : list Q) : Q :=
  (fold_left Qplus scores 0 / inject_Z (Py.len scores))%Q.

Definition classify_segmented_video (video_path : path) : M Q :=
  emit (EvClassify video_path) ;;
  if negb (TRANSFORMERS_AVAILABLE env) || negb (torch_available env)
  then ret 0%Q
  else
    frame_sequences <-
      load_video_frame_sequences video_path (VIDEO_CLASS_FRAME_COUNT env) 4 ;;
    match frame_sequences with
    | [] => ret 0%Q
    | _ :: _ =>
        r <- try_except (c <- get_video_classifier_components ;; ret (Some c))
                        (fun _ => ret None) ;;
        match r with
        | None => ret 0%Q
        | Some _ =>
            (* with video_infer_lock: try: ... except Exception: return 0.0 *)
            try_except
              (scores <- score_windows frame_sequences [] ;;
               match scores with
               | [] => ret 0%Q
               | _ :: _ => ret (mean scores)
               end)
              (fun _ => ret 0%Q)
        end
    end.

(** *** Upload handler (lines 527-641) *)

(** Lines 125-152 and 155-172: both swallow their own failures. *)
Definition log_video_received (episode_number file_size attempt_number : Z)
    : M unit :=
  try_except
    (call score_log_write ;;
     modify (fun w =>
       set_score_log
         (Received episode_number file_size attempt_number :: score_log w) w))
    (fun _ => ret tt).

Definition log_video_score (episode_number file_size : Z)
    (score analysis_time : Q) (attempt_number : Z) : M unit :=
  try_except
    (call score_log_write ;;
     modify (fun w =>
       set_score_log
         (Scored episode_number file_size score analysis_time attempt_number
            :: score_log w) w))
    (fun _ => ret tt).

(** [tmp.write(chunk)]. *)
Definition tmp_write (tmp : path) (n : Z) : M unit :=
  call upload_write ;;
  modify (fun w => set_fs (fs_append tmp n (fs w)) w).

(** Lines 560-574: the streaming loop, with the running [total_size]. *)
Fixpoint receive (tmp : path) (reads : list read_result) (total_size : Z)
    : M Z :=
  match reads with
  | [] => ret total_size
  | Chunk n :: rest =>
      if n <=? 0 then ret total_size
      else
        tmp_write tmp n ;;
        let total_size := total_size + n in
        if total_size >? MAX_FILE_SIZE then raise (HTTPException 413)
        else receive tmp rest total_size
  | ReadTimeout :: _ => raise (HTTPException 408)
  | ReadFailure :: _ => raise (Exception "read failed")
  end.

(** Line 547: [file.content_type and not file.content_type.startswith('video/')]. *)
Definition wrong_content_type (ct : option string) : bool :=
  match ct with
  | None => false
  | Some s => negb (String.eqb s EmptyString) && negb (String.prefix "video/" s)
  end.

(** Lines 586 and 590-591: the clip that goes to classification. *)
Definition classification_target (segmented_path : option path)
    (tmp_path : path) : path :=
  match segmented_path with
  | Some p => p
  | None => tmp_path
  end.

(** The handler looks the two stage functions up by name when it runs, so
    it is written over whatever they are bound to. *)
Section Orchestrator.

Variable segment : path -> M (option path).
Variable classify : path -> M Q.

(** Lines 584-616: segmentation, classification, and what the [finally]
    block does with their results.  The [except Exception] clause catches
    whatever the two stages raise, so the code of the [finally] block is
    sequenced after it. *)
Definition analyse_with (req : Upload) (tmp_path : path) (total_size : Z)
    : M Q :=
  analysis_start <- time_time ;;
  sr <- try_except
          (segmented_path <- segment tmp_path ;;
           try_except
             (reward_value <-
                classify (classification_target segmented_path tmp_path) ;;
              ret (segmented_path, reward_value))
             (fun _ => ret (segmented_path, 0%Q)))
          (fun _ => ret (None, 0%Q)) ;;
  let segmented_path := fst sr in
  let reward_value := snd sr in
  now <- time_time ;;
  let analysis_time := (now - analysis_start)%Q in
  log_video_score (episode_number req) total_size reward_value analysis_time
                  (attempt_number req) ;;
  cleanup segmented_path ;;
  ret reward_value.

Definition upload_video_with (req : Upload) : M UploadResponse :=
  try_except
    (start_time <- time_time ;;
     if file_size req >? MAX_FILE_SIZE then raise (HTTPException 413)
     else if wrong_content_type (content_type req)
     then raise (HTTPException 400)
     else
       (* tmp_path stays None when NamedTemporaryFile itself raises *)
       tmp_path <- new_temp upload_NamedTemporaryFile ;;
       try_finally
         (total_size <- receive tmp_path (body req) 0 ;;
          log_video_received (episode_number req) total_size
                             (attempt_number req) ;;
          reward_value <- analyse_with req tmp_path total_size ;;
          upload_end <- time_time ;;
          ret (mkUploadResponse "ok" None (Some (episode_number req))
                                reward_value))
         (cleanup (Some tmp_path)))
    (fun e =>
       match e with
       | HTTPException c => raise (HTTPException c)
       | _ => raise (HTTPException 500)
       end).

End Orchestrator.

Definition analyse : Upload -> path -> Z -> M Q :=
  analyse_with segment_uploaded_video classify_segmented_video.

Definition upload_video : Upload -> M UploadResponse :=
  upload_video_with segment_uploaded_video classify_segmented_video.

(** Lines 536-574 on their own: the checks, the temporary file and the
    streaming loop, up to the point where processing begins. *)
Definition ingest (req : Upload) : M (path * Z) :=
  start_time <- time_time ;;
  if file_size req >? MAX_FILE_SIZE then raise (HTTPException 413)
  else if wrong_content_type (content_type req)
  then raise (HTTPException 400)
  else
    tmp_path <- new_temp upload_NamedTemporaryFile ;;
    total_size <- receive tmp_path (body req) 0 ;;
    ret (tmp_path, total_size).

End Pipeline.

(** ** Vocabulary of the specification *)

Section Vocabulary.

Context {frame : Type}.
Variable env : Env frame.

(** The windows the classifier is run on: the non-empty ones. *)
Definition usable (windows : list (list frame)) : list (list frame) :=
  filter (fun win => match win with [] => false | _ :: _ => true end) windows.

(** The world right after [classify_segmented_video] was entered. *)
Definition entered (video_path : path) (w : World) : World :=
  set_trace (EvClassify video_path :: trace w) w.

(** [s] is the score of window [win]: with [probs] the softmax row the
    classifier yields on it, the entry at the first position of the label
    ["real"] when the label set has that name, and the largest entry
    otherwise. *)
Definition is_window_score (win : list frame) (s : Q) : Prop :=
  exists probs,
    softmax_probs env win = Some probs /\
    ((exists k,
        nth_error (VIDEO_CLASS_NAMES env) k = Some "real"%string /\
        (forall j, (j < k)%nat ->
                   nth_error (VIDEO_CLASS_NAMES env) j <> Some "real"%string) /\
        nth_error probs k = Some s)
     \/
     (~ In "real"%string (VIDEO_CLASS_NAMES env) /\
      In s probs /\
      (forall p, In p probs -> (p <= s)%Q))).

(** The world in which the handler, having received [total_size] bytes and
    logged the reception, calls the segmentation stage. *)
Definition analysis_world (req : Upload) (total_size : Z) (w : World) : World :=
  snd (time_time env
         (snd (log_video_received env (episode_number req) total_size
                 (attempt_number req) w))).

(** The external calls of the segmentation stage proper. *)
Definition segmentation_steps : list ext_call :=
  [ seg_cap_get; seg_TemporaryDirectory; seg_extract_frames;
    predictor_init_state; predictor_reset_state; seg_imread;
    mask_generator_generate; seg_sort_masks;
    predictor_add_new_points_or_box; predictor_propagate_in_video;
    seg_NamedTemporaryFile; seg_VideoWriter; seg_render; seg_writer_release ].

(** The steps of the segmentation stage that come after its output file
    was created: the rendering, and the removal of the frames directory
    when the [with] block of line 261 is left. *)
Definition render_steps : list ext_call :=
  [ seg_VideoWriter; seg_render; seg_writer_release;
    seg_TemporaryDirectory_cleanup ].

(** Every softmax row the classifier yields is made of probabilities. *)
Definition yields_probabilities : Prop :=
  forall win probs,
    softmax_probs env win = Some probs ->
    Forall (fun p => (0 <= p)%Q /\ (p <= 1)%Q) probs.

(** The classification backend cannot be had in world [w]: a dependency is
    missing, or loading the model fails. *)
Definition backend_unavailable (w : World) : Prop :=
  exists e w', get_video_classifier_components env w = (Raise e, w').

End Vocabulary.

(** [m] is the arithmetic mean of [scores]: there is a score, and [m] times
    the number of scores is their sum. *)
Definition is_arithmetic_mean (m : Q) (scores : list Q) : Prop :=
  scores <> [] /\
  (m * inject_Z (Z.of_nat (List.length scores))
   == fold_right Qplus 0 scores)%Q.

(** A read returns at most the number of bytes asked for. *)
Definition within_chunk (r : read_result) : Prop :=
  match r with
  | Chunk n => n <= CHUNK_SIZE
  | _ => True
  end.

(** The streaming loop ended with "413 File too large during upload". *)
Definition too_large (out : outcome Z) : Prop :=
  out = Raise (HTTPException 413).

(** ** Relations between the world before and after *)

(** Every run of [m] relates the world it starts in to the world it ends
    in by [R]. *)
Definition respects (R : World -> World -> Prop) {A : Type} (m : M A) : Prop :=
  forall w r w', m w = (r, w') -> R w w'.

(** The trace only grows. *)
Definition trace_grows (w w' : World) : Prop :=
  exists new, trace w' = new ++ trace w.

(** What the classification stage may change: models and the trace, not
    the disk, the score log or the clock. *)
Definition quiet (w w' : World) : Prop :=
  fs w' = fs w /\ next_tmp w' = next_tmp w /\ score_log w' = score_log w /\
  ticks w' = ticks w /\ trace_grows w w'.

(** What the handler turns an exception into (lines 637-641). *)
Definition as_http (e : exn) : exn :=
  match e with
  | HTTPException c => HTTPException c
  | _ => HTTPException 500
  end.

(** The same environment with another behaviour of [os.remove]. *)
Definition with_remove_raises {frame : Type} (g : path -> bool)
    (env : Env frame) : Env frame :=
  mkEnv frame
    (SAM2_AVAILABLE env) (torch_available env) (cv2_available env)
    (TRANSFORMERS_AVAILABLE env) (cuda_is_available env)
    (VIDEO_CLASS_FRAME_COUNT env) (VIDEO_CLASS_NAMES env)
    (raises env) (decode env) (cv2_resize env) (cv2_cvtColor env)
    (first_frame_readable env) (mask_count env) (softmax_probs env)
    g (clock env).

(** Between [w] and [w']: names were only handed out, no file with an
    older name has appeared, and a file named in between that is still there
    is one whose removal failed. *)
Definition tidy {frame : Type} (env : Env frame) (w w' : World) : Prop :=
  (next_tmp w <= next_tmp w')%nat /\
  (forall q, (q < next_tmp w)%nat ->
             exists_on_disk q w' = true -> exists_on_disk q w = true) /\
  (forall q, (next_tmp w <= q < next_tmp w')%nat ->
             exists_on_disk q w' = true -> remove_raises env q = true).

(** ** The model registry under concurrent callers
    ([get_sam2_components], lines 190-211, and
    [get_video_classifier_components], lines 359-378)

    Both getters have one shape: a dependency check, then, under the init
    lock of the backend, a test of one global and, when it is [None], a
    sequence of assignments to the globals of the backend; the [return]
    statement, after the lock was released, reads the globals.  Threads are
    interleaved statement by statement. *)

Module Registry.

(** One statement of the initialisation block. *)
Inductive init_step : Type :=
| Construct (c : ext_call) (second : bool)   (* global := constructor(...) *)
| Invoke (c : ext_call)                      (* a call on the new model *)
| BindDevice.                                (* ..._device = device *)

(** What tells the two getters apart. *)
Record backend : Type := mkBackend {
  available : bool;              (* the dependency check of the first line *)
  guard_is_second : bool;        (* which global the [is None] test reads *)
  script : list init_step        (* the body of the [if] *)
}.

(** The globals of one backend, its init lock, and two counters an observer
    keeps: model objects created, and entries into the [if] body. *)
Record globals : Type := mkGlobals {
  first : option handle;         (* sam2_predictor, video_processor *)
  second : option handle;        (* sam2_mask_generator, video_classifier *)
  bound_device : option device;  (* sam2_device, video_device *)
  lock : bool;                   (* the init lock is held *)
  created : nat;
  inits : nat
}.

Definition result : Type := (option handle * option handle * option device)%type.

(** Where one caller stands. *)
Inductive pc : Type :=
| AtCheckDeps                    (* entering the getter *)
| AtAcquire                      (* about to enter the [with] block *)
| AtTest                         (* in the block, before the [is None] test *)
| AtInit (rest : list init_step) (* in the [if] body, [rest] still to run *)
| AtRelease (raising : bool)     (* leaving the block, by exception or not *)
| AtReturn                       (* at the [return] statement *)
| Returned (r : result)
| Raised.

(** The callers inside the [with] block, those inside the [if] body, and
    those that left the block without an exception. *)
Definition in_block (p : pc) : bool :=
  match p with
  | AtTest | AtInit _ | AtRelease _ => true
  | _ => false
  end.

Definition at_init (p : pc) : bool :=
  match p with
  | AtInit _ => true
  | _ => false
  end.

Definition settled (p : pc) : bool :=
  match p with
  | AtRelease false | AtReturn | Returned _ => true
  | _ => false
  end.

(** A caller that has left the getter, with a result or an exception. *)
Definition finished (p : pc) : bool :=
  match p with
  | Returned _ | Raised => true
  | _ => false
  end.

(** A caller that leaves, or has left, the getter by an exception. *)
Definition failed (p : pc) : bool :=
  match p with
  | AtRelease true | Raised => true
  | _ => false
  end.

Definition count (f : pc -> bool) (ts : list pc) : nat :=
  List.length (filter f ts).

(** Among [steps] there is a constructor that fills the given global. *)
Definition builds (into_second : bool) (steps : list init_step) : Prop :=
  exists c, In (Construct c into_second) steps.

Definition is_set (o : option handle) : bool :=
  match o with
  | Some _ => true
  | None => false
  end.

Section Semantics.

Context {frame : Type}.
Variable env : Env frame.
Variable b : backend.

Definition sam2 : backend :=
  mkBackend
    (SAM2_AVAILABLE env && torch_available env && cv2_available env)
    false
    [ Construct build_sam2_video_predictor_hf false;
      Construct SAM2AutomaticMaskGenerator true;
      BindDevice ].

Definition video : backend :=
  mkBackend
    (TRANSFORMERS_AVAILABLE env && torch_available env)
    true
    [ Construct VideoMAEImageProcessor_from_pretrained false;
      Construct VideoMAEForVideoClassification_from_pretrained true;
      Invoke video_classifier_to;
      Invoke video_classifier_eval;
      BindDevice ].

Definition guard (g : globals) : option handle :=
  if guard_is_second b then second g else first g.

Definition handles (g : globals) : result :=
  (first g, second g, bound_device g).

Definition set_lock (l : bool) (g : globals) : globals :=
  mkGlobals (first g) (second g) (bound_device g) l (created g) (inits g).

Definition count_init (g : globals) : globals :=
  mkGlobals (first g) (second g) (bound_device g) (lock g) (created g)
            (S (inits g)).

(** A constructor ran: the new object goes into one of the two globals. *)
Definition store (into_second : bool) (g : globals) : globals :=
  if into_second
  then mkGlobals (first g) (Some (created g)) (bound_device g) (lock g)
                 (S (created g)) (inits g)
  else mkGlobals (Some (created g)) (second g) (bound_device g) (lock g)
                 (S (created g)) (inits g).

Definition bind_device (g : globals) : globals :=
  mkGlobals (first g) (second g)
            (Some (if cuda_is_available env then cuda else cpu))
            (lock g) (created g) (inits g).

(** One statement of one caller; [None] when the caller cannot move: it
    waits for the lock, or it is done. *)
Definition thread_step (p : pc) (g : globals) : option (pc * globals) :=
  match p with
  | AtCheckDeps =>
      if available b then Some (AtAcquire, g) else Some (Raised, g)
  | AtAcquire =>
      if lock g then None else Some (AtTest, set_lock true g)
  | AtTest =>
      match guard g with
      | None => Some (AtInit (script b), count_init g)
      | Some _ => Some (AtRelease false, g)
      end
  | AtInit [] => Some (AtRelease false, g)
  | AtInit (Construct c into_second :: rest) =>
      if raises env c then Some (AtRelease true, g)
      else Some (AtInit rest, store into_second g)
  | AtInit (Invoke c :: rest) =>
      if raises env c then Some (AtRelease true, g)
      else Some (AtInit rest, g)
  | AtInit (BindDevice :: rest) => Some (AtInit rest, bind_device g)
  | AtRelease raising =>
      Some (if raising then Raised else AtReturn, set_lock false g)
  | AtReturn => Some (Returned (handles g), g)
  | Returned _ => None
  | Raised => None
  end.

(** The statements a caller has still to run, at most. *)
Definition remaining (p : pc) : nat :=
  match p with
  | AtCheckDeps => List.length (script b) + 6
  | AtAcquire => List.length (script b) + 5
  | AtTest => List.length (script b) + 4
  | AtInit rest => List.length rest + 3
  | AtRelease _ => 2
  | AtReturn => 1
  | Returned _ | Raised => 0
  end.

(** The same for all callers together. *)
Definition work (ts : list pc) : nat :=
  fold_right (fun p n => (remaining p + n)%nat) 0%nat ts.

(** All callers and the globals they share. *)
Definition system : Type := (list pc * globals)%type.

Fixpoint replace_nth (i : nat) (p : pc) (ts : list pc) : list pc :=
  match ts, i with
  | [], _ => []
  | _ :: ts', O => p :: ts'
  | t :: ts', S i' => t :: replace_nth i' p ts'
  end.

(** The scheduler lets caller [i] run one statement. *)
Definition schedule_one (i : nat) (s : system) : system :=
  match nth_error (fst s) i with
  | None => s
  | Some p =>
      match thread_step p (snd s) with
      | None => s
      | Some (p', g') => (replace_nth i p' (fst s), g')
      end
  end.

(** [n] callers enter the getter of a process that has loaded nothing. *)
Definition start (n : nat) : system :=
  (repeat AtCheckDeps n, mkGlobals None None None false 0%nat 0%nat).

(** The system after the scheduler has picked the callers of [sched], one
    after the other. *)
Definition run (sched : list nat) (s : system) : system :=
  fold_left (fun s i => schedule_one i s) sched s.

(** The names of the calls a script makes. *)
Fixpoint script_calls (steps : list init_step) : list ext_call :=
  match steps with
  | [] => []
  | Construct c _ :: rest => c :: script_calls rest
  | Invoke c :: rest => c :: script_calls rest
  | BindDevice :: rest => script_calls rest
  end.

(** The globals of each backend as the process state holds them, for a
    process in which no caller is inside the block. *)
Definition video_globals (w : World) : globals :=
  mkGlobals (video_processor w) (video_classifier w) (video_device w)
            false (next_handle w) 0.

Definition sam2_globals (w : World) : globals :=
  mkGlobals (sam2_predictor w) (sam2_mask_generator w) (sam2_device w)
            false (next_handle w) 0.

Definition same_globals (g g' : globals) : Prop :=
  first g = first g' /\ second g = second g' /\
  bound_device g = bound_device g' /\ created g = created g' /\
  lock g = lock g'.

(** The invariant of every interleaving: the lock is held by exactly the
    callers inside the block, of which there is at most one; a caller that
    left the block normally has seen the tested global set, and none is
    initialising then; a caller that returned holds the globals as they
    are; a caller inside the [if] body runs a suffix of the script that
    still sets the tested global unless it is set; and, when no call of the
    script raises, the [if] body was entered once if the tested global is
    set or being set, and never otherwise. *)
Definition consistent (s : system) : Prop :=
  let ts := fst s in
  let g := snd s in
  count in_block ts = (if lock g then 1 else 0)%nat /\
  ((0 < count settled ts)%nat ->
   is_set (guard g) = true /\ count at_init ts = 0%nat) /\
  (forall r, In (Returned r) ts -> r = handles g) /\
  (forall rest, In (AtInit rest) ts ->
     (is_set (guard g) = true \/ builds (guard_is_second b) rest) /\
     exists done, script b = done ++ rest) /\
  ((forall c, In c (script_calls (script b)) -> raises env c = false) ->
   inits g = (if is_set (guard g) || (0 <? count at_init ts)%nat
              then 1 else 0)%nat).

End Semantics.

End Registry.

(** ** A concrete process, for running the model *)

Module Demo.

(** Frames are numbered.  Path 0 holds a clip of three frames, path 5 one
    of twenty, path 6 opens and has no frame; no other capture opens,
    except that whatever the segmentation stage writes decodes to three
    blank frames. *)
Definition demo_decode (p : path) : option (list nat) :=
  match p with
  | 0%nat => Some [1; 2; 3]%nat
  | 2%nat => Some [0; 0; 0]%nat
  | 5%nat => Some (seq 0 20)
  | 6%nat => Some []
  | _ => None
  end.

(** Everything is installed and nothing fails; the classifier finds every
    window "real" with probability 3/4. *)
Definition env : Env nat :=
  mkEnv nat true true true true false 16 DEFAULT_CLASS_NAMES
        (fun _ => false) demo_decode (fun f => f) (fun f => f)
        true 2%nat (fun _ => Some [1 # 4; 3 # 4]%Q)
        (fun _ => false) (fun n => inject_Z (Z.of_nat n)).

(** The same process without SAM2. *)
Definition env_without_sam2 : Env nat :=
  mkEnv nat false true true true false 16 DEFAULT_CLASS_NAMES
        (fun _ => false) demo_decode (fun f => f) (fun f => f)
        true 2%nat (fun _ => Some [1 # 4; 3 # 4]%Q)
        (fun _ => false) (fun n => inject_Z (Z.of_nat n)).

(** The same process on a disk that refuses to remove file 0. *)
Definition env_sticky : Env nat :=
  with_remove_raises (fun p => Nat.eqb p 0) env.

(** The same process with a renderer that fails. *)
Definition env_render_fails : Env nat :=
  mkEnv nat true true true true false 16 DEFAULT_CLASS_NAMES
        (fun c => match c with seg_render => true | _ => false end)
        demo_decode (fun f => f) (fun f => f)
        true 2%nat (fun _ => Some [1 # 4; 3 # 4]%Q)
        (fun _ => false) (fun n => inject_Z (Z.of_nat n)).

(** An upload of 1500 bytes in two chunks that declares no size. *)
Definition upload : Upload :=
  upload_form 7 None None (Some "video/mp4"%string) [Chunk 1000; Chunk 500].

(** An upload that declares one byte more than the maximum. *)
Definition upload_declared_too_large : Upload :=
  upload_form 7 None (Some (MAX_FILE_SIZE + 1)) (Some "video/mp4"%string)
              [Chunk 1000].

(** An upload of 101 MiB in full chunks that declares no size. *)
Definition upload_streamed_too_large : Upload :=
  upload_form 7 None None (Some "video/mp4"%string)
              (repeat (Chunk CHUNK_SIZE) 101).

(** Two callers of a getter, taking turns statement by statement. *)
Definition turns : list nat :=
  [0; 1; 0; 1; 0; 1; 0; 1; 0; 1; 0; 1; 0; 1; 0; 1; 0; 1; 0; 1; 0; 1]%nat.

End Demo.

(** ** What a refused upload leaves alone
    ([upload_video], lines 527-641) *)

(** The bytes a stream delivers before it ends: the chunks up to the first
    empty one. *)
Fixpoint bytes_before_end (reads : list read_result) : Z :=
  match reads with
  | Chunk n :: rest => if n <=? 0 then 0 else n + bytes_before_end rest
  | _ => 0
  end.

(** The events that tell of temporary files only. *)
Definition file_event (ev : event) : Prop :=
  match ev with
  | EvTempFile _ | EvRemove _ | EvRemoveFailed _ => True
  | _ => False
  end.

(** Between [w] and [w']: nothing was logged, no model was loaded and no
    stage was entered. *)
Definition unprocessed (w w' : World) : Prop :=
  score_log w' = score_log w /\
  next_handle w' = next_handle w /\
  sam2_predictor w' = sam2_predictor w /\
  sam2_mask_generator w' = sam2_mask_generator w /\
  sam2_device w' = sam2_device w /\
  video_processor w' = video_processor w /\
  video_classifier w' = video_classifier w /\
  video_device w' = video_device w /\
  exists new, trace w' = new ++ trace w /\ Forall file_event new.

(** ** Masks of the first frame and the rendered clip
    ([classify_masks_by_area], lines 214-226; lines 298-304 and 339-347 of
    [segment_uploaded_video]) *)

Module Masks.

(** A boolean array of shape (height, width), row by row. *)
Definition mask := list (list bool).

(** A mask record of SAM2, as far as the server reads it.  [area] is [None]
    when the record has no key ["area"]; [segmentation] is [None] when the key
    is missing or holds [None]. *)
Record mask_data : Type := mkMaskData {
  area : option Z;
  segmentation : option mask
}.

(** [mask_data.get("area", 0)]. *)
Definition get_area (m : mask_data) : Z :=
  match area m with
  | Some a => a
  | None => 0
  end.

(** Lines 219-224: the loop, with the index it has reached and the two lists
    built so far. *)
Fixpoint classify_loop (masks : list mask_data) (idx total_area : Z)
    (background_ratio : Q) (background_ids object_ids : list Z)
    : list Z * list Z :=
  match masks with
  | [] => (background_ids, object_ids)
  | mask_data :: rest =>
      let area_ratio := (inject_Z (get_area mask_data) / inject_Z total_area)%Q in
      if Qle_bool background_ratio area_ratio
      then classify_loop rest (idx + 1) total_area background_ratio
             (background_ids ++ [idx]) object_ids
      else classify_loop rest (idx + 1) total_area background_ratio
             background_ids (object_ids ++ [idx])
  end.

Definition classify_masks_by_area (masks : list mask_data)
    (frame_width frame_height : Z) (background_ratio : Q) : list Z * list Z :=
  let total_area := Z.max (frame_width * frame_height) 1 in
  classify_loop masks 0 total_area background_ratio [] [].

(** Line 298: [sorted(masks, key=lambda x: x.get("area", 0), reverse=True)].
    Python's sort is stable, also under [reverse=True]: records of equal area
    keep their order. *)
Fixpoint insert_by_area (m : mask_data) (sorted : list mask_data)
    : list mask_data :=
  match sorted with
  | [] => [m]
  | x :: rest =>
      if get_area x <=? get_area m then m :: sorted
      else x :: insert_by_area m rest
  end.

Definition sorted_by_area (masks : list mask_data) : list mask_data :=
  fold_right insert_by_area [] masks.

(** A pixel in BGR order, and a frame of shape (height, width, 3). *)
Definition colour : Type := (Z * Z * Z)%type.
Definition image := list (list colour).

(** Line 77. *)
Definition SEGMENT_OBJECT_COLOR : colour := (0, 255, 0).

Definition black : colour := (0, 0, 0).

(** [np.zeros((height, width, 3), dtype=np.uint8)]; [None] is the
    [ValueError] of a negative dimension. *)
Definition np_zeros (height width : Z) : option image :=
  if (height <? 0) || (width <? 0) then None
  else Some (Py.replicate (Py.replicate black width) height).

Definition same_shape (m : mask) (frame : image) : bool :=
  Nat.eqb (List.length m) (List.length frame) &&
  forallb (fun rows : list bool * list colour =>
             Nat.eqb (List.length (fst rows)) (List.length (snd rows)))
          (combine m frame).

(** [frame[m.astype(bool)] = c]; [None] is the [IndexError] of a mask whose
    shape is not that of the frame. *)
Definition assign_where (frame : image) (m : mask) (c : colour) : option image :=
  if same_shape m frame
  then Some (map (fun rows : list colour * list bool =>
                    map (fun px : colour * bool => if snd px then c else fst px)
                        (combine (fst rows) (snd rows)))
                 (combine frame m))
  else None.

(** [d.get(k)] on a dict given by its items. *)
Fixpoint dict_get {V : Type} (k : Z) (d : list (Z * V)) : option V :=
  match d with
  | [] => None
  | (k', v) :: d' => if k =? k' then Some v else dict_get k d'
  end.

(** Lines 343-346: the objects of one frame are painted one after the other,
    the background ones are passed over. *)
Fixpoint paint_objects (items : list (Z * mask)) (background_ids : list Z)
    (result_frame : image) : option image :=
  match items with
  | [] => Some result_frame
  | (obj_id, m) :: rest =>
      if existsb (Z.eqb obj_id) background_ids
      then paint_objects rest background_ids result_frame
      else
        match assign_where result_frame m SEGMENT_OBJECT_COLOR with
        | Some result_frame => paint_objects rest background_ids result_frame
        | None => None
        end
  end.

(** Lines 340-346 for the frame of index [idx]. *)
Definition render_frame (video_segments : list (Z * list (Z * mask)))
    (background_ids : list Z) (target_height target_width idx : Z)
    : option image :=
  let mask_dict := dict_get idx video_segments in
  match np_zeros target_height target_width with
  | None => None
  | Some result_frame =>
      match mask_dict with
      | Some (item :: items) =>
          paint_objects (item :: items) background_ids result_frame
      | _ => Some result_frame
      end
  end.

(** Lines 339-347: one frame is written for every extracted frame file. *)
Fixpoint render_frames (frame_files : list path) (idx : Z)
    (video_segments : list (Z * list (Z * mask))) (background_ids : list Z)
    (target_height target_width : Z) : option (list image) :=
  match frame_files with
  | [] => Some []
  | _ :: rest =>
      match render_frame video_segments background_ids
              target_height target_width idx with
      | None => None
      | Some result_frame =>
          match render_frames rest (idx + 1) video_segments background_ids
                  target_height target_width with
          | None => None
          | Some written => Some (result_frame :: written)
          end
      end
  end.

(** The pixel of row [y] and column [x]. *)
Definition pixel {A : Type} (rows : list (list A)) (y x : nat) : option A :=
  match nth_error rows y with
  | Some row => nth_error row x
  | None => None
  end.

(** What [classify_masks_by_area] calls background. *)
Definition is_background (frame_width frame_height : Z) (background_ratio : Q)
    (m : mask_data) : Prop :=
  (background_ratio <=
   inject_Z (get_area m) / inject_Z (Z.max (frame_width * frame_height) 1))%Q.

(** The positions, counted from [idx], of the records that pass [keep]. *)
Fixpoint positions (keep : mask_data -> bool) (masks : list mask_data)
    (idx : Z) : list Z :=
  match masks with
  | [] => []
  | m :: rest =>
      if keep m then idx :: positions keep rest (idx + 1)
      else positions keep rest (idx + 1)
  end.

(** The items of [video_segments.get(idx)], none when the key is missing. *)
Definition segments_of (video_segments : list (Z * list (Z * mask)))
    (idx : Z) : list (Z * mask) :=
  match dict_get idx video_segments with
  | Some items => items
  | None => []
  end.

(** Some object of [items] that is not a background object has pixel
    (y, x) in its mask. *)
Definition covered (items : list (Z * mask)) (background_ids : list Z)
    (y x : nat) : bool :=
  existsb (fun item : Z * mask =>
             negb (existsb (Z.eqb (fst item)) background_ids) &&
             match pixel (snd item) y x with
             | Some true => true
             | _ => false
             end)
          items.

(** An array of [h] rows of [w] entries. *)
Definition shaped {A : Type} (h w : nat) (rows : list (list A)) : Prop :=
  List.length rows = h /\ Forall (fun row => List.length row = w) rows.

(** Line 215. *)
Definition frame_area (frame_width frame_height : Z) : Z :=
  Z.max (frame_width * frame_height) 1.

(** The test of line 221. *)
Definition background (frame_width frame_height : Z) (background_ratio : Q)
    (m : mask_data) : bool :=
  Qle_bool background_ratio
           (inject_Z (get_area m)
            / inject_Z (frame_area frame_width frame_height)).

End Masks.

(** ** The offline tools of [video_analyze.py]

    The functions of this file run outside the server, on the same OpenCV
    captures; none of them touches the process state, so they are functions
    of the environment alone.  Exceptions are not caught anywhere in this
    file: what raises, raises out of the function. *)

Module VideoAnalyze.

Section VideoAnalyze.

Context {frame : Type}.
Variable env : Env frame.

(** [os.path.exists]. *)
Variable path_exists : path -> bool.

(** [cv2.cvtColor(frame, cv2.COLOR_BGR2GRAY)]: the grey levels of the frame,
    row after row.  The frames of one capture have one size, and
    [cv2.absdiff] is modelled on arrays of one size. *)
Variable gray_levels : frame -> list Z.

Definition cv2_error : exn := Exception "cv2.error".

(** An empty image is refused by [cv2.cvtColor]. *)
Definition cvtColor_gray (f : frame) : outcome (list Z) :=
  match gray_levels f with
  | [] => Raise cv2_error
  | g => Return g
  end.

(** [cv2.absdiff]; arrays of different sizes are refused. *)
Definition absdiff (a b : list Z) : outcome (list Z) :=
  if Nat.eqb (List.length a) (List.length b)
  then Return (map (fun p : Z * Z => Z.abs (fst p - snd p)) (combine a b))
  else Raise cv2_error.

(** [float(diff.mean())]. *)
Definition array_mean (diff : list Z) : Q :=
  (inject_Z (fold_right Z.add 0%Z diff) / inject_Z (Py.len diff))%Q.

(** Lines 32-45: the read loop, over the frames the capture still has to
    deliver, with the variables of the loop. *)
Fixpoint read_loop (reads : list frame) (max_frames frames_read : Z)
    (prev_gray : option (list Z)) (diffs_sum : Q) (diffs_count : Z)
    : outcome (Q * Z) :=
  if frames_read <? max_frames then
    match reads with
    | [] => Return (diffs_sum, diffs_count)
    | f :: rest =>
        match cvtColor_gray f with
        | Raise e => Raise e
        | Return gray =>
            match prev_gray with
            | Some prev =>
                match absdiff gray prev with
                | Raise e => Raise e
                | Return diff =>
                    let mean_norm := (array_mean diff / 255)%Q in
                    read_loop rest max_frames (frames_read + 1) (Some gray)
                              (diffs_sum + mean_norm)%Q (diffs_count + 1)
                end
            | None =>
                read_loop rest max_frames (frames_read + 1) (Some gray)
                          diffs_sum diffs_count
            end
        end
    end
  else Return (diffs_sum, diffs_count).

(** Lines 15-58. *)
Definition analyze_video (video_path : path) (max_frames : Z) : outcome Q :=
  if negb (cv2_available env) then Return 0%Q
  else
    match decode env video_path with
    | None => Return 0%Q
    | Some reads =>
        match read_loop reads max_frames 0 None 0%Q 0 with
        | Raise e => Raise e
        | Return (diffs_sum, diffs_count) =>
            if diffs_count =? 0 then Return 0%Q
            else
              let score := (diffs_sum / inject_Z diffs_count)%Q in
              if negb (Qle_bool 0 score) then Return 0%Q
              else if negb (Qle_bool score 1) then Return 1%Q
              else Return score
        end
    end.

(** Lines 66-72: the [for] loop over [range(frame_count)], with the
    iterations left, the frames the capture still has to deliver, and the
    list built so far.  Resizing and converting a frame can raise. *)
Fixpoint read_frames (iterations : nat) (reads : list frame)
    (frames : list frame) : outcome (list frame) :=
  match iterations with
  | O => Return frames
  | S iterations' =>
      match reads with
      | [] => Return frames
      | f :: rest =>
          if raises env cls_convert_frames then Raise call_failed
          else read_frames iterations' rest (frames ++ [convert env f])
      end
  end.

(** Lines 73-74: [while len(frames) < frame_count and len(frames) > 0]. *)
Fixpoint pad_loop (fuel : nat) (frames : list frame) (frame_count : Z)
    : list frame :=
  match fuel with
  | O => frames
  | S fuel' =>
      if (Py.len frames <? frame_count) && (Py.len frames >? 0) then
        match Py.last_item frames with
        | Some tail => pad_loop fuel' (frames ++ [tail]) frame_count
        | None => frames
        end
      else frames
  end.

(** Lines 60-76.  A capture that does not open delivers no frame.  The
    padding loop adds one frame per turn, so [frame_count] turns are enough
    for it to come to its end. *)
Definition load_video_frames (video_path : path) (frame_count : Z)
    : outcome (list frame) :=
  if negb (path_exists video_path) then Return []
  else
    let reads := match decode env video_path with
                 | Some reads => reads
                 | None => []
                 end in
    match read_frames (Z.to_nat frame_count) reads [] with
    | Raise e => Raise e
    | Return frames =>
        Return (pad_loop (Z.to_nat frame_count) frames frame_count)
    end.

(** The condition of the padding loop. *)
Definition padding_goes_on (frames : list frame) (frame_count : Z) : bool :=
  (Py.len frames <? frame_count) && (Py.len frames >? 0).

(** How much one frame differs from the one before it: the mean absolute
    difference of their grey levels, as a fraction of 255. *)
Definition frame_change (gray prev : list Z) : Q :=
  (array_mean (map (fun p : Z * Z => Z.abs (fst p - snd p)) (combine gray prev))
   / 255)%Q.

(** The changes between the successive frames of a clip. *)
Fixpoint changes (grays : list (list Z)) : list Q :=
  match grays with
  | prev :: (gray :: _) as rest => frame_change gray prev :: changes rest
  | _ => []
  end.

(** The same, for a clip that follows the frame [prev_gray], if any. *)
Definition changes_after (prev_gray : option (list Z)) (grays : list (list Z))
    : list Q :=
  match prev_gray with
  | Some prev => changes (prev :: grays)
  | None => changes grays
  end.

(** A capture as OpenCV delivers it: every frame has the same number of
    pixels, at least one, and grey levels are bytes. *)
Definition well_formed (pixels : nat) (reads : list frame) : Prop :=
  (0 < pixels)%nat /\
  Forall (fun f => List.length (gray_levels f) = pixels /\
                   Forall (fun v => 0 <= v <= 255) (gray_levels f)) reads.

End VideoAnalyze.

(** A grey image of [pixels] bytes. *)
Definition byte_image (pixels : nat) (g : list Z) : Prop :=
  List.length g = pixels /\ Forall (fun v => 0 <= v <= 255) g.

End VideoAnalyze.

(** ** The score log as a file, and the endpoints that read it
    ([log_video_received], lines 125-152; [log_video_score], lines 155-172;
    [initialize_log_file], lines 174-187; [get_server_status], lines
    645-672; [get_recent_logs], lines 674-692)

    The pipeline above keeps the score log as a list of entries.  Here it is
    the text file [video_scores.txt]: [None] when the file does not exist,
    and its content otherwise.  A text is a list of characters, a character
    being a code point below 256.  The number formats of f-strings and the
    time stamp of [datetime.now().strftime] are given from outside. *)

Module ScoreLog.

Abbreviation text := (list ascii).

(** A literal of the source. *)
Definition lit (s : string) : text := list_ascii_of_string s.

Definition LF : ascii := ascii_of_nat 10.
Definition CR : ascii := ascii_of_nat 13.

(** [f.readlines()] of a file opened in text mode: a line ends at ["\n"],
    ["\r\n"] or ["\r"], each read as ["\n"]; the last line may have no end.
    [cur] is the line read so far. *)
Fixpoint readlines_from (cur : text) (s : text) : list text :=
  match s with
  | [] => match cur with
          | [] => []
          | _ :: _ => [cur]
          end
  | c :: rest =>
      if Ascii.eqb c LF then (cur ++ [LF]) :: readlines_from [] rest
      else if Ascii.eqb c CR then
        match rest with
        | c' :: rest' =>
            if Ascii.eqb c' LF then (cur ++ [LF]) :: readlines_from [] rest'
            else (cur ++ [LF]) :: readlines_from [] rest
        | [] => [cur ++ [LF]]
        end
      else readlines_from (cur ++ [c]) rest
  end.

Definition readlines (s : text) : list text := readlines_from [] s.

(** [hay.startswith(needle)] and [needle in hay]. *)
Fixpoint starts_with (needle hay : text) : bool :=
  match needle, hay with
  | [], _ => true
  | c :: needle', d :: hay' => Ascii.eqb c d && starts_with needle' hay'
  | _ :: _, [] => false
  end.

Fixpoint is_in (needle hay : text) : bool :=
  starts_with needle hay ||
  match hay with
  | [] => false
  | _ :: hay' => is_in needle hay'
  end.

(** [c.isspace()] for a code point below 256. *)
Definition isspace (c : ascii) : bool :=
  let n := nat_of_ascii c in
  ((9 <=? n) && (n <=? 13) || (28 <=? n) && (n <=? 32) ||
   (n =? 133) || (n =? 160))%nat.

Fixpoint lstrip (s : text) : text :=
  match s with
  | [] => []
  | c :: rest => if isspace c then lstrip rest else s
  end.

Fixpoint rstrip (s : text) : text :=
  match s with
  | [] => []
  | c :: rest =>
      match rstrip rest with
      | [] => if isspace c then [] else [c]
      | kept => c :: kept
      end
  end.

(** [s.strip()]. *)
Definition strip (s : text) : text := rstrip (lstrip s).

(** [os.path.getsize]: the length of the UTF-8 encoding. *)
Definition getsize (content : text) : Z :=
  fold_right (fun c n => (if (nat_of_ascii c <? 128)%nat then 1 else 2) + n)
             0 content.

(** [open(SCORE_LOG_FILE, "a")] followed by [f.write(s)]: the file is made
    when it is not there. *)
Definition append_to (log : option text) (s : text) : option text :=
  match log with
  | Some content => Some (content ++ s)
  | None => Some s
  end.

Section Formats.

(** [f"{n}"], [f"{n:4d}"] and [f"{x:W.Pf}"]. *)
Variable format_int : Z -> text.
Variable format_int_4d : Z -> text.
Variable format_fixed : nat -> nat -> Q -> text.

(** [file_size/1024/1024]. *)
Definition megabytes (file_size : Z) : Q :=
  (inject_Z file_size / 1024 / 1024)%Q.

(** Lines 134-140. *)
Definition received_entry (timestamp : text)
    (episode_number file_size attempt_number : Z) (filename : option text)
    : text :=
  let entry :=
    timestamp ++ lit " | Episode: " ++ format_int_4d episode_number ++
    lit " | Attempt: " ++ format_int attempt_number ++ lit " | " ++
    lit "Size: " ++ format_fixed 6 2 (megabytes file_size) ++
    lit "MB | Event: RECEIVED" in
  let entry :=
    match filename with
    | Some (c :: name) => entry ++ lit " | File: " ++ (c :: name)
    | _ => entry
    end in
  entry ++ [LF].

(** Lines 125-152.  [timestamp] is what [datetime.now().strftime] gave;
    when opening the file raises, the function logs the error and
    returns. *)
Definition log_video_received (timestamp : text) (open_raises : bool)
    (episode_number file_size attempt_number : Z) (filename : option text)
    (log : option text) : option text :=
  if open_raises then log
  else append_to log (received_entry timestamp episode_number file_size
                                     attempt_number filename).

(** Lines 159-163. *)
Definition score_entry (timestamp : text) (episode_number file_size : Z)
    (score analysis_time : Q) (attempt_number : Z) : text :=
  timestamp ++ lit " | Episode: " ++ format_int_4d episode_number ++
  lit " | " ++ lit "Attempt: " ++ format_int attempt_number ++
  lit " | Size: " ++ format_fixed 6 2 (megabytes file_size) ++ lit "MB | " ++
  lit "Score: " ++ format_fixed 6 4 score ++ lit " | Analysis: " ++
  format_fixed 6 2 analysis_time ++ lit "s" ++ [LF].

(** Lines 155-172. *)
Definition log_video_score (timestamp : text) (open_raises : bool)
    (episode_number file_size : Z) (score analysis_time : Q)
    (attempt_number : Z) (log : option text) : option text :=
  if open_raises then log
  else append_to log (score_entry timestamp episode_number file_size score
                                  analysis_time attempt_number).

End Formats.

(** Lines 179-184: what the six [f.write] calls write. *)
Definition header (timestamp : text) : list text :=
  [ repeat "="%char 80 ++ [LF];
    lit "Fish Agent Video Analysis Score Log" ++ [LF];
    lit "Started: " ++ timestamp ++ [LF];
    repeat "="%char 80 ++ [LF];
    lit "Timestamp           | Episode | Attempt | Size(MB) | Score  | Analysis(s)"
      ++ [LF];
    repeat "-"%char 80 ++ [LF] ].

(** Lines 174-187. *)
Definition initialize_log_file (timestamp : text) (open_raises : bool)
    (log : option text) : option text :=
  match log with
  | Some _ => log
  | None => if open_raises then None else Some (List.concat (header timestamp))
  end.

(** Lines 649-659: the statistics of [/status].  The entries are set one
    after the other, so a failure to read the file leaves the ones set
    before it. *)
Record log_statistics : Type := mkLogStatistics {
  total_episodes : Z;
  log_file_exists : bool;
  log_file_size : Z
}.

Definition log_stats (read_raises : bool) (log : option text)
    : log_statistics :=
  match log with
  | None => mkLogStatistics 0 false 0
  | Some content =>
      if read_raises then mkLogStatistics 0 true (getsize content)
      else
        let lines := readlines content in
        mkLogStatistics
          (Py.len (filter (is_in (lit "Episode:")) lines))
          true (getsize content)
  end.

(** What [/logs] answers. *)
Inductive recent_logs : Type :=
| NoLogFile (message : string) (logs : list text)
| RecentLogs (total_lines showing_lines : Z) (logs : list text).

Definition nonempty (s : text) : bool :=
  match s with
  | [] => false
  | _ :: _ => true
  end.

(** Lines 674-692. *)
Definition get_recent_logs (read_raises : bool) (lines : Z)
    (log : option text) : outcome recent_logs :=
  match log with
  | None => Return (NoLogFile "No log file found" [])
  | Some content =>
      if read_raises then Raise (HTTPException 500)
      else
        let all_lines := readlines content in
        let recent_lines :=
          if Py.len all_lines >? lines
          then Py.slice all_lines (- lines) (Py.len all_lines)
          else all_lines in
        Return (RecentLogs (Py.len all_lines) (Py.len recent_lines)
                  (filter nonempty (map strip recent_lines)))
  end.

(** A text without a line end in it. *)
Definition one_line (s : text) : Prop :=
  Forall (fun c => c <> LF /\ c <> CR) s.

(** A file that is empty or ends with a line end. *)
Fixpoint terminated (s : text) : bool :=
  match s with
  | [] => true
  | c :: rest =>
      match rest with
      | [] => Ascii.eqb c LF
      | _ :: _ => terminated rest
      end
  end.

(** A time stamp as ["%Y-%m-%d %H:%M:%S"] gives it: digits, dashes, colons
    and a blank, a digit first. *)
Definition stamp_char (c : ascii) : bool :=
  let n := nat_of_ascii c in
  ((48 <=? n) && (n <=? 58) || (n =? 45) || (n =? 32))%nat.

Definition is_stamp (s : text) : Prop :=
  match s with
  | [] => False
  | c :: _ => isspace c = false /\ Forall (fun c => stamp_char c = true) s
  end.

(** The six lines of the header without their line ends. *)
Definition header_bodies (timestamp : text) : list text :=
  [ repeat "="%char 80;
    lit "Fish Agent Video Analysis Score Log";
    lit "Started: " ++ timestamp;
    repeat "="%char 80;
    lit "Timestamp           | Episode | Attempt | Size(MB) | Score  | Analysis(s)";
    repeat "-"%char 80 ].

End ScoreLog.

(** ** Python's number formats, for running the score log

    The score log is written over whatever the f-string formats print.  Here
    are the three formats it uses, on integers and on floats given by their
    exact values: [f"{n}"], [f"{n:4d}"] and [f"{x:W.Pf}"], which rounds the
    exact value of the float to [P] decimals, a tie going to the even
    neighbour. *)

Module PyFormat.

(** The decimal digits of a natural number. *)
Definition digits (n : Z) : list ascii :=
  list_ascii_of_string (DecimalString.NilZero.string_of_uint (N.to_uint (Z.to_N n))).

(** [s.rjust(width, fill)]. *)
Definition rjust (width : nat) (fill : ascii) (s : list ascii) : list ascii :=
  repeat fill (width - List.length s) ++ s.

(** [f"{n}"]. *)
Definition format_int (n : Z) : list ascii :=
  if n <? 0 then "-"%char :: digits (- n) else digits n.

(** [f"{n:4d}"]. *)
Definition format_int_4d (n : Z) : list ascii :=
  rjust 4 " "%char (format_int n).

(** [f"{x:W.Pf}"]. *)
Definition format_fixed (width precision : nat) (x : Q) : list ascii :=
  let scale := 10 ^ Z.of_nat precision in
  let scaled := Py.round_div (Z.abs (Qnum x) * scale) (Z.pos (Qden x)) in
  let whole := digits (scaled / scale) in
  let fraction :=
    match precision with
    | O => []
    | S _ => "."%char :: rjust precision "0"%char (digits (scaled mod scale))
    end in
  let sign := if Qnum x <? 0 then ["-"%char] else [] in
  rjust width " "%char (sign ++ whole ++ fraction).

End PyFormat.

(** ** The device report and the status endpoints
    ([get_device_summary], lines 101-123; [health_check], lines 515-525;
    [get_server_status], lines 645-672) *)

(** Line 64. *)
Definition UPLOAD_TIMEOUT : Z := 120.

(** [str(device)]. *)
Definition str_device (d : device) : string :=
  match d with
  | cuda => "cuda"
  | cpu => "cpu"
  end.

(** The dict of [get_device_summary]. *)
Record device_summary : Type := mkDeviceSummary {
  summary_torch_available : bool;
  summary_cuda_available : bool;
  gpu_name : option string;
  summary_sam2_device : option string;
  video_classifier_device : option string
}.

(** The dict of [/health]. *)
Record health : Type := mkHealth {
  health_status : string;
  health_message : string;
  health_timestamp : Q;
  health_max_file_size_mb : Q;
  health_timeout_seconds : Z;
  health_gpu : device_summary
}.

(** The dict of [/status]. *)
Record server_status : Type := mkServerStatus {
  status_server : string;
  status_status : string;
  status_uptime : Q;
  status_max_file_size_mb : Q;
  status_timeout_seconds : Z;
  status_log_directory : string;
  status_score_log_file : string;
  status_log_statistics : ScoreLog.log_statistics;
  status_gpu : device_summary;
  status_endpoints : list string
}.

Section StatusEndpoints.

Context {frame : Type}.
Variable env : Env frame.

(** [torch.cuda.get_device_name(0)]: the name, or the text of the exception
    it raises. *)
Variable get_device_name : string + string.

Definition get_device_summary (w : World) : device_summary :=
  let summary :=
    mkDeviceSummary (torch_available env) false None
      (option_map str_device (sam2_device w))
      (option_map str_device (video_device w)) in
  if negb (torch_available env) then summary
  else
    let cuda_available := cuda_is_available env in
    let summary :=
      mkDeviceSummary (summary_torch_available summary) cuda_available
        (gpu_name summary) (summary_sam2_device summary)
        (video_classifier_device summary) in
    if cuda_available then
      mkDeviceSummary (summary_torch_available summary)
        (summary_cuda_available summary)
        (match get_device_name with
         | inl name => Some name
         | inr exc =>
             Some ("cuda device (name unavailable: " ++ exc ++ ")")%string
         end)
        (summary_sam2_device summary) (video_classifier_device summary)
    else summary.

(** [MAX_FILE_SIZE / 1024 / 1024]. *)
Definition max_file_size_mb : Q := (inject_Z MAX_FILE_SIZE / 1024 / 1024)%Q.

Definition health_check : M health :=
  (timestamp <- time_time env ;;
   w <- get_world ;;
   ret (mkHealth "ok" "Server is running" timestamp max_file_size_mb
                 UPLOAD_TIMEOUT (get_device_summary w)))%py.

(** [log] is the score log file, which the endpoint only reads. *)
Definition get_server_status (read_raises : bool)
    (log : option (list ascii)) : M server_status :=
  (let log_stats := ScoreLog.log_stats read_raises log in
   uptime <- time_time env ;;
   w <- get_world ;;
   ret (mkServerStatus "Fish Agent Reward Server" "running" uptime
          max_file_size_mb UPLOAD_TIMEOUT "video_analysis_logs"
          "video_analysis_logs/video_scores.txt" log_stats
          (get_device_summary w)
          ["/health"; "/upload/video"; "/status"; "/logs"]%string))%py.

End StatusEndpoints.

(** ** Further concrete processes and inputs *)

Module Cases.

(** The process of [Demo.env] in which the external calls [failing] raise. *)
Definition env_failing (failing : ext_call -> bool) : Env nat :=
  mkEnv nat true true true true false 16 DEFAULT_CLASS_NAMES
        failing Demo.demo_decode (fun f => f) (fun f => f)
        true 2%nat (fun _ => Some [1 # 4; 3 # 4]%Q)
        (fun _ => false) (fun n => inject_Z (Z.of_nat n)).

(** The classifier loads and cannot be moved to its device. *)
Definition env_device_move_fails : Env nat :=
  env_failing (fun c => match c with
                        | video_classifier_to => true
                        | _ => false
                        end).

(** The classifier's files are not there. *)
Definition env_classifier_missing : Env nat :=
  env_failing (fun c => match c with
                        | VideoMAEForVideoClassification_from_pretrained => true
                        | _ => false
                        end).

(** The SAM2 predictor builds and its mask generator does not. *)
Definition env_mask_generator_fails : Env nat :=
  env_failing (fun c => match c with
                        | SAM2AutomaticMaskGenerator => true
                        | _ => false
                        end).

(** The frames directory cannot be removed when the segmentation stage
    leaves it. *)
Definition env_cleanup_fails : Env nat :=
  env_failing (fun c => match c with
                        | seg_TemporaryDirectory_cleanup => true
                        | _ => false
                        end).

(** An upload whose second read times out. *)
Definition upload_timing_out : Upload :=
  upload_form 7 None None (Some "video/mp4"%string) [Chunk 1000; ReadTimeout].

(** Two frames of two rows and three columns.  In the first, object 0 covers
    the left column and object 1, which is background, the right one; the
    second frame has no masks. *)
Definition video_segments : list (Z * list (Z * Masks.mask)) :=
  [ (0, [ (0, [[true; false; false]; [true; false; false]]);
          (1, [[false; false; true]; [false; false; true]]) ]) ].

(** Frame [n] is a grey image of four pixels of level [n]. *)
Definition gray_levels (f : nat) : list Z := repeat (Z.of_nat f) 4.

(** The files on disk are the captures that open. *)
Definition path_exists (p : path) : bool :=
  match Demo.demo_decode p with
  | Some _ => true
  | None => false
  end.

(** A time stamp. *)
Definition stamp : list ascii :=
  list_ascii_of_string "2025-01-02 03:04:05".

End Cases.

(* ===================================================================== *)
(** * Properties *)
(* ===================================================================== *)

(** ** Lists and rounding *)

Section PyFacts.

Context {A : Type}.

Lemma len_app (l1 l2 : list A) : Py.len (l1 ++ l2) = Py.len l1 + Py.len l2.
Proof. unfold Py.len. rewrite length_app. lia. Qed.

Lemma len_replicate (x : A) (n : Z) : 0 <= n -> Py.len (Py.replicate x n) = n.
Proof.
  intros Hn. unfold Py.len, Py.replicate. rewrite repeat_length. lia.
Qed.

Lemma last_item_none (l : list A) : Py.last_item l = None <-> l = [].
Proof.
  split.
  - induction l as [|x [|y l'] IH]; simpl; intros H; try congruence.
    specialize (IH H). discriminate.
  - intros ->. reflexivity.
Qed.

Lemma last_item_some (l : list A) :
  l <> [] -> exists x, Py.last_item l = Some x.
Proof.
  intros Hne. destruct (Py.last_item l) as [x|] eqn:E.
  - now exists x.
  - apply last_item_none in E. contradiction.
Qed.

(** A slice that lies inside the list is the plain sub-list. *)
Lemma slice_inside (l : list A) (s n : Z) :
  0 <= s -> 0 <= n -> s + n <= Py.len l ->
  Py.slice l s (s + n) = firstn (Z.to_nat n) (skipn (Z.to_nat s) l).
Proof.
  intros Hs Hn Hfit. unfold Py.slice, Py.clip.
  destruct (Z.ltb_spec s 0); [lia|].
  destruct (Z.ltb_spec (s + n) 0); [lia|].
  rewrite !Z.min_l by lia.
  replace (s + n - s) with n by lia. reflexivity.
Qed.

Lemma slice_inside_len (l : list A) (s n : Z) :
  0 <= s -> 0 <= n -> s + n <= Py.len l ->
  Py.len (Py.slice l s (s + n)) = n.
Proof.
  intros Hs Hn Hfit. rewrite slice_inside by assumption.
  unfold Py.len in *. rewrite length_firstn, length_skipn. lia.
Qed.

Lemma slice_inside_nth (l : list A) (s n j : Z) :
  0 <= s -> s + n <= Py.len l -> 0 <= j < n ->
  nth_error (Py.slice l s (s + n)) (Z.to_nat j) = nth_error l (Z.to_nat (s + j)).
Proof.
  intros Hs Hfit Hj. rewrite slice_inside by lia.
  rewrite nth_error_firstn.
  destruct (Nat.ltb_spec (Z.to_nat j) (Z.to_nat n)); [|lia].
  rewrite nth_error_skipn. f_equal. lia.
Qed.

End PyFacts.

Lemma range_length (n : Z) : List.length (Py.range n) = Z.to_nat n.
Proof. unfold Py.range. now rewrite length_map, length_seq. Qed.

Lemma range_nth (n i : Z) :
  0 <= i < n -> nth_error (Py.range n) (Z.to_nat i) = Some i.
Proof.
  intros Hi. unfold Py.range. rewrite nth_error_map, nth_error_seq.
  destruct (Nat.ltb_spec (Z.to_nat i) (Z.to_nat n)); [|lia].
  simpl. f_equal. lia.
Qed.

(** The rounded quotient is within one half of the true quotient. *)
Lemma round_div_near (a b : Z) :
  0 < b ->
  2 * b * Py.round_div a b - b <= 2 * a <= 2 * b * Py.round_div a b + b.
Proof.
  intros Hb. unfold Py.round_div.
  pose proof (Z.div_mod a b ltac:(lia)) as Hdm.
  pose proof (Z.mod_pos_bound a b Hb) as Hr.
  destruct (Z.ltb_spec (2 * (a mod b)) b).
  - nia.
  - destruct (Z.ltb_spec b (2 * (a mod b))).
    + nia.
    + destruct (Z.even (a / b)); nia.
Qed.

Lemma round_div_mono (a a' b : Z) :
  0 < b -> a <= a' -> Py.round_div a b <= Py.round_div a' b.
Proof.
  intros Hb Hle.
  destruct (Z.eq_dec a a') as [->|Hne]; [lia|].
  pose proof (round_div_near a b Hb).
  pose proof (round_div_near a' b Hb).
  destruct (Z_le_gt_dec (Py.round_div a b) (Py.round_div a' b)); [assumption|].
  exfalso. nia.
Qed.

Lemma round_div_exact (k b : Z) : 0 < b -> Py.round_div (k * b) b = k.
Proof.
  intros Hb. unfold Py.round_div.
  rewrite Z.mod_mul, Z.div_mul by lia.
  destruct (Z.ltb_spec (2 * 0) b); [reflexivity|lia].
Qed.

Lemma round_div_nonneg (a b : Z) : 0 < b -> 0 <= a -> 0 <= Py.round_div a b.
Proof.
  intros Hb Ha.
  replace 0 with (Py.round_div (0 * b) b) at 1 by (apply round_div_exact; lia).
  apply round_div_mono; lia.
Qed.

(** ** Frame sampler *)

Section WindowFacts.

Context {frame : Type}.

Lemma window_at_inside (frames : list frame) (fc s : Z) :
  0 <= s -> 0 <= fc -> s + fc <= Py.len frames ->
  window_at frames fc s = Py.slice frames s (s + fc).
Proof.
  intros Hs Hfc Hfit. unfold window_at.
  rewrite (slice_inside_len frames s fc Hs Hfc Hfit).
  rewrite Z.ltb_irrefl. now destruct (Py.last_item _).
Qed.

(** The branch taken for a long clip and more than one window. *)
Lemma start_indices_spread (total fc sc : Z) :
  fc < total -> 1 < sc ->
  start_indices total fc sc =
  map (fun i => Py.round_div (i * (total - fc)) (sc - 1)) (Py.range sc).
Proof.
  intros Htot Hsc. unfold start_indices.
  destruct (Z.leb_spec sc 1); [lia|].
  destruct (Z.leb_spec total fc); [lia|]. simpl.
  rewrite Z.max_l by lia.
  destruct (Z.eqb_spec sc 1); [lia|].
  destruct (Z.eqb_spec (total - fc) 0); [lia|]. reflexivity.
Qed.

Lemma sample_windows_long (frames : list frame) (fc sc : Z) :
  0 <= fc -> fc < Py.len frames -> 1 < sc ->
  sample_windows frames fc sc =
  map (fun i => Py.slice frames (Py.round_div (i * (Py.len frames - fc)) (sc - 1))
                         (Py.round_div (i * (Py.len frames - fc)) (sc - 1) + fc))
      (Py.range sc).
Proof.
  intros Hfc Hlong Hsc. unfold sample_windows.
  destruct (Py.last_item frames) as [x|] eqn:E.
  2:{ apply last_item_none in E. subst frames. unfold Py.len in Hlong.
      simpl in Hlong. lia. }
  unfold pad_frames.
  destruct (Z.ltb_spec (Py.len frames) fc); [lia|].
  rewrite start_indices_spread by assumption.
  rewrite map_map. apply map_ext_in.
  intros i Hi. unfold Py.range in Hi. apply in_map_iff in Hi.
  destruct Hi as [k [<- Hk]]. apply in_seq in Hk.
  assert (Hi : 0 <= Z.of_nat k <= sc - 1) by lia.
  set (m := Py.len frames - fc) in *.
  assert (Hup : Py.round_div (Z.of_nat k * m) (sc - 1) <= m).
  { replace m with (Py.round_div (m * (sc - 1)) (sc - 1)) at 2
      by (apply round_div_exact; lia).
    apply round_div_mono; [lia|]. subst m. nia. }
  assert (Hlo : 0 <= Py.round_div (Z.of_nat k * m) (sc - 1)).
  { apply round_div_nonneg; [lia|]. subst m. nia. }
  apply window_at_inside; subst m; lia.
Qed.

End WindowFacts.

Section SamplerFacts.

Context {frame : Type}.
Variable env : Env frame.

(** What the sampler returns once the capture has opened and the frames
    were converted. *)
Lemma load_video_frame_sequences_decoded
    (video_path : path) (frames : list frame) (fc sc : Z) (w : World) :
  cv2_available env = true ->
  decode env video_path = Some frames ->
  raises env cls_convert_frames = false ->
  load_video_frame_sequences env video_path fc sc w =
  (Return (sample_windows (map (convert env) frames) fc sc), w).
Proof.
  intros Hcv Hdec Hok. unfold load_video_frame_sequences.
  rewrite Hcv, Hdec. simpl.
  destruct frames as [|f frames']; [reflexivity|].
  unfold bind, try_finally, call, ret. rewrite Hok. reflexivity.
Qed.

(** C4.  For every decoded frame list with more than [frame_count] frames
    and more than one window asked for, the frame sampler returns exactly
    [window_count] windows; window [i] is the [frame_count] consecutive
    frames from index [round(i * max_start / (window_count - 1))] on, with
    [max_start = total_frames - frame_count]; the start indices are
    non-decreasing, the first is [0] and the last is [max_start]. *)
Theorem sampler_evenly_spaced_windows
    (video_path : path) (frames : list frame)
    (frame_count window_count : Z) (w : World) :
  cv2_available env = true ->
  decode env video_path = Some frames ->
  raises env cls_convert_frames = false ->
  0 <= frame_count ->
  frame_count < Py.len frames ->
  1 < window_count ->
  let total_frames := Py.len frames in
  let max_start := total_frames - frame_count in
  let start := fun i => Py.round_div (i * max_start) (window_count - 1) in
  exists windows : list (list frame),
    load_video_frame_sequences env video_path frame_count window_count w
      = (Return windows, w) /\
    Py.len windows = window_count /\
    (forall i, 0 <= i < window_count ->
       exists win,
         nth_error windows (Z.to_nat i) = Some win /\
         Py.len win = frame_count /\
         forall j, 0 <= j < frame_count ->
           nth_error win (Z.to_nat j)
           = nth_error (map (convert env) frames) (Z.to_nat (start i + j))) /\
    start 0 = 0 /\
    start (window_count - 1) = max_start /\
    (forall i j, 0 <= i -> i <= j -> j < window_count -> start i <= start j).
Proof.
  intros Hcv Hdec Hok Hfc Hlong Hsc total_frames max_start start.
  set (processed := map (convert env) frames).
  assert (Hlen : Py.len processed = total_frames).
  { unfold processed, total_frames, Py.len. now rewrite length_map. }
  assert (Hm : 0 < max_start) by (unfold max_start, total_frames; lia).
  assert (Hend : start (window_count - 1) = max_start).
  { unfold start. rewrite Z.mul_comm. apply round_div_exact. lia. }
  assert (Hmono : forall i j, 0 <= i -> i <= j -> j < window_count ->
                              start i <= start j).
  { intros i j Hi Hij Hj. unfold start. apply round_div_mono; [lia|nia]. }
  assert (Hzero : start 0 = 0).
  { unfold start. rewrite Z.mul_0_l. apply (round_div_exact 0). lia. }
  exists (sample_windows processed frame_count window_count).
  split; [now apply load_video_frame_sequences_decoded|].
  rewrite sample_windows_long by lia. rewrite Hlen.
  fold max_start. split; [|split; [|auto]].
  - unfold Py.len. rewrite length_map, range_length. lia.
  - intros i Hi.
    exists (Py.slice processed (start i) (start i + frame_count)).
    assert (Hlo : 0 <= start i) by (rewrite <- Hzero; apply Hmono; lia).
    assert (Hhi : start i <= max_start)
      by (rewrite <- Hend; apply Hmono; lia).
    split; [|split].
    + rewrite nth_error_map, (range_nth window_count i Hi). reflexivity.
    + apply slice_inside_len; unfold max_start in *; lia.
    + intros j Hj. apply slice_inside_nth; unfold max_start in *; lia.
Qed.

(** C5.  For every decoded clip that has at least one frame and fewer than
    [frame_count], the frame sampler returns exactly one window, which
    starts at index 0, has exactly [frame_count] frames, repeats the clip
    in its first [total_frames] positions and holds the clip's last frame
    in all the others. *)
Theorem sampler_pads_short_clip
    (video_path : path) (frames : list frame)
    (frame_count window_count : Z) (w : World) :
  cv2_available env = true ->
  decode env video_path = Some frames ->
  raises env cls_convert_frames = false ->
  0 < Py.len frames ->
  Py.len frames < frame_count ->
  exists (win : list frame) (last_frame : frame),
    load_video_frame_sequences env video_path frame_count window_count w
      = (Return [win], w) /\
    Py.last_item (map (convert env) frames) = Some last_frame /\
    Py.len win = frame_count /\
    (forall j, 0 <= j < Py.len frames ->
       nth_error win (Z.to_nat j)
       = nth_error (map (convert env) frames) (Z.to_nat (0 + j))) /\
    (forall j, Py.len frames <= j < frame_count ->
       nth_error win (Z.to_nat j) = Some last_frame).
Proof.
  intros Hcv Hdec Hok Hpos Hshort.
  set (processed := map (convert env) frames).
  assert (Hlen : Py.len processed = Py.len frames).
  { unfold processed, Py.len. now rewrite length_map. }
  destruct (last_item_some processed) as [x Hx].
  { intros E. rewrite E in Hlen. unfold Py.len in Hlen, Hpos.
    simpl in Hlen. lia. }
  set (padded := processed ++ Py.replicate x (frame_count - Py.len processed)).
  assert (Hpl : Py.len padded = frame_count).
  { unfold padded. rewrite len_app, len_replicate; lia. }
  exists padded, x.
  split; [|split; [exact Hx|split; [exact Hpl|split]]].
  - rewrite (load_video_frame_sequences_decoded _ frames) by assumption.
    fold processed. unfold sample_windows. rewrite Hx.
    unfold pad_frames.
    destruct (Z.ltb_spec (Py.len processed) frame_count); [|lia].
    fold padded. rewrite Hpl. unfold start_indices.
    destruct (Z.leb_spec frame_count frame_count); [|lia].
    rewrite orb_true_r. simpl map.
    rewrite window_at_inside by lia.
    replace (0 + frame_count) with (0 + Py.len padded) by lia.
    rewrite slice_inside by (rewrite ?Hpl; lia).
    simpl skipn. rewrite firstn_all2; [reflexivity|].
    unfold Py.len. lia.
  - intros j Hj. unfold padded. rewrite nth_error_app1; [reflexivity|].
    unfold Py.len in *. simpl. lia.
  - intros j Hj. unfold padded. rewrite nth_error_app2.
    2:{ unfold Py.len in *. lia. }
    unfold Py.replicate. rewrite nth_error_repeat; [reflexivity|].
    unfold Py.len in *. lia.
Qed.

End SamplerFacts.

(** ** Reasoning about effectful code *)

Lemma call_cases {frame : Type} (env : Env frame) (c : ext_call) (w : World) :
  (raises env c = false /\ call env c w = (Return tt, w)) \/
  (raises env c = true /\ call env c w = (Raise call_failed, w)).
Proof.
  unfold call. destruct (raises env c); [right|left]; auto.
Qed.

(** Computations that keep a reflexive and transitive relation between the
    world before and the world after. *)
Section Respects.

Variable R : World -> World -> Prop.
Hypothesis R_refl : forall w, R w w.
Hypothesis R_trans : forall a b c, R a b -> R b c -> R a c.

Lemma respects_ret {A : Type} (a : A) : respects R (ret a).
Proof. intros w r w' H. inversion H. apply R_refl. Qed.

Lemma respects_raise {A : Type} (e : exn) : respects R (@raise A e).
Proof. intros w r w' H. inversion H. apply R_refl. Qed.

Lemma respects_get_world : respects R get_world.
Proof. intros w r w' H. inversion H. apply R_refl. Qed.

Lemma respects_bind {A B : Type} (m : M A) (k : A -> M B) :
  respects R m -> (forall a, respects R (k a)) -> respects R (bind m k).
Proof.
  intros Hm Hk w r w' H. unfold bind in H.
  destruct (m w) as [[a|e] w1] eqn:E.
  - eapply R_trans; [eapply Hm; eauto | eapply Hk; eauto].
  - inversion H; subst. eapply Hm; eauto.
Qed.

Lemma respects_try_except {A : Type} (m : M A) (h : exn -> M A) :
  respects R m -> (forall e, respects R (h e)) -> respects R (try_except m h).
Proof.
  intros Hm Hh w r w' H. unfold try_except in H.
  destruct (m w) as [[a|e] w1] eqn:E.
  - inversion H; subst. eapply Hm; eauto.
  - eapply R_trans; [eapply Hm; eauto | eapply Hh; eauto].
Qed.

Lemma respects_try_finally {A : Type} (m : M A) (f : M unit) :
  respects R m -> respects R f -> respects R (try_finally m f).
Proof.
  intros Hm Hf w r w' H. unfold try_finally in H.
  destruct (m w) as [r1 w1] eqn:E.
  destruct (f w1) as [[u|e] w2] eqn:E2; inversion H; subst;
    (eapply R_trans; [eapply Hm; eauto | eapply Hf; eauto]).
Qed.

Lemma respects_call {frame : Type} (env : Env frame) (c : ext_call) :
  respects R (call env c).
Proof.
  intros w r w' H. unfold call in H.
  destruct (raises env c); inversion H; apply R_refl.
Qed.

Lemma respects_modify (f : World -> World) :
  (forall w, R w (f w)) -> respects R (modify f).
Proof. intros Hf w r w' H. inversion H. apply Hf. Qed.

End Respects.

Lemma trace_grows_refl (w : World) : trace_grows w w.
Proof. now exists []. Qed.

Lemma trace_grows_trans (a b c : World) :
  trace_grows a b -> trace_grows b c -> trace_grows a c.
Proof.
  intros [n1 H1] [n2 H2]. exists (n2 ++ n1).
  rewrite H2, H1. now rewrite app_assoc.
Qed.

Lemma trace_grows_In (w w' : World) (e : event) :
  trace_grows w w' -> In e (trace w) -> In e (trace w').
Proof. intros [new H] Hin. rewrite H. apply in_or_app. now right. Qed.

(** ** Classification stage *)

Lemma list_max_spec (probs : list Q) (m : Q) :
  list_max probs = Some m ->
  In m probs /\ forall p, In p probs -> (p <= m)%Q.
Proof.
  revert m. induction probs as [|x l IH]; simpl; intros m H; [discriminate|].
  destruct (list_max l) as [m'|] eqn:E.
  - destruct (IH m' eq_refl) as [Hin Hmax].
    destruct (Qle_bool m' x) eqn:Hc; inversion H; subst m.
    + apply Qle_bool_iff in Hc. split; [now left|].
      intros p [Heq|Hp]; [subst p; apply Qle_refl|].
      eapply Qle_trans; [apply Hmax, Hp | exact Hc].
    + split; [now right|].
      intros p [Heq|Hp]; [subst p|now apply Hmax].
      destruct (Qlt_le_dec x m') as [Hlt|Hle]; [now apply Qlt_le_weak|].
      apply Qle_bool_iff in Hle. congruence.
  - inversion H; subst m.
    destruct l; [|simpl in E; destruct (list_max l); discriminate].
    split; [now left|]. intros p [Heq|[]]. subst p. apply Qle_refl.
Qed.

Lemma contains_In (x : string) (l : list string) :
  Py.contains x l = true <-> In x l.
Proof.
  unfold Py.contains. rewrite existsb_exists. split.
  - intros [y [Hin Heq]]. apply String.eqb_eq in Heq. now subst.
  - intros Hin. exists x. split; [assumption|apply String.eqb_refl].
Qed.

Lemma index_first (x : string) (l : list string) (k : nat) :
  Py.index x l = Some k <->
  nth_error l k = Some x /\ forall j, (j < k)%nat -> nth_error l j <> Some x.
Proof.
  revert k. induction l as [|y l IH]; intros k; simpl.
  - split; [discriminate|]. intros [H _]. destruct k; discriminate.
  - destruct (String.eqb_spec x y) as [->|Hne].
    + split.
      * intros H. inversion H; subst. split; [reflexivity|]. intros j Hj. lia.
      * intros [Hk Hfirst]. destruct k; [reflexivity|].
        exfalso. apply (Hfirst 0%nat); [lia|reflexivity].
    + split.
      * intros H. destruct (Py.index x l) as [k'|] eqn:E; [|discriminate].
        inversion H; subst k. destruct (proj1 (IH k') eq_refl) as [Hk Hfirst].
        split; [exact Hk|]. intros [|j] Hj; simpl.
        -- congruence.
        -- apply Hfirst. lia.
      * intros [Hk Hfirst]. destruct k as [|k]; simpl in Hk; [congruence|].
        rewrite (proj2 (IH k)); [reflexivity|].
        split; [exact Hk|]. intros j Hj. apply (Hfirst (S j)). lia.
Qed.

Section ClassificationFacts.

Context {frame : Type}.
Variable env : Env frame.

Lemma list_max_some (x : Q) (l : list Q) :
  exists m, list_max (x :: l) = Some m.
Proof.
  simpl. destruct (list_max l) as [m|]; eauto.
Qed.

(** What the code reads off the row of a window is a score of the window
    in the sense of the specification. *)
Lemma window_score_sound (win : list frame) (probs : list Q) (s : Q) :
  softmax_probs env win = Some probs ->
  window_score env probs = Some s ->
  is_window_score env win s.
Proof.
  unfold is_window_score, window_score. intros Hp Hs.
  exists probs. split; [exact Hp|].
  destruct (Py.contains "real" (VIDEO_CLASS_NAMES env)) eqn:Hc.
  - left. destruct (Py.index "real" (VIDEO_CLASS_NAMES env)) as [k|] eqn:E;
      [|discriminate].
    apply index_first in E. destruct E as [Hk Hfirst]. now exists k.
  - right. destruct (list_max_spec probs s Hs) as [Hin Hmax].
    repeat split; auto.
    intros Hin'. apply contains_In in Hin'. congruence.
Qed.

(** And a window that has a score is one the code finds a score for, the
    same number. *)
Lemma window_score_complete (win : list frame) (s : Q) :
  is_window_score env win s ->
  exists probs s',
    softmax_probs env win = Some probs /\
    window_score env probs = Some s' /\ (s == s')%Q.
Proof.
  unfold is_window_score, window_score. intros [probs [Hp Hs]].
  exists probs.
  destruct Hs as [[k [Hk [Hfirst Hnth]]] | [Hnot [Hin Hmax]]].
  - exists s. split; [exact Hp|]. split; [|reflexivity].
    assert (Hc : Py.contains "real" (VIDEO_CLASS_NAMES env) = true).
    { apply contains_In. eapply nth_error_In; eauto. }
    rewrite Hc. rewrite (proj2 (index_first _ _ k)); auto.
  - destruct (Py.contains "real" (VIDEO_CLASS_NAMES env)) eqn:Hc.
    { apply contains_In in Hc. contradiction. }
    destruct probs as [|x l]; [contradiction|].
    destruct (list_max_some x l) as [m Hm].
    exists m. split; [exact Hp|]. split; [exact Hm|].
    destruct (list_max_spec _ _ Hm) as [Hin' Hmax'].
    apply Qle_antisym; auto.
Qed.

Lemma is_window_score_unique (win : list frame) (s s' : Q) :
  is_window_score env win s -> is_window_score env win s' -> (s == s')%Q.
Proof.
  intros H H'.
  destruct (window_score_complete _ _ H) as [p [c [Hp [Hc Hs]]]].
  destruct (window_score_complete _ _ H') as [p' [c' [Hp' [Hc' Hs']]]].
  assert (c = c') by congruence. subst c'.
  rewrite Hs, Hs'. reflexivity.
Qed.

Lemma is_window_score_unit (win : list frame) (s : Q) :
  yields_probabilities env -> is_window_score env win s ->
  (0 <= s)%Q /\ (s <= 1)%Q.
Proof.
  intros Hy [probs [Hp Hs]]. specialize (Hy win probs Hp).
  rewrite Forall_forall in Hy. apply Hy.
  destruct Hs as [[k [_ [_ Hnth]]] | [_ [Hin _]]]; [|exact Hin].
  eapply nth_error_In; eauto.
Qed.

(** The loop succeeds exactly when every usable window has a score, and then
    it has collected those scores in order. *)
Lemma score_windows_returns (windows : list (list frame)) :
  forall (acc out : list Q) (w w' : World),
    score_windows env windows acc w = (Return out, w') ->
    exists scores,
      out = acc ++ scores /\
      Forall2 (is_window_score env) (usable windows) scores.
Proof.
  induction windows as [|win rest IH]; intros acc out w w' H; simpl in H.
  - inversion H; subst. exists []. rewrite app_nil_r. split; constructor.
  - destruct win as [|f win'].
    + simpl. eapply IH; eauto.
    + unfold bind at 1 in H. unfold score_window in H.
      unfold bind at 1 in H. simpl in H.
      destruct (softmax_probs env (f :: win')) as [probs|] eqn:Hp;
        [|discriminate].
      destruct (window_score env probs) as [s|] eqn:Hs; [|discriminate].
      simpl in H. apply IH in H. destruct H as [scores [-> Hall]].
      exists (s :: scores). rewrite <- app_assoc. split; [reflexivity|].
      simpl. constructor; [|exact Hall].
      eapply window_score_sound; eauto.
Qed.

Lemma score_windows_scored (windows : list (list frame)) :
  forall (scores acc : list Q) (w : World),
    Forall2 (is_window_score env) (usable windows) scores ->
    exists found w',
      score_windows env windows acc w = (Return (acc ++ found), w') /\
      Forall2 Qeq scores found.
Proof.
  induction windows as [|win rest IH]; intros scores acc w Hall; simpl in *.
  - inversion Hall; subst. exists [], w. rewrite app_nil_r.
    split; [reflexivity|constructor].
  - destruct win as [|f win'].
    + now apply IH.
    + inversion Hall as [|? s ? scores' Hs Hrest]; subst.
      apply window_score_complete in Hs.
      destruct Hs as [probs [s' [Hp [Hs Heq]]]].
      unfold bind at 1. unfold score_window. unfold bind at 1. simpl.
      rewrite Hp, Hs. simpl.
      destruct (IH scores' (acc ++ [s'])
                   (set_trace (EvInference :: trace w) w) Hrest)
        as [found [w' [Hw' Hq]]].
      exists (s' :: found), w'. rewrite Hw'. rewrite <- app_assoc.
      split; [reflexivity|]. now constructor.
Qed.

(** The mean of scores that are probabilities is a probability. *)
Lemma fold_sum_bounds (l : list Q) :
  Forall (fun s => (0 <= s)%Q /\ (s <= 1)%Q) l ->
  forall a : Q,
    (a <= fold_left Qplus l a)%Q /\
    (fold_left Qplus l a <= a + inject_Z (Py.len l))%Q.
Proof.
  induction 1 as [|x l [Hx0 Hx1] _ IH]; intros a; simpl.
  - unfold Py.len. simpl. split; [apply Qle_refl|].
    rewrite Qplus_0_r. apply Qle_refl.
  - destruct (IH (a + x)%Q) as [Hlo Hhi]. split.
    + eapply Qle_trans; [|exact Hlo].
      rewrite <- (Qplus_0_r a) at 1. apply Qplus_le_compat; [apply Qle_refl|exact Hx0].
    + eapply Qle_trans; [exact Hhi|].
      unfold Py.len. simpl List.length. rewrite Nat2Z.inj_succ.
      unfold Z.succ. rewrite inject_Z_plus.
      setoid_replace (a + (inject_Z (Z.of_nat (List.length l)) + inject_Z 1))%Q
        with ((a + 1) + inject_Z (Z.of_nat (List.length l)))%Q by ring.
      apply Qplus_le_compat; [|apply Qle_refl].
      apply Qplus_le_compat; [apply Qle_refl|exact Hx1].
Qed.

Lemma mean_unit (scores : list Q) :
  scores <> [] ->
  Forall (fun s => (0 <= s)%Q /\ (s <= 1)%Q) scores ->
  (0 <= mean scores)%Q /\ (mean scores <= 1)%Q.
Proof.
  intros Hne Hall. destruct (fold_sum_bounds scores Hall 0) as [Hlo Hhi].
  assert (Hn : (0 < inject_Z (Py.len scores))%Q).
  { unfold Py.len. destruct scores; [congruence|].
    rewrite <- (Zlt_Qlt 0). simpl List.length. lia. }
  unfold mean. split.
  - apply Qle_shift_div_l; [exact Hn|]. now rewrite Qmult_0_l.
  - apply Qle_shift_div_r; [exact Hn|].
    rewrite Qmult_1_l. now rewrite Qplus_0_l in Hhi.
Qed.

Lemma fold_left_Qplus (l : list Q) :
  forall a : Q, (fold_left Qplus l a == a + fold_right Qplus 0 l)%Q.
Proof.
  induction l as [|x l IH]; intros a; simpl.
  - now rewrite Qplus_0_r.
  - rewrite IH. now rewrite Qplus_assoc.
Qed.

Lemma Qeq_sums (l1 l2 : list Q) :
  Forall2 Qeq l1 l2 ->
  (fold_right Qplus 0 l1 == fold_right Qplus 0 l2)%Q.
Proof.
  induction 1 as [|x y l1 l2 Hxy _ IH]; simpl; [reflexivity|].
  now rewrite Hxy, IH.
Qed.

(** What the code computes from a list of scores is their arithmetic mean,
    and the arithmetic mean of any list of the same scores. *)
Lemma mean_is_arithmetic_mean (found scores : list Q) :
  found <> [] -> Forall2 Qeq scores found ->
  is_arithmetic_mean (mean found) scores.
Proof.
  intros Hne Hq. split.
  { intros ->. inversion Hq. congruence. }
  rewrite (Forall2_length Hq), (Qeq_sums _ _ Hq).
  unfold mean, Py.len. rewrite fold_left_Qplus, Qplus_0_l.
  rewrite Qmult_comm. apply Qmult_div_r.
  destruct found; [congruence|].
  simpl List.length. rewrite Nat2Z.inj_succ.
  intros H. unfold Qeq in H. simpl in H. lia.
Qed.

End ClassificationFacts.

Section ClassificationStage.

Context {frame : Type}.
Variable env : Env frame.

Lemma load_outcome (video_path : path) (fc sc : Z) (w : World)
    (out : outcome (list (list frame))) (w' : World) :
  load_video_frame_sequences env video_path fc sc w = (out, w') ->
  w' = w /\ (forall e, out = Raise e -> raises env cls_convert_frames = true).
Proof.
  unfold load_video_frame_sequences. intros H.
  destruct (cv2_available env); simpl in H.
  2:{ inversion H; subst. split; [reflexivity|discriminate]. }
  destruct (decode env video_path) as [frames|].
  2:{ inversion H; subst. split; [reflexivity|discriminate]. }
  destruct frames as [|f frames'].
  - inversion H; subst. split; [reflexivity|discriminate].
  - unfold bind, try_finally, call, ret in H.
    destruct (raises env cls_convert_frames); inversion H; subst;
      split; try reflexivity; try discriminate. 
Qed.

Lemma Forall2_score_unique (wins : list (list frame)) (s1 s2 : list Q) :
  Forall2 (is_window_score env) wins s1 ->
  Forall2 (is_window_score env) wins s2 -> Forall2 Qeq s1 s2.
Proof.
  intros H1. revert s2. induction H1 as [|win s wins' s1' Hs _ IH];
    intros s2 H2; inversion H2; subst; constructor.
  - eapply is_window_score_unique; eauto.
  - now apply IH.
Qed.

Lemma Forall2_score_unit (wins : list (list frame)) (scores : list Q) :
  yields_probabilities env ->
  Forall2 (is_window_score env) wins scores ->
  Forall (fun s => (0 <= s)%Q /\ (s <= 1)%Q) scores.
Proof.
  intros Hy H. induction H; constructor; auto.
  eapply is_window_score_unit; eauto.
Qed.

Lemma unavailable_flags (w : World) :
  TRANSFORMERS_AVAILABLE env = false \/ torch_available env = false ->
  backend_unavailable env w.
Proof.
  intros H. unfold backend_unavailable, get_video_classifier_components.
  destruct H as [-> | ->]; simpl; rewrite ?orb_true_r; simpl;
    unfold raise; eauto.
Qed.


(** C9.  For every video path whose capture does not open or delivers no
    frame, the frame sampler returns the empty list of windows, and
    [classify_segmented_video] returns reward 0 having done nothing but
    record that it was entered: no model is loaded and no inference runs. *)
Theorem unreadable_video_scores_zero (video_path : path) (w : World) :
  decode env video_path = None \/ decode env video_path = Some [] ->
  (forall frame_count sequence_count,
     load_video_frame_sequences env video_path frame_count sequence_count w
     = (Return [], w)) /\
  classify_segmented_video env video_path w
  = (Return 0%Q, entered video_path w) /\
  trace (entered video_path w) = EvClassify video_path :: trace w /\
  video_classifier (entered video_path w) = video_classifier w /\
  next_handle (entered video_path w) = next_handle w.
Proof.
  intros Hdec.
  assert (Hload : forall fc sc w0,
            load_video_frame_sequences env video_path fc sc w0
            = (Return [], w0)).
  { intros fc sc w0. unfold load_video_frame_sequences.
    destruct (cv2_available env); [|reflexivity]. simpl.
    destruct Hdec as [-> | ->]; reflexivity. }
  split; [intros; apply Hload|]. split; [|repeat split].
  unfold classify_segmented_video. unfold bind at 1. unfold emit, modify.
  fold (entered video_path w).
  destruct (negb (TRANSFORMERS_AVAILABLE env) || negb (torch_available env));
    [reflexivity|].
  unfold bind. rewrite Hload. reflexivity.
Qed.

End ClassificationStage.

(** ** Temporary files *)

Lemma listed_create (p q : path) (f : list (path * Z)) :
  listed q (fs_create p f) = Nat.eqb p q || listed q f.
Proof. reflexivity. Qed.

Lemma listed_append (p q : path) (n : Z) (f : list (path * Z)) :
  listed q (fs_append p n f) = listed q f.
Proof.
  unfold listed, fs_append. induction f as [|e f IH]; simpl; [reflexivity|].
  rewrite IH. now destruct (Nat.eqb _ p).
Qed.

Lemma listed_remove (p q : path) (f : list (path * Z)) :
  listed q (fs_remove p f) = negb (Nat.eqb q p) && listed q f.
Proof.
  unfold listed, fs_remove. induction f as [|e f IH]; simpl.
  - now rewrite andb_false_r.
  - destruct e as [a n]. simpl.
    destruct (Nat.eqb_spec a p) as [Hp|Hp]; simpl; rewrite IH;
      destruct (Nat.eqb_spec a q), (Nat.eqb_spec q p);
      simpl; try reflexivity; congruence.
Qed.

Lemma size_in_append (p : path) (n : Z) (f : list (path * Z)) :
  listed p f = true -> size_in p (fs_append p n f) = size_in p f + n.
Proof.
  unfold listed, size_in, fs_append.
  induction f as [|[a m] f IH]; simpl; [discriminate|].
  destruct (Nat.eqb a p) eqn:E; simpl.
  - rewrite E. reflexivity.
  - rewrite E. exact IH.
Qed.

(** ** Ingestion *)

Section Ingestion.

Context {frame : Type}.
Variable env : Env frame.

#[local] Ltac settle :=
  repeat split; auto; try lia; try discriminate;
  try (intros ? E; inversion E; subst; auto; lia);
  try (intros E; exfalso; lia).

Lemma receive_bounded (tmp : path) (reads : list read_result) :
  Forall within_chunk reads ->
  forall (total : Z) (w : World) (out : outcome Z) (w' : World),
    exists_on_disk tmp w = true ->
    size_on_disk tmp w = total ->
    total <= MAX_FILE_SIZE ->
    receive env tmp reads total w = (out, w') ->
    exists_on_disk tmp w' = true /\
    size_on_disk tmp w' <= MAX_FILE_SIZE + CHUNK_SIZE /\
    (too_large out <-> MAX_FILE_SIZE < size_on_disk tmp w') /\
    (too_large out ->
       exists n, In (Chunk n) reads /\ size_on_disk tmp w' - n <= MAX_FILE_SIZE) /\
    (forall t, out = Return t -> t = size_on_disk tmp w').
Proof.
  assert (Hc : 0 <= CHUNK_SIZE) by (unfold CHUNK_SIZE; lia).
  unfold too_large.
  induction 1 as [|r reads Hr _ IH]; intros total w out w' Hex Hsz Hle H;
    simpl in H.
  - inversion H; subst. settle.
  - destruct r as [n| |]; [|inversion H; subst; settle..].
    destruct (Z.leb_spec n 0); [inversion H; subst; settle|].
    unfold bind at 1 in H. unfold tmp_write in H. unfold bind at 1 in H.
    destruct (call_cases env upload_write w) as [[_ E]|[_ E]];
      rewrite E in H; [|inversion H; subst; settle].
    unfold modify in H.
    set (w1 := set_fs (fs_append tmp n (fs w)) w) in H.
    assert (Hex1 : exists_on_disk tmp w1 = true).
    { unfold exists_on_disk, w1. simpl. now rewrite listed_append. }
    assert (Hsz1 : size_on_disk tmp w1 = total + n).
    { unfold size_on_disk, w1. simpl. rewrite size_in_append by exact Hex.
      unfold size_on_disk in Hsz. lia. }
    simpl in Hr.
    destruct (Z.gtb_spec (total + n) MAX_FILE_SIZE).
    + inversion H; subst. rewrite Hsz1. settle.
      exists n. split; [now left|lia].
    + destruct (IH (total + n) w1 out w' Hex1 Hsz1 ltac:(lia) H)
        as [A [B [C [D E']]]].
      repeat split; auto; try apply C.
      intros T. destruct (D T) as [m [Hin Hm]]. exists m.
      split; [now right|exact Hm].
Qed.

(** C7.  An upload whose declared size (the [file_size] form field) is
    above the maximum of 100 MB is rejected with the client error 413;
    nothing but the clock was touched by then: no temporary file exists or
    was named, no stage ran, no model was loaded, and no score was logged. *)
Theorem oversize_declaration_rejected (req : Upload) (w : World) :
  MAX_FILE_SIZE < file_size req ->
  exists w',
    upload_video env req w = (Raise (HTTPException 413), w') /\
    400 <= 413 < 500 /\
    fs w' = fs w /\ next_tmp w' = next_tmp w /\
    trace w' = trace w /\ score_log w' = score_log w /\
    next_handle w' = next_handle w.
Proof.
  intros Hbig. exists (set_ticks (S (ticks w)) w).
  split; [|repeat split; lia].
  unfold upload_video, upload_video_with, try_except.
  unfold bind at 1. unfold time_time at 1.
  destruct (Z.gtb_spec (file_size req) MAX_FILE_SIZE); [reflexivity|lia].
Qed.

End Ingestion.

(** ** Masks, motion score and score log *)

Module MaskFacts.
Import Masks.

Lemma positions_In (keep : mask_data -> bool) (masks : list mask_data) :
  forall idx i,
    In i (positions keep masks idx) <->
    exists m, idx <= i /\ nth_error masks (Z.to_nat (i - idx)) = Some m /\
              keep m = true.
Proof.
  induction masks as [|m masks IH]; intros idx i; simpl.
  - split; [intros []|].
    intros [m [_ [E _]]]. destruct (Z.to_nat (i - idx)); discriminate.
  - assert (Hshift : idx + 1 <= i ->
              nth_error (m :: masks) (Z.to_nat (i - idx))
              = nth_error masks (Z.to_nat (i - (idx + 1)))).
    { intros Hi. replace (Z.to_nat (i - idx))
        with (S (Z.to_nat (i - (idx + 1)))) by lia. reflexivity. }
    assert (Hrest : In i (positions keep masks (idx + 1)) <->
              exists m', idx + 1 <= i /\
                nth_error (m :: masks) (Z.to_nat (i - idx)) = Some m' /\
                keep m' = true).
    { rewrite IH. split; intros [m' [Hi [E Hk]]]; exists m';
        (split; [exact Hi|]); rewrite Hshift in * by exact Hi; auto. }
    destruct (keep m) eqn:Hk; simpl; rewrite ?Hrest.
    + split.
      * intros [<-|[m' [Hi [E Hm]]]].
        -- exists m. rewrite Z.sub_diag. simpl. repeat split; auto. lia.
        -- exists m'. repeat split; auto. lia.
      * intros [m' [Hi [E Hm]]].
        destruct (Z.eq_dec idx i) as [->|Hne]; [now left|right].
        exists m'. repeat split; auto. lia.
    + split.
      * intros [m' [Hi [E Hm]]]. exists m'. repeat split; auto. lia.
      * intros [m' [Hi [E Hm]]].
        destruct (Z.eq_dec idx i) as [->|Hne].
        -- rewrite Z.sub_diag in E. simpl in E. congruence.
        -- exists m'. repeat split; auto. lia.
Qed.

Lemma positions_sorted (keep : mask_data -> bool) (masks : list mask_data) :
  forall idx, StronglySorted Z.lt (positions keep masks idx).
Proof.
  induction masks as [|m masks IH]; intros idx; simpl; [constructor|].
  destruct (keep m); [|apply IH].
  constructor; [apply IH|].
  apply Forall_forall. intros i Hi. apply positions_In in Hi.
  destruct Hi as [_ [Hi _]]. lia.
Qed.

Lemma positions_length (keep : mask_data -> bool) (masks : list mask_data) :
  forall idx,
    (List.length (positions keep masks idx)
     + List.length (positions (fun m => negb (keep m)) masks idx)
     = List.length masks)%nat.
Proof.
  induction masks as [|m masks IH]; intros idx; simpl; [reflexivity|].
  destruct (keep m); simpl; rewrite <- (IH (idx + 1)); lia.
Qed.

Section Areas.

Variables frame_width frame_height : Z.
Variable background_ratio : Q.

#[local] Abbreviation total_area := (frame_area frame_width frame_height).
#[local] Abbreviation is_bg :=
  (background frame_width frame_height background_ratio).

Lemma is_bg_iff (m : mask_data) :
  is_bg m = true <-> is_background frame_width frame_height background_ratio m.
Proof. unfold background, frame_area, is_background. apply Qle_bool_iff. Qed.

Lemma classify_loop_positions (masks : list mask_data) :
  forall idx b o,
    classify_loop masks idx total_area background_ratio b o
    = (b ++ positions is_bg masks idx,
       o ++ positions (fun m => negb (is_bg m)) masks idx).
Proof.
  induction masks as [|m masks IH]; intros idx b o; simpl.
  - now rewrite !app_nil_r.
  - fold (is_bg m). destruct (is_bg m); simpl; rewrite IH, <- app_assoc;
      reflexivity.
Qed.

(** X9. [classify_masks_by_area] puts the index of a mask into the background
    list exactly when the area of the mask (0 when it has none) divided by
    [max(frame_width * frame_height, 1)] is at least the ratio, and into
    the object list otherwise.  Both lists are strictly increasing and
    together they hold one index for every mask. *)
Theorem masks_split_by_area (masks : list mask_data) :
  let background_ids :=
    fst (classify_masks_by_area masks frame_width frame_height background_ratio) in
  let object_ids :=
    snd (classify_masks_by_area masks frame_width frame_height background_ratio) in
  (forall i, In i background_ids <->
     exists m, 0 <= i /\ nth_error masks (Z.to_nat i) = Some m /\
       is_background frame_width frame_height background_ratio m) /\
  (forall i, In i object_ids <->
     exists m, 0 <= i /\ nth_error masks (Z.to_nat i) = Some m /\
       ~ is_background frame_width frame_height background_ratio m) /\
  StronglySorted Z.lt background_ids /\
  StronglySorted Z.lt object_ids /\
  Py.len background_ids + Py.len object_ids = Py.len masks.
Proof.
  unfold classify_masks_by_area. fold total_area.
  rewrite classify_loop_positions. simpl.
  split; [|split; [|split; [|split]]].
  - intros i. rewrite positions_In, Z.sub_0_r.
    split; intros [m [A [B C]]]; exists m; repeat split; auto;
      now apply is_bg_iff.
  - intros i. rewrite positions_In, Z.sub_0_r.
    split; intros [m [A [B C]]]; exists m; repeat split; auto.
    + intros Hc. apply is_bg_iff in Hc. rewrite Hc in C. discriminate.
    + apply negb_true_iff. destruct (is_bg m) eqn:E; [|reflexivity].
      exfalso. apply C. now apply is_bg_iff.
  - apply positions_sorted.
  - apply positions_sorted.
  - unfold Py.len. rewrite <- (positions_length is_bg masks 0). lia.
Qed.


Lemma insert_by_area_length (m : mask_data) (l : list mask_data) :
  List.length (insert_by_area m l) = S (List.length l).
Proof.
  induction l as [|x l IH]; simpl; [reflexivity|].
  destruct (get_area x <=? get_area m); simpl; congruence.
Qed.

Lemma sorted_by_area_length (masks : list mask_data) :
  List.length (sorted_by_area masks) = List.length masks.
Proof.
  induction masks as [|m masks IH]; simpl; [reflexivity|].
  unfold sorted_by_area in *. simpl. now rewrite insert_by_area_length, IH.
Qed.

Lemma insert_by_area_In (m x : mask_data) (l : list mask_data) :
  In x (insert_by_area m l) <-> x = m \/ In x l.
Proof.
  induction l as [|y l IH]; simpl.
  - intuition.
  - destruct (get_area y <=? get_area m); simpl; [intuition|].
    rewrite IH. intuition.
Qed.

Lemma insert_by_area_sorted (m : mask_data) (l : list mask_data) :
  StronglySorted (fun x y => get_area y <= get_area x) l ->
  StronglySorted (fun x y => get_area y <= get_area x) (insert_by_area m l).
Proof.
  induction 1 as [|x l Hs IH Hx]; simpl.
  - repeat constructor.
  - destruct (Z.leb_spec (get_area x) (get_area m)).
    + constructor; [now constructor|].
      constructor; [lia|].
      eapply Forall_impl; [|exact Hx]. simpl. intros; lia.
    + constructor; [exact IH|].
      apply Forall_forall. intros y Hy. apply insert_by_area_In in Hy.
      destruct Hy as [->|Hy]; [lia|].
      rewrite Forall_forall in Hx. now apply Hx.
Qed.

Lemma sorted_by_area_sorted (masks : list mask_data) :
  StronglySorted (fun x y => get_area y <= get_area x) (sorted_by_area masks).
Proof.
  induction masks as [|m masks IH]; simpl; [constructor|].
  now apply insert_by_area_sorted.
Qed.

Lemma sorted_by_area_perm (masks : list mask_data) :
  Permutation masks (sorted_by_area masks).
Proof.
  induction masks as [|m masks IH]; simpl; [constructor|].
  assert (H : forall l, Permutation (m :: l) (insert_by_area m l)).
  { induction l as [|x l IHl]; simpl; [constructor; constructor|].
    destruct (get_area x <=? get_area m); [apply Permutation_refl|].
    eapply perm_trans; [apply perm_swap|]. now constructor. }
  eapply perm_trans; [|apply H]. now constructor.
Qed.

Lemma is_bg_mono (m m' : mask_data) :
  get_area m <= get_area m' -> is_bg m = true -> is_bg m' = true.
Proof.
  intros Hle. rewrite !is_bg_iff. unfold is_background. fold total_area.
  intros H. eapply Qle_trans; [exact H|].
  assert (Ht : 0 < total_area) by (unfold total_area; lia).
  unfold Qdiv. apply Qmult_le_compat_r.
  - rewrite <- Zle_Qle. exact Hle.
  - apply Qlt_le_weak. apply Qinv_lt_0_compat.
    replace 0%Q with (inject_Z 0) by reflexivity. rewrite <- Zlt_Qlt. exact Ht.
Qed.

Lemma positions_none (keep : mask_data -> bool) (l : list mask_data) :
  Forall (fun m => keep m = false) l ->
  forall idx, positions keep l idx = [].
Proof.
  induction 1 as [|m l Hm _ IH]; intros idx; simpl; [reflexivity|].
  rewrite Hm. apply IH.
Qed.

Lemma positions_all (keep : mask_data -> bool) (l : list mask_data) :
  Forall (fun m => keep m = true) l ->
  forall idx,
    positions keep l idx
    = map (fun i => idx + Z.of_nat i) (seq 0 (List.length l)).
Proof.
  induction 1 as [|m l Hm _ IH]; intros idx; simpl; [reflexivity|].
  rewrite Hm, IH. f_equal; [lia|].
  rewrite <- seq_shift, map_map. apply map_ext. intros; lia.
Qed.

Lemma positions_sorted_masks (l : list mask_data) :
  StronglySorted (fun x y => get_area y <= get_area x) l ->
  forall idx,
    exists k, (k <= List.length l)%nat /\
      positions is_bg l idx = map (fun i => idx + Z.of_nat i) (seq 0 k) /\
      positions (fun m => negb (is_bg m)) l idx
      = map (fun i => idx + Z.of_nat k + Z.of_nat i)
            (seq 0 (List.length l - k)).
Proof.
  induction 1 as [|m l Hs IH Hm]; intros idx.
  - exists 0%nat. simpl. auto.
  - simpl. destruct (is_bg m) eqn:Hb; simpl.
    + destruct (IH (idx + 1)) as [k [Hk [E1 E2]]].
      exists (S k). split; [lia|]. rewrite E1, E2. split.
      * simpl. f_equal; [lia|].
        rewrite <- seq_shift, map_map. apply map_ext. intros; lia.
      * simpl. apply map_ext. intros; lia.
    + assert (Hall : Forall (fun x => is_bg x = false) l).
      { eapply Forall_impl; [|exact Hm]. simpl. intros x Hx.
        destruct (is_bg x) eqn:Ex; [|reflexivity].
        rewrite (is_bg_mono x m Hx Ex) in Hb. discriminate. }
      exists 0%nat. split; [lia|]. split.
      * apply positions_none. exact Hall.
      * rewrite positions_all.
        2:{ eapply Forall_impl; [|exact Hall]. simpl. intros x ->. reflexivity. }
        simpl. f_equal; [lia|].
        rewrite <- seq_shift, map_map. apply map_ext. intros; lia.
Qed.

(** X10. The masks as line 298 sorts them are a rearrangement of the masks in
    which no mask has a larger area than one before it.  Classified after
    that sort, as the segmentation stage does, the background ids are
    [0, ..., k-1] and the object ids [k, ..., n-1] for some [k]. *)
Theorem background_ids_form_a_prefix (masks : list mask_data) :
  let sorted := sorted_by_area masks in
  Permutation masks sorted /\
  StronglySorted (fun x y => get_area y <= get_area x) sorted /\
  exists k,
    0 <= k <= Py.len masks /\
    classify_masks_by_area sorted frame_width frame_height background_ratio
    = (Py.range k, map (Z.add k) (Py.range (Py.len masks - k))).
Proof.
  intros sorted.
  split; [apply sorted_by_area_perm|]. split; [apply sorted_by_area_sorted|].
  destruct (positions_sorted_masks sorted (sorted_by_area_sorted masks) 0)
    as [k [Hk [E1 E2]]].
  unfold sorted in Hk. rewrite sorted_by_area_length in Hk.
  exists (Z.of_nat k). unfold Py.len. split; [lia|].
  unfold classify_masks_by_area. fold total_area.
  rewrite classify_loop_positions. simpl. fold sorted. rewrite E1, E2.
  unfold sorted. rewrite sorted_by_area_length.
  unfold Py.range. rewrite Nat2Z.id. f_equal.
  rewrite map_map.
  replace (Z.to_nat (Z.of_nat (List.length masks) - Z.of_nat k))
    with (List.length masks - k)%nat by lia.
  apply map_ext. intros; lia.
Qed.

End Areas.


Lemma nth_error_combine {A B : Type} (l1 : list A) (l2 : list B) :
  forall n,
    nth_error (combine l1 l2) n =
    match nth_error l1 n, nth_error l2 n with
    | Some a, Some b => Some (a, b)
    | _, _ => None
    end.
Proof.
  revert l2. induction l1 as [|a l1 IH]; intros l2 n.
  - simpl. destruct n; reflexivity.
  - destruct l2 as [|b l2].
    + simpl. destruct n; simpl; [reflexivity|].
      destruct (nth_error l1 n); reflexivity.
    + destruct n; simpl; [reflexivity|apply IH].
Qed.

Lemma same_shape_shaped (m : mask) (frame : image) (h w : nat) :
  shaped h w frame -> same_shape m frame = true -> shaped h w m.
Proof.
  intros [Hh Hw] H. unfold same_shape in H. apply andb_prop in H.
  destruct H as [H1 H2]. apply Nat.eqb_eq in H1. split; [congruence|].
  rewrite forallb_forall in H2.
  apply Forall_forall. intros row Hrow.
  apply In_nth_error in Hrow. destruct Hrow as [n Hn].
  assert (Hlt : (n < List.length frame)%nat).
  { rewrite <- H1. apply nth_error_Some. congruence. }
  destruct (nth_error frame n) as [frow|] eqn:Hf.
  2:{ apply nth_error_None in Hf. lia. }
  assert (Hin : In (row, frow) (combine m frame)).
  { eapply nth_error_In. rewrite nth_error_combine, Hn, Hf. reflexivity. }
  apply H2 in Hin. simpl in Hin. apply Nat.eqb_eq in Hin.
  rewrite Forall_forall in Hw. rewrite Hin. apply Hw.
  eapply nth_error_In; eauto.
Qed.

Lemma pixel_shaped {A : Type} (h w : nat) (rows : list (list A)) (y x : nat) :
  shaped h w rows -> (y < h)%nat -> (x < w)%nat ->
  exists v, pixel rows y x = Some v.
Proof.
  intros [Hh Hw] Hy Hx. unfold pixel.
  destruct (nth_error rows y) as [row|] eqn:Hr.
  2:{ apply nth_error_None in Hr. lia. }
  rewrite Forall_forall in Hw.
  assert (Hl : List.length row = w) by (apply Hw; eapply nth_error_In; eauto).
  destruct (nth_error row x) as [v|] eqn:Hv; [eauto|].
  apply nth_error_None in Hv. lia.
Qed.

Lemma assign_where_spec (frame : image) (m : mask) (c : colour)
    (frame' : image) (h w : nat) :
  shaped h w frame ->
  assign_where frame m c = Some frame' ->
  shaped h w frame' /\ shaped h w m /\
  forall y x,
    pixel frame' y x =
    match pixel frame y x, pixel m y x with
    | Some px, Some b => Some (if b then c else px)
    | _, _ => None
    end.
Proof.
  intros Hf H. unfold assign_where in H.
  destruct (same_shape m frame) eqn:Hs; [|discriminate].
  inversion H; subst frame'. clear H.
  pose proof (same_shape_shaped m frame h w Hf Hs) as Hm.
  assert (Hpix : forall y x,
    pixel (map (fun rows : list colour * list bool =>
                  map (fun px : colour * bool => if snd px then c else fst px)
                      (combine (fst rows) (snd rows)))
               (combine frame m)) y x =
    match pixel frame y x, pixel m y x with
    | Some px, Some b => Some (if b then c else px)
    | _, _ => None
    end).
  { intros y x. unfold pixel.
    rewrite nth_error_map, nth_error_combine.
    destruct (nth_error frame y) as [frow|] eqn:Hfr;
      destruct (nth_error m y) as [mrow|] eqn:Hmr; simpl; try reflexivity.
    - rewrite nth_error_map, nth_error_combine.
      destruct (nth_error frow x), (nth_error mrow x); reflexivity.
    - destruct (nth_error frow x); reflexivity. }
  split; [|split; [exact Hm|exact Hpix]].
  destruct Hf as [Hh Hw]. destruct Hm as [Hmh Hmw].
  split.
  - rewrite length_map, length_combine. lia.
  - apply Forall_forall. intros row Hrow.
    apply in_map_iff in Hrow. destruct Hrow as [[frow mrow] [<- Hin]].
    simpl. rewrite length_map, length_combine.
    rewrite Forall_forall in Hw, Hmw.
    rewrite (Hw frow), (Hmw mrow); [lia|..].
    + eapply in_combine_r; eauto.
    + eapply in_combine_l; eauto.
Qed.

Lemma paint_objects_spec (background_ids : list Z) (h w : nat)
    (items : list (Z * mask)) :
  forall frame frame',
    shaped h w frame ->
    paint_objects items background_ids frame = Some frame' ->
    shaped h w frame' /\
    forall y x, (y < h)%nat -> (x < w)%nat ->
      pixel frame' y x =
      if covered items background_ids y x then Some SEGMENT_OBJECT_COLOR
      else pixel frame y x.
Proof.
  induction items as [|[obj m] items IH]; intros frame frame' Hf H;
    simpl in H.
  - inversion H; subst. split; [exact Hf|]. reflexivity.
  - unfold covered. simpl. fold (covered items background_ids).
    destruct (existsb (Z.eqb obj) background_ids) eqn:Hbg; simpl.
    + apply IH; assumption.
    + destruct (assign_where frame m SEGMENT_OBJECT_COLOR) as [f1|] eqn:Ha;
        [|discriminate].
      destruct (assign_where_spec _ _ _ _ h w Hf Ha) as [Hf1 [Hm Hpix]].
      destruct (IH f1 frame' Hf1 H) as [Hf' Hrest].
      split; [exact Hf'|].
      intros y x Hy Hx. rewrite (Hrest y x Hy Hx), Hpix.
      destruct (pixel_shaped h w frame y x Hf Hy Hx) as [px ->].
      destruct (pixel_shaped h w m y x Hm Hy Hx) as [b ->].
      destruct b; simpl; [|reflexivity].
      now destruct (covered items background_ids y x).
Qed.

Lemma np_zeros_spec (height width : Z) (frame : image) :
  np_zeros height width = Some frame ->
  0 <= height /\ 0 <= width /\
  shaped (Z.to_nat height) (Z.to_nat width) frame /\
  forall y x, (y < Z.to_nat height)%nat -> (x < Z.to_nat width)%nat ->
    pixel frame y x = Some black.
Proof.
  unfold np_zeros.
  destruct (Z.ltb_spec height 0); [discriminate|].
  destruct (Z.ltb_spec width 0); [discriminate|].
  simpl. intros H1. inversion H1; subst. clear H1.
  split; [assumption|]. split; [assumption|].
  unfold Py.replicate. split.
  - split; [apply repeat_length|].
    apply Forall_forall. intros row Hrow. apply repeat_spec in Hrow.
    subst. apply repeat_length.
  - intros y x Hy Hx. unfold pixel.
    rewrite nth_error_repeat by exact Hy.
    now rewrite nth_error_repeat by exact Hx.
Qed.

Lemma render_frame_spec (video_segments : list (Z * list (Z * mask)))
    (background_ids : list Z) (height width idx : Z) (frame : image) :
  render_frame video_segments background_ids height width idx = Some frame ->
  Py.len frame = height /\
  Forall (fun row => Py.len row = width) frame /\
  forall y x, (y < Z.to_nat height)%nat -> (x < Z.to_nat width)%nat ->
    pixel frame y x =
    Some (if covered (segments_of video_segments idx) background_ids y x
          then SEGMENT_OBJECT_COLOR else black).
Proof.
  unfold render_frame, segments_of. intros H.
  destruct (np_zeros height width) as [zero|] eqn:Hz; [|discriminate].
  destruct (np_zeros_spec _ _ _ Hz) as [Hh [Hw [Hs Hblack]]].
  assert (Hgoal : forall items,
    paint_objects items background_ids zero = Some frame ->
    Py.len frame = height /\
    Forall (fun row => Py.len row = width) frame /\
    forall y x, (y < Z.to_nat height)%nat -> (x < Z.to_nat width)%nat ->
      pixel frame y x =
      Some (if covered items background_ids y x
            then SEGMENT_OBJECT_COLOR else black)).
  { intros items Hp.
    destruct (paint_objects_spec background_ids _ _ items zero frame Hs Hp)
      as [[Hl Hr] Hpix].
    unfold Py.len. split; [lia|]. split.
    - eapply Forall_impl; [|exact Hr]. simpl. intros row Hrow. lia.
    - intros y x Hy Hx. rewrite (Hpix y x Hy Hx), (Hblack y x Hy Hx).
      now destruct (covered items background_ids y x). }
  destruct (dict_get idx video_segments) as [[|item items]|].
  - apply Hgoal. exact H.
  - apply Hgoal. exact H.
  - apply Hgoal. exact H.
Qed.

(** X11. When the rendering loop of lines 339-347 comes to its end, it has
    written one frame for every extracted frame file, each of the target
    height and width, and a pixel has the object colour (0, 255, 0) when
    the mask of some object of that frame that is not a background object
    covers it, and is black otherwise. *)
Theorem rendered_clip_shows_objects (frame_files : list path)
    (video_segments : list (Z * list (Z * mask))) (background_ids : list Z)
    (target_height target_width : Z) (written : list image) :
  render_frames frame_files 0 video_segments background_ids
                target_height target_width = Some written ->
  Py.len written = Py.len frame_files /\
  forall idx frame,
    nth_error written idx = Some frame ->
    Py.len frame = target_height /\
    Forall (fun row => Py.len row = target_width) frame /\
    forall y x,
      (y < Z.to_nat target_height)%nat -> (x < Z.to_nat target_width)%nat ->
      pixel frame y x =
      Some (if covered (segments_of video_segments (Z.of_nat idx))
                       background_ids y x
            then SEGMENT_OBJECT_COLOR else black).
Proof.
  assert (G : forall files start out,
    render_frames files start video_segments background_ids
                  target_height target_width = Some out ->
    List.length out = List.length files /\
    forall idx frame,
      nth_error out idx = Some frame ->
      render_frame video_segments background_ids target_height target_width
                   (start + Z.of_nat idx) = Some frame).
  { induction files as [|f files IH]; intros start out H; simpl in H.
    - inversion H; subst. split; [reflexivity|]. intros [|idx]; discriminate.
    - destruct (render_frame video_segments background_ids target_height
                  target_width start) as [fr|] eqn:Hfr; [|discriminate].
      destruct (render_frames files (start + 1) video_segments background_ids
                  target_height target_width) as [rest|] eqn:Hrest;
        [|discriminate].
      inversion H; subst. destruct (IH _ _ Hrest) as [Hl Hn].
      split; [simpl; congruence|].
      intros [|idx] frame Hi; simpl in Hi.
      + inversion Hi; subst. now rewrite Z.add_0_r.
      + apply Hn in Hi. rewrite <- Hi. f_equal. lia. }
  intros H. destruct (G _ _ _ H) as [Hl Hn].
  split; [unfold Py.len; congruence|].
  intros idx frame Hi. apply Hn in Hi. simpl in Hi.
  now apply render_frame_spec.
Qed.

End MaskFacts.

Module VideoAnalyzeFacts.
Import VideoAnalyze.

Section MotionScore.

Context {frame : Type}.
Variable env : Env frame.
Variable gray_levels : frame -> list Z.

Lemma absdiff_bytes (pixels : nat) (a b : list Z) :
  byte_image pixels a -> byte_image pixels b ->
  absdiff a b
  = Return (map (fun p : Z * Z => Z.abs (fst p - snd p)) (combine a b)) /\
  byte_image pixels (map (fun p : Z * Z => Z.abs (fst p - snd p)) (combine a b)).
Proof.
  intros [La Fa] [Lb Fb]. unfold absdiff.
  rewrite La, Lb, Nat.eqb_refl. split; [reflexivity|]. split.
  - rewrite length_map, length_combine. lia.
  - apply Forall_forall. intros v Hv. apply in_map_iff in Hv.
    destruct Hv as [[x y] [<- Hin]]. simpl.
    rewrite Forall_forall in Fa, Fb.
    pose proof (Fa x (in_combine_l _ _ _ _ Hin)).
    pose proof (Fb y (in_combine_r _ _ _ _ Hin)). lia.
Qed.

Lemma sum_bytes (g : list Z) :
  Forall (fun v => 0 <= v <= 255) g ->
  0 <= fold_right Z.add 0 g <= 255 * Py.len g.
Proof.
  unfold Py.len. induction 1 as [|v g Hv _ IH]; [simpl; lia|].
  simpl fold_right. simpl List.length. rewrite Nat2Z.inj_succ. lia.
Qed.

Lemma frame_change_unit (pixels : nat) (a b : list Z) :
  (0 < pixels)%nat -> byte_image pixels a -> byte_image pixels b ->
  (0 <= frame_change a b)%Q /\ (frame_change a b <= 1)%Q.
Proof.
  intros Hp Ha Hb. destruct (absdiff_bytes pixels a b Ha Hb) as [_ [Ld Fd]].
  unfold frame_change, array_mean.
  set (d := map (fun p : Z * Z => Z.abs (fst p - snd p)) (combine a b)) in *.
  pose proof (sum_bytes d Fd) as [Hlo Hhi].
  assert (Hn : 0 < Py.len d) by (unfold Py.len; lia).
  set (s := fold_right Z.add 0 d) in *. set (n := Py.len d) in *.
  assert (Hnq : (0 < inject_Z n)%Q) by (rewrite <- (Zlt_Qlt 0); exact Hn).
  assert (H255 : (0 < 255)%Q) by reflexivity.
  split.
  - apply Qle_shift_div_l; [exact H255|]. rewrite Qmult_0_l.
    apply Qle_shift_div_l; [exact Hnq|]. rewrite Qmult_0_l.
    rewrite <- (Zle_Qle 0). exact Hlo.
  - apply Qle_shift_div_r; [exact H255|]. rewrite Qmult_1_l.
    apply Qle_shift_div_r; [exact Hnq|].
    change 255%Q with (inject_Z 255). rewrite <- inject_Z_mult.
    rewrite <- Zle_Qle. exact Hhi.
Qed.

Lemma changes_unit (pixels : nat) (grays : list (list Z)) :
  (0 < pixels)%nat -> Forall (byte_image pixels) grays ->
  Forall (fun s => (0 <= s)%Q /\ (s <= 1)%Q) (changes grays).
Proof.
  intros Hp. induction 1 as [|a grays Ha Hg IH]; [constructor|].
  destruct grays as [|b grays]; [constructor|].
  simpl. constructor; [|exact IH].
  inversion Hg; subst. eapply frame_change_unit; eauto.
Qed.

Lemma read_loop_spec (pixels : nat) (max_frames : Z) (reads : list frame) :
  (0 < pixels)%nat ->
  Forall (fun f => byte_image pixels (gray_levels f)) reads ->
  forall frames_read prev_gray diffs_sum diffs_count,
    match prev_gray with
    | Some prev => byte_image pixels prev
    | None => True
    end ->
    let seen := firstn (Z.to_nat (max_frames - frames_read)) reads in
    let moves := changes_after prev_gray (map gray_levels seen) in
    read_loop gray_levels reads max_frames frames_read prev_gray
              diffs_sum diffs_count
    = Return (fold_left Qplus moves diffs_sum, diffs_count + Py.len moves).
Proof.
  intros Hp. induction 1 as [|f reads Hf _ IH];
    intros frames_read prev_gray diffs_sum diffs_count Hprev seen moves.
  - assert (Hm : moves = []).
    { unfold moves, seen. rewrite firstn_nil. simpl.
      now destruct prev_gray. }
    rewrite Hm. unfold Py.len. simpl. rewrite Z.add_0_r.
    destruct (frames_read <? max_frames); reflexivity.
  - simpl. destruct (Z.ltb_spec frames_read max_frames).
    2:{ assert (Hm : moves = []).
        { unfold moves, seen.
          replace (Z.to_nat (max_frames - frames_read)) with 0%nat by lia.
          simpl. now destruct prev_gray. }
        rewrite Hm. unfold Py.len. simpl. now rewrite Z.add_0_r. }
    assert (Hseen : seen
                    = f :: firstn (Z.to_nat (max_frames - (frames_read + 1)))
                                  reads).
    { unfold seen.
      replace (Z.to_nat (max_frames - frames_read))
        with (S (Z.to_nat (max_frames - (frames_read + 1)))) by lia.
      reflexivity. }
    unfold cvtColor_gray.
    destruct (gray_levels f) as [|v g] eqn:Hg.
    { destruct Hf as [Hl _]. simpl in Hl. lia. }
    rewrite <- Hg in *.
    destruct prev_gray as [prev|].
    + destruct (absdiff_bytes pixels (gray_levels f) prev Hf Hprev)
        as [Hd _].
      rewrite Hg at 1. rewrite <- Hg. rewrite Hd.
      rewrite (IH (frames_read + 1) (Some (gray_levels f)) _ _ Hf).
      unfold moves. rewrite Hseen. simpl map. unfold changes_after.
      simpl changes. fold (frame_change (gray_levels f) prev).
      simpl fold_left. f_equal. f_equal.
      unfold Py.len. simpl List.length. lia.
    + rewrite Hg at 1. rewrite <- Hg.
      rewrite (IH (frames_read + 1) (Some (gray_levels f)) _ _ Hf).
      unfold moves. rewrite Hseen. reflexivity.
Qed.

Lemma seen_changes_unit (max_frames : Z) (reads : list frame) (pixels : nat) :
  well_formed gray_levels pixels reads ->
  Forall (fun s => (0 <= s)%Q /\ (s <= 1)%Q)
         (changes (map gray_levels (firstn (Z.to_nat max_frames) reads))).
Proof.
  intros [Hp Hwf].
  apply (changes_unit pixels); [exact Hp|].
  apply Forall_forall. intros g Hg. apply in_map_iff in Hg.
  destruct Hg as [f [<- Hin]].
  rewrite Forall_forall in Hwf. apply Hwf.
  rewrite <- (firstn_skipn (Z.to_nat max_frames) reads).
  apply in_or_app. now left.
Qed.

Lemma analyze_video_mean (video_path : path) (max_frames : Z)
    (reads : list frame) (pixels : nat) :
  cv2_available env = true ->
  decode env video_path = Some reads ->
  well_formed gray_levels pixels reads ->
  analyze_video env gray_levels video_path max_frames
  = Return
      match changes (map gray_levels (firstn (Z.to_nat max_frames) reads)) with
      | [] => 0%Q
      | m :: moves => mean (m :: moves)
      end.
Proof.
  intros Hcv Hdec Hwf.
  pose proof (seen_changes_unit max_frames reads pixels Hwf) as Hunit.
  destruct Hwf as [Hp Hwf].
  assert (Hwf' : Forall (fun f => byte_image pixels (gray_levels f)) reads)
    by exact Hwf.
  unfold analyze_video. rewrite Hcv, Hdec. simpl negb. cbv iota.
  rewrite (read_loop_spec pixels max_frames reads Hp Hwf' 0 None 0%Q 0 I).
  rewrite Z.sub_0_r. unfold changes_after. rewrite Z.add_0_l.
  destruct (changes (map gray_levels (firstn (Z.to_nat max_frames) reads)))
    as [|m moves'] eqn:Hm.
  - reflexivity.
  - destruct (Z.eqb_spec (Py.len (m :: moves')) 0) as [E|_].
    { unfold Py.len in E. simpl in E. lia. }
    fold (mean (m :: moves')).
    destruct (mean_unit (m :: moves')) as [Hlo Hhi];
      [discriminate|exact Hunit|].
    apply Qle_bool_iff in Hlo. apply Qle_bool_iff in Hhi.
    cbv zeta. rewrite Hlo, Hhi. reflexivity.
Qed.

(** X12. On a capture that opens and delivers frames of one size with byte grey
    levels, [analyze_video] returns a score between 0 and 1: the mean, over
    the successive pairs among the first [max_frames] frames, of the mean
    absolute difference of the grey levels divided by 255, and 0 when
    there is no such pair.  Floats are taken as the rationals they stand
    for. *)
Theorem motion_score_is_mean_change (video_path : path) (max_frames : Z)
    (reads : list frame) (pixels : nat) :
  cv2_available env = true ->
  decode env video_path = Some reads ->
  well_formed gray_levels pixels reads ->
  let seen := firstn (Z.to_nat max_frames) reads in
  let moves := changes (map gray_levels seen) in
  exists score,
    analyze_video env gray_levels video_path max_frames = Return score /\
    (0 <= score)%Q /\ (score <= 1)%Q /\
    score = match moves with
            | [] => 0%Q
            | _ :: _ => mean moves
            end.
Proof.
  intros Hcv Hdec Hwf seen moves.
  pose proof (seen_changes_unit max_frames reads pixels Hwf) as Hunit.
  fold seen in Hunit. fold moves in Hunit.
  rewrite (analyze_video_mean video_path max_frames reads pixels Hcv Hdec Hwf).
  fold seen. fold moves.
  destruct moves as [|m moves'] eqn:Hm.
  - exists 0%Q. repeat split; try reflexivity; discriminate.
  - exists (mean (m :: moves')).
    destruct (mean_unit (m :: moves')) as [Hlo Hhi];
      [discriminate|exact Hunit|].
    repeat split; assumption.
Qed.

Lemma fold_zero (l : list Q) :
  Forall (fun x => (x == 0)%Q) l ->
  forall a, (fold_left Qplus l a == a)%Q.
Proof.
  induction 1 as [|x l Hx _ IH]; intros a; simpl; [reflexivity|].
  rewrite IH, Hx. ring.
Qed.

Lemma frame_change_same (g : list Z) : (frame_change g g == 0)%Q.
Proof.
  unfold frame_change, array_mean.
  assert (H : fold_right Z.add 0
                (map (fun p : Z * Z => Z.abs (fst p - snd p)) (combine g g))
              = 0).
  { induction g as [|v g IH]; simpl; [reflexivity|].
    rewrite IH. lia. }
  rewrite H. unfold Qdiv. rewrite !Qmult_0_l. reflexivity.
Qed.

Lemma changes_static (grays : list (list Z)) :
  (forall a b, In a grays -> In b grays -> a = b) ->
  Forall (fun x => (x == 0)%Q) (changes grays).
Proof.
  induction grays as [|a grays IH]; intros Hs; [constructor|].
  destruct grays as [|b grays]; [constructor|].
  simpl. constructor.
  - rewrite (Hs a b); [apply frame_change_same|now left|right; now left].
  - apply IH. intros x y Hx Hy. apply Hs; now right.
Qed.

(** X13. [analyze_video] returns 0 when OpenCV is missing, when the capture does
    not open and when [max_frames] is not positive.  On a well-formed
    capture its score is 0 as well when at most one frame is read
    ([max_frames <= 1] or a clip of at most one frame) and when all frames
    have the same grey levels. *)
Theorem motion_score_zero (video_path : path) (max_frames : Z) :
  (cv2_available env = false \/ decode env video_path = None \/
   max_frames <= 0 ->
   analyze_video env gray_levels video_path max_frames = Return 0%Q) /\
  (forall reads pixels,
     cv2_available env = true ->
     decode env video_path = Some reads ->
     well_formed gray_levels pixels reads ->
     max_frames <= 1 \/ (List.length reads <= 1)%nat \/
     (forall f g, In f reads -> In g reads ->
                  gray_levels f = gray_levels g) ->
     exists score,
       analyze_video env gray_levels video_path max_frames = Return score /\
       (score == 0)%Q).
Proof.
  split.
  - intros H. unfold analyze_video.
    destruct (cv2_available env); [|reflexivity]. simpl.
    destruct (decode env video_path) as [reads|]; [|reflexivity].
    destruct H as [H|[H|H]]; try discriminate.
    assert (E : read_loop gray_levels reads max_frames 0 None 0%Q 0
                = Return (0%Q, 0)).
    { destruct reads; simpl; destruct (Z.ltb_spec 0 max_frames);
        try lia; reflexivity. }
    rewrite E. reflexivity.
  - intros reads pixels Hcv Hdec Hwf Hwhy.
    eexists.
    split; [exact (analyze_video_mean video_path max_frames reads pixels
                     Hcv Hdec Hwf)|].
    set (seen := firstn (Z.to_nat max_frames) reads).
    assert (Hshort : (List.length seen <= 1)%nat ->
                     changes (map gray_levels seen) = []).
    { destruct seen as [|a [|b seen']]; simpl; intros; try reflexivity. lia. }
    destruct Hwhy as [Hm|[Hl|Hs]].
    + rewrite Hshort; [reflexivity|]. unfold seen. rewrite length_firstn. lia.
    + rewrite Hshort; [reflexivity|]. unfold seen. rewrite length_firstn. lia.
    + assert (Hz : Forall (fun x => (x == 0)%Q)
                          (changes (map gray_levels seen))).
      { apply changes_static. intros a b Ha Hb.
        apply in_map_iff in Ha. destruct Ha as [f [<- Hf]].
        apply in_map_iff in Hb. destruct Hb as [g [<- Hg]].
        apply Hs; rewrite <- (firstn_skipn (Z.to_nat max_frames) reads);
          apply in_or_app; now left. }
      destruct (changes (map gray_levels seen)) as [|m moves] eqn:E;
        [reflexivity|].
      unfold mean. rewrite (fold_zero _ Hz). unfold Qdiv.
      rewrite Qmult_0_l. reflexivity.
Qed.

End MotionScore.

Section Frames.

Context {frame : Type}.
Variable env : Env frame.
Variable path_exists : path -> bool.

Lemma read_frames_spec (iterations : nat) :
  forall reads frames,
    read_frames env iterations reads frames =
    match firstn iterations reads with
    | [] => Return frames
    | _ :: _ =>
        if raises env cls_convert_frames then Raise call_failed
        else Return (frames ++ map (convert env) (firstn iterations reads))
    end.
Proof.
  induction iterations as [|n IH]; intros reads frames; simpl.
  - reflexivity.
  - destruct reads as [|f reads]; [reflexivity|].
    destruct (raises env cls_convert_frames) eqn:Hr; [reflexivity|].
    rewrite IH. simpl.
    destruct (firstn n reads) as [|g rest] eqn:E.
    + reflexivity.
    + now rewrite <- app_assoc.
Qed.

Lemma last_item_snoc (l : list frame) (x : frame) :
  Py.last_item (l ++ [x]) = Some x.
Proof.
  induction l as [|y l IH]; [reflexivity|].
  simpl. destruct (l ++ [x]) eqn:E; [destruct l; discriminate|exact IH].
Qed.

Lemma pad_loop_spec (fuel : nat) :
  forall (frames : list frame) (frame_count : Z) (tail : frame),
    Py.last_item frames = Some tail ->
    frame_count - Py.len frames <= Z.of_nat fuel ->
    pad_loop fuel frames frame_count
    = frames ++ Py.replicate tail (frame_count - Py.len frames).
Proof.
  induction fuel as [|fuel IH]; intros frames frame_count tail Hlast Hfuel.
  - simpl. unfold Py.replicate.
    replace (Z.to_nat (frame_count - Py.len frames)) with 0%nat by lia.
    now rewrite app_nil_r.
  - simpl. destruct (Z.ltb_spec (Py.len frames) frame_count).
    + assert (Hpos : 0 < Py.len frames).
      { unfold Py.len. destruct frames; [discriminate|]. simpl. lia. }
      destruct (Z.gtb_spec (Py.len frames) 0); [|lia]. simpl.
      rewrite Hlast.
      rewrite (IH (frames ++ [tail]) frame_count tail).
      * rewrite len_app. unfold Py.replicate, Py.len at 2. simpl List.length.
        replace (Z.to_nat (frame_count - Py.len frames))
          with (S (Z.to_nat (frame_count - (Py.len frames + 1)))) by lia.
        simpl. now rewrite <- app_assoc.
      * apply last_item_snoc.
      * rewrite len_app. unfold Py.len at 2. simpl. lia.
    + simpl. unfold Py.replicate.
      replace (Z.to_nat (frame_count - Py.len frames)) with 0%nat by lia.
      now rewrite app_nil_r.
Qed.

Lemma pad_loop_nil (fuel : nat) (frame_count : Z) :
  pad_loop fuel (@nil frame) frame_count = [].
Proof.
  destruct fuel; simpl; [reflexivity|].
  unfold Py.len. simpl. now rewrite andb_false_r.
Qed.

(** What [load_video_frames] returns, in closed form. *)
Lemma load_video_frames_spec (video_path : path) (frame_count : Z) :
  let reads := match decode env video_path with
               | Some reads => reads
               | None => []
               end in
  let taken := map (convert env) (firstn (Z.to_nat frame_count) reads) in
  load_video_frames env path_exists video_path frame_count =
  if negb (path_exists video_path) then Return []
  else
    match Py.last_item taken with
    | None => Return []
    | Some tail =>
        if raises env cls_convert_frames then Raise call_failed
        else Return (taken ++ Py.replicate tail (frame_count - Py.len taken))
    end.
Proof.
  intros reads taken. unfold load_video_frames. fold reads.
  destruct (path_exists video_path); [|reflexivity]. simpl negb. cbv iota.
  rewrite read_frames_spec. unfold taken.
  destruct (firstn (Z.to_nat frame_count) reads) as [|f rest] eqn:E.
  - simpl. now rewrite pad_loop_nil.
  - destruct (Py.last_item (map (convert env) (f :: rest))) as [tail|] eqn:Hl.
    2:{ apply last_item_none in Hl. discriminate. }
    destruct (raises env cls_convert_frames); [reflexivity|].
    simpl app. f_equal.
    rewrite (pad_loop_spec _ _ _ tail); [reflexivity|exact Hl|].
    unfold Py.len. lia.
Qed.

(** X14. When [load_video_frames] returns, the padding loop has come to its end
    and the list has no frame or exactly [frame_count] frames.  It has no
    frame exactly when the path does not exist, the capture delivers no
    frame or [frame_count] is not positive; otherwise it is the first
    [frame_count] frames, resized and converted, followed by copies of the
    last of them up to [frame_count]. *)
Theorem load_video_frames_pads_to_count (video_path : path) (frame_count : Z)
    (frames : list frame) :
  load_video_frames env path_exists video_path frame_count = Return frames ->
  let reads := match decode env video_path with
               | Some reads => reads
               | None => []
               end in
  let taken := map (convert env) (firstn (Z.to_nat frame_count) reads) in
  padding_goes_on frames frame_count = false /\
  (frames = [] \/ Py.len frames = frame_count) /\
  (frames = [] <->
   path_exists video_path = false \/ reads = [] \/ frame_count <= 0) /\
  (forall tail, path_exists video_path = true ->
     Py.last_item taken = Some tail ->
     frames = taken ++ Py.replicate tail (frame_count - Py.len taken)).
Proof.
  intros H reads taken. rewrite load_video_frames_spec in H.
  fold reads in H. fold taken in H.
  assert (Htaken : Py.len taken <= frame_count \/ taken = []).
  { unfold taken, Py.len. rewrite length_map, length_firstn.
    destruct (Z.le_gt_cases 0 frame_count); [left; lia|right].
    replace (Z.to_nat frame_count) with 0%nat by lia. reflexivity. }
  assert (Hnil : taken = [] <-> reads = [] \/ frame_count <= 0).
  { unfold taken. split.
    - intros E. apply map_eq_nil in E.
      destruct reads as [|f reads']; [now left|right].
      destruct (Z.to_nat frame_count) eqn:En; [lia|discriminate].
    - intros [->|Hle]; [now rewrite firstn_nil|].
      replace (Z.to_nat frame_count) with 0%nat by lia. reflexivity. }
  destruct (path_exists video_path) eqn:Hex; simpl in H.
  2:{ inversion H; subst. unfold padding_goes_on, Py.len. simpl.
      rewrite andb_false_r. repeat split; auto; try discriminate. }
  destruct (Py.last_item taken) as [tail|] eqn:Hl.
  2:{ inversion H; subst. apply last_item_none in Hl.
      unfold padding_goes_on, Py.len. simpl. rewrite andb_false_r.
      repeat split; auto; try discriminate.
      intros _. right. now apply Hnil. }
  destruct (raises env cls_convert_frames); [discriminate|].
  inversion H; subst frames. clear H.
  assert (Hne : taken <> []) by (intros E; rewrite E in Hl; discriminate).
  destruct Htaken as [Hle|E]; [|contradiction].
  assert (Hlen : Py.len (taken ++ Py.replicate tail (frame_count - Py.len taken))
                 = frame_count).
  { rewrite len_app, len_replicate by lia. lia. }
  split; [|split; [|split]].
  - unfold padding_goes_on. rewrite Hlen, Z.ltb_irrefl. reflexivity.
  - right. exact Hlen.
  - split.
    + intros E. apply app_eq_nil in E. tauto.
    + intros [F|F]; [discriminate|]. apply Hnil in F. contradiction.
  - intros tail' _ E. inversion E; subst. reflexivity.
Qed.

(** X15. For a file that exists and a capture that delivers at least one frame,
    the first window that the server's [load_video_frame_sequences] returns
    is the list that [load_video_frames] of [video_analyze.py] returns for
    the same [frame_count]; it is the only window when [sequence_count] is
    at most 1 or the clip is not longer than [frame_count]. *)
Theorem first_window_is_load_video_frames (video_path : path)
    (frame_count sequence_count : Z) (w : World)
    (f : frame) (reads : list frame) :
  0 < frame_count ->
  path_exists video_path = true ->
  cv2_available env = true ->
  decode env video_path = Some (f :: reads) ->
  raises env cls_convert_frames = false ->
  exists window others,
    load_video_frame_sequences env video_path frame_count sequence_count w
    = (Return (window :: others), w) /\
    load_video_frames env path_exists video_path frame_count = Return window /\
    (sequence_count <= 1 \/ Py.len (f :: reads) <= frame_count ->
     others = []).
Proof.
  intros Hfc Hex Hcv Hdec Hconv.
  set (all := map (convert env) (f :: reads)).
  set (taken := firstn (Z.to_nat frame_count) all).
  assert (Hload : forall tail,
            Py.last_item taken = Some tail ->
            load_video_frames env path_exists video_path frame_count
            = Return (taken ++ Py.replicate tail (frame_count - Py.len taken))).
  { intros tail Hl. rewrite load_video_frames_spec.
    rewrite Hdec, Hex, Hconv. simpl negb. cbv iota zeta.
    rewrite <- firstn_map. fold all. fold taken. rewrite Hl. reflexivity. }
  assert (Hne : taken <> []).
  { unfold taken, all. destruct (Z.to_nat frame_count) eqn:En; [lia|].
    discriminate. }
  destruct (last_item_some taken Hne) as [tail Hl].
  specialize (Hload tail Hl).
  unfold load_video_frame_sequences. rewrite Hcv, Hdec. simpl negb. cbv iota.
  unfold bind, try_finally, call, ret. rewrite Hconv.
  fold all. unfold sample_windows.
  destruct (Py.last_item all) as [padding_frame|] eqn:Hlast.
  2:{ apply last_item_none in Hlast. discriminate. }
  set (padded := pad_frames all padding_frame frame_count).
  assert (Hplen : frame_count <= Py.len padded).
  { unfold padded, pad_frames.
    destruct (Z.ltb_spec (Py.len all) frame_count); [|lia].
    rewrite len_app, len_replicate by lia. lia. }
  assert (Hstart : exists rest,
            start_indices (Py.len padded) frame_count sequence_count
            = 0 :: rest /\
            (sequence_count <= 1 \/ Py.len all <= frame_count -> rest = [])).
  { unfold start_indices.
    destruct (Z.leb_spec sequence_count 1); simpl.
    { exists []. auto. }
    destruct (Z.leb_spec (Py.len padded) frame_count); simpl.
    { exists []. auto. }
    destruct (Z.eqb_spec sequence_count 1); [lia|].
    destruct (Z.eqb_spec (Z.max (Py.len padded - frame_count) 0) 0); simpl.
    { exists []. auto. }
    unfold Py.range.
    destruct (Z.to_nat sequence_count) eqn:En; [lia|].
    cbn [seq map]. eexists. split.
    - f_equal. change (Z.of_nat 0) with 0. rewrite Z.mul_0_l.
      apply (round_div_exact 0 (sequence_count - 1)). lia.
    - intros [Hc|Hc]; [lia|].
      exfalso. unfold padded, pad_frames in *.
      destruct (Z.ltb_spec (Py.len all) frame_count).
      + rewrite len_app, len_replicate in * by lia. lia.
      + lia. }
  destruct Hstart as [rest [Hs Hrest]]. rewrite Hs. cbn [map].
  assert (Hwin : window_at padded frame_count 0
                 = taken ++ Py.replicate tail (frame_count - Py.len taken)).
  { rewrite window_at_inside by lia.
    rewrite (slice_inside padded 0 frame_count) by lia.
    simpl skipn. unfold padded, pad_frames.
    destruct (Z.ltb_spec (Py.len all) frame_count).
    - assert (Hall : taken = all).
      { unfold taken. apply firstn_all2. unfold Py.len in *. lia. }
      rewrite Hall in *. rewrite Hlast in Hl. inversion Hl; subst.
      apply firstn_all2. rewrite length_app. unfold Py.replicate.
      rewrite repeat_length. unfold Py.len in *. lia.
    - assert (Hl' : Py.len taken = frame_count).
      { unfold taken, Py.len in *. rewrite length_firstn. lia. }
      rewrite Hl', Z.sub_diag. unfold Py.replicate. simpl.
      now rewrite app_nil_r. }
  rewrite Hwin.
  eexists. eexists. split; [reflexivity|]. split; [exact Hload|].
  intros Hc. rewrite Hrest; [reflexivity|].
  unfold all, Py.len in *. rewrite length_map. exact Hc.
Qed.

End Frames.

End VideoAnalyzeFacts.

Module ScoreLogFacts.
Import ScoreLog.

Lemma readlines_one_line (line : text) :
  one_line line ->
  forall cur, readlines_from cur (line ++ [LF]) = [cur ++ line ++ [LF]].
Proof.
  induction 1 as [|c line [Hlf Hcr] _ IH]; intros cur; simpl.
  - reflexivity.
  - apply Ascii.eqb_neq in Hlf, Hcr. rewrite Hlf, Hcr.
    rewrite IH. now rewrite <- app_assoc.
Qed.

Lemma terminated_cons (c : ascii) (s : text) :
  s <> [] -> terminated (c :: s) = terminated s.
Proof. destruct s; [congruence|reflexivity]. Qed.

Lemma terminated_app (s line : text) : terminated (s ++ line ++ [LF]) = true.
Proof.
  induction s as [|c s IH]; simpl app.
  - induction line as [|d line IHl]; [reflexivity|].
    simpl app. rewrite terminated_cons; [exact IHl|].
    destruct line; discriminate.
  - rewrite terminated_cons; [exact IH|].
    destruct s; [destruct line|]; discriminate.
Qed.

Lemma readlines_from_cons (cur : text) (c : ascii) (rest : text) :
  readlines_from cur (c :: rest) =
  if Ascii.eqb c LF then (cur ++ [LF]) :: readlines_from [] rest
  else if Ascii.eqb c CR then
    match rest with
    | c' :: rest' =>
        if Ascii.eqb c' LF then (cur ++ [LF]) :: readlines_from [] rest'
        else (cur ++ [LF]) :: readlines_from [] rest
    | [] => [cur ++ [LF]]
    end
  else readlines_from (cur ++ [c]) rest.
Proof. reflexivity. Qed.

Lemma readlines_app_line (line : text) :
  one_line line ->
  forall n s cur,
    (List.length s <= n)%nat ->
    terminated s = true ->
    (s = [] -> cur = []) ->
    readlines_from cur (s ++ line ++ [LF])
    = readlines_from cur s ++ [line ++ [LF]].
Proof.
  intros Hline. induction n as [|n IH]; intros s cur Hn Ht Hcur.
  - destruct s; [|simpl in Hn; lia].
    rewrite (Hcur eq_refl). simpl app. now rewrite readlines_one_line.
  - destruct s as [|c rest].
    { rewrite (Hcur eq_refl). simpl app. now rewrite readlines_one_line. }
    simpl in Hn. rewrite <- app_comm_cons. rewrite !readlines_from_cons.
    destruct (Ascii.eqb c LF) eqn:Elf.
    + rewrite <- app_comm_cons. f_equal. apply IH; [lia| |reflexivity].
      destruct rest; [reflexivity|exact Ht].
    + destruct rest as [|c' rest'].
      { simpl in Ht. congruence. }
      assert (Ht' : terminated (c' :: rest') = true) by exact Ht.
      destruct (Ascii.eqb c CR) eqn:Ecr.
      * rewrite <- app_comm_cons. destruct (Ascii.eqb c' LF) eqn:Elf'.
        -- rewrite <- app_comm_cons. f_equal.
           apply IH; [simpl in Hn; lia| |reflexivity].
           destruct rest'; [reflexivity|exact Ht'].
        -- rewrite <- app_comm_cons. f_equal.
           rewrite app_comm_cons.
           apply IH; [lia|exact Ht'|discriminate].
      * apply IH; [lia|exact Ht'|discriminate].
Qed.

(** Appending one line to a file that ends with a line end adds that line
    to what [readlines] gives. *)
Lemma readlines_append (content line : text) :
  terminated content = true -> one_line line ->
  readlines (content ++ line ++ [LF]) = readlines content ++ [line ++ [LF]].
Proof.
  intros Ht Hl. unfold readlines.
  apply (readlines_app_line line Hl (List.length content)); auto.
Qed.

Lemma starts_with_app (needle rest : text) :
  starts_with needle (needle ++ rest) = true.
Proof.
  induction needle as [|c needle IH]; simpl; [reflexivity|].
  now rewrite Ascii.eqb_refl, IH.
Qed.

Lemma is_in_app (needle before after : text) :
  is_in needle (before ++ needle ++ after) = true.
Proof.
  induction before as [|c before IH]; simpl app.
  - destruct (needle ++ after) eqn:E; simpl; rewrite <- ?E;
      now rewrite starts_with_app.
  - simpl. rewrite IH. apply orb_true_r.
Qed.

Lemma is_in_absent (c : ascii) (needle hay : text) :
  Forall (fun d => d <> c) hay -> is_in (c :: needle) hay = false.
Proof.
  induction 1 as [|d hay Hd _ IH]; simpl; [reflexivity|].
  rewrite IH. apply Ascii.eqb_neq in Hd. rewrite Ascii.eqb_sym in Hd.
  now rewrite Hd.
Qed.

Lemma one_line_app (a b : text) : one_line a -> one_line b -> one_line (a ++ b).
Proof. intros Ha Hb. apply Forall_app. now split. Qed.

Lemma one_line_check (s : text) :
  forallb (fun c => negb (Ascii.eqb c LF) && negb (Ascii.eqb c CR)) s = true ->
  one_line s.
Proof.
  intros H. rewrite forallb_forall in H. apply Forall_forall.
  intros c Hc. apply H in Hc. apply andb_prop in Hc. destruct Hc as [A B].
  apply negb_true_iff in A, B. now apply Ascii.eqb_neq in A, B.
Qed.

#[local] Ltac lines :=
  repeat lazymatch goal with
         | |- one_line (_ ++ _) => apply one_line_app
         | |- one_line (lit _) => apply one_line_check; reflexivity
         | |- one_line [LF] => fail
         | |- one_line _ =>
             first [ assumption
                   | match goal with
                     | H : forall _, one_line _ |- _ => apply H
                     | H : forall _ _ _, one_line _ |- _ => apply H
                     end ]
         end.

Section Entries.

Variable format_int : Z -> text.
Variable format_int_4d : Z -> text.
Variable format_fixed : nat -> nat -> Q -> text.

Hypothesis format_int_line : forall n, one_line (format_int n).
Hypothesis format_int_4d_line : forall n, one_line (format_int_4d n).
Hypothesis format_fixed_line : forall w p x, one_line (format_fixed w p x).

Lemma received_entry_line (timestamp : text) (ep size att : Z)
    (filename : option text) :
  one_line timestamp ->
  match filename with Some name => one_line name | None => True end ->
  exists body,
    received_entry format_int format_int_4d format_fixed timestamp ep size att
                   filename = body ++ [LF] /\
    one_line body /\ is_in (lit "Episode:") (body ++ [LF]) = true.
Proof.
  intros Hts Hname. unfold received_entry.
  set (entry := timestamp ++ lit " | Episode: " ++ format_int_4d ep ++
                lit " | Attempt: " ++ format_int att ++ lit " | " ++
                lit "Size: " ++ format_fixed 6 2 (megabytes size) ++
                lit "MB | Event: RECEIVED").
  assert (He : one_line entry) by (unfold entry; lines).
  assert (Hin : forall tail, is_in (lit "Episode:") (entry ++ tail) = true).
  { intros tail. unfold entry.
    change (lit " | Episode: ") with (lit " | " ++ lit "Episode:" ++ lit " ").
    rewrite <- !app_assoc. rewrite (app_assoc timestamp).
    apply is_in_app. }
  destruct filename as [[|c name]|].
  - exists entry. auto.
  - exists (entry ++ lit " | File: " ++ c :: name). split; [reflexivity|].
    split; [lines|]. rewrite <- app_assoc. apply Hin.
  - exists entry. auto.
Qed.

Lemma score_entry_line (timestamp : text) (ep size : Z) (score time : Q)
    (att : Z) :
  one_line timestamp ->
  exists middle,
    score_entry format_int format_int_4d format_fixed timestamp ep size score
                time att = (timestamp ++ middle ++ lit "s") ++ [LF] /\
    one_line (timestamp ++ middle ++ lit "s") /\
    is_in (lit "Episode:") ((timestamp ++ middle ++ lit "s") ++ [LF]) = true.
Proof.
  intros Hts. unfold score_entry.
  exists (lit " | Episode: " ++ format_int_4d ep ++
          lit " | " ++ lit "Attempt: " ++ format_int att ++
          lit " | Size: " ++ format_fixed 6 2 (megabytes size) ++
          lit "MB | " ++ lit "Score: " ++ format_fixed 6 4 score ++
          lit " | Analysis: " ++ format_fixed 6 2 time).
  split; [repeat rewrite <- app_assoc; reflexivity|]. split; [lines|].
  change (lit " | Episode: ") with (lit " | " ++ lit "Episode:" ++ lit " ").
  repeat rewrite <- app_assoc. rewrite (app_assoc timestamp).
  apply is_in_app.
Qed.


Lemma filter_app_one {A : Type} (f : A -> bool) (l : list A) (x : A) :
  f x = true -> filter f (l ++ [x]) = filter f l ++ [x].
Proof.
  intros H. rewrite filter_app. simpl. now rewrite H.
Qed.

Lemma stats_after_append (content body : text) :
  terminated content = true -> one_line body ->
  is_in (lit "Episode:") (body ++ [LF]) = true ->
  total_episodes (log_stats false (Some (content ++ body ++ [LF])))
  = total_episodes (log_stats false (Some content)) + 1 /\
  terminated (content ++ body ++ [LF]) = true.
Proof.
  intros Ht Hb Hin. split; [|apply terminated_app].
  simpl. rewrite readlines_append by assumption.
  rewrite filter_app_one by exact Hin.
  unfold Py.len. rewrite length_app. simpl. lia.
Qed.

(** X16. On a score log file that ends with a line end, logging the reception
    of an upload raises the [total_episodes] of [/status] by one and
    logging its score raises it by one more, whatever the episode number:
    the count is of log lines, two for every analysed upload.  The file
    ends with a line end again.  The number formats and the time stamps
    print no line end. *)
Theorem status_counts_log_lines (content ts1 ts2 : text) (ep size att : Z)
    (filename : option text) (score time : Q) :
  terminated content = true ->
  one_line ts1 -> one_line ts2 ->
  match filename with Some name => one_line name | None => True end ->
  let before := total_episodes (log_stats false (Some content)) in
  let log1 :=
    log_video_received format_int format_int_4d format_fixed ts1 false
                       ep size att filename (Some content) in
  let log2 :=
    log_video_score format_int format_int_4d format_fixed ts2 false
                    ep size score time att log1 in
  total_episodes (log_stats false log1) = before + 1 /\
  total_episodes (log_stats false log2) = before + 2 /\
  exists content2, log2 = Some content2 /\ terminated content2 = true.
Proof.
  intros Ht H1 H2 Hname before log1 log2.
  destruct (received_entry_line ts1 ep size att filename H1 Hname)
    as [b1 [E1 [L1 I1]]].
  destruct (score_entry_line ts2 ep size score time att H2)
    as [m2 [E2 [L2 I2]]].
  unfold log2, log1, log_video_score, log_video_received, append_to.
  rewrite E1, E2.
  destruct (stats_after_append content b1 Ht L1 I1) as [S1 T1].
  destruct (stats_after_append (content ++ b1 ++ [LF]) _ T1 L2 I2)
    as [S2 T2].
  split; [exact S1|]. split.
  - unfold before. lia.
  - eexists. split; [reflexivity|exact T2].
Qed.

End Entries.

Lemma readlines_written (bodies : list text) :
  Forall one_line bodies ->
  readlines (List.concat (map (fun b => b ++ [LF]) bodies))
  = map (fun b => b ++ [LF]) bodies /\
  terminated (List.concat (map (fun b => b ++ [LF]) bodies)) = true.
Proof.
  induction bodies as [|b bodies IH] using rev_ind; intros H.
  - split; reflexivity.
  - apply Forall_app in H. destruct H as [Hbs Hb]. inversion Hb; subst.
    destruct (IH Hbs) as [IH1 IH2].
    rewrite map_app, concat_app. simpl List.concat. rewrite app_nil_r.
    split; [|apply terminated_app].
    rewrite readlines_append by assumption. now rewrite IH1.
Qed.

Lemma stamp_char_plain (c : ascii) :
  stamp_char c = true ->
  c <> LF /\ c <> CR /\ c <> "E"%char.
Proof.
  intros H. repeat split; intros ->; discriminate.
Qed.

Lemma is_stamp_line (ts : text) : is_stamp ts -> one_line ts.
Proof.
  destruct ts as [|c ts]; [intros []|]. intros [_ H].
  eapply Forall_impl; [|exact H]. simpl. intros d Hd.
  apply stamp_char_plain in Hd. tauto.
Qed.

Lemma header_lines (ts : text) :
  is_stamp ts ->
  readlines (List.concat (header ts)) = header ts /\
  terminated (List.concat (header ts)) = true /\
  filter (is_in (lit "Episode:")) (header ts) = [].
Proof.
  intros Hts. pose proof (is_stamp_line ts Hts) as Hl.
  assert (E : header ts = map (fun b => b ++ [LF]) (header_bodies ts)).
  { unfold header, header_bodies. simpl. rewrite <- ?app_assoc. reflexivity. }
  assert (Hb : Forall one_line (header_bodies ts)).
  { unfold header_bodies.
    apply Forall_cons; [apply one_line_check; reflexivity|].
    apply Forall_cons; [apply one_line_check; reflexivity|].
    apply Forall_cons;
      [apply one_line_app; [apply one_line_check; reflexivity|exact Hl]|].
    apply Forall_cons; [apply one_line_check; reflexivity|].
    apply Forall_cons; [apply one_line_check; reflexivity|].
    apply Forall_cons; [apply one_line_check; reflexivity|].
    apply Forall_nil. }
  destruct (readlines_written _ Hb) as [R T].
  rewrite E. split; [exact R|]. split; [exact T|].
  rewrite <- E. unfold header.
  assert (Hstarted : is_in (lit "Episode:") (lit "Started: " ++ ts ++ [LF])
                     = false).
  { apply is_in_absent. apply Forall_app. split.
    - repeat constructor; discriminate.
    - apply Forall_app. split.
      + destruct ts as [|c ts]; [destruct Hts|]. destruct Hts as [_ H].
        eapply Forall_impl; [|exact H]. simpl. intros d Hd.
        apply stamp_char_plain in Hd. tauto.
      + repeat constructor. discriminate. }
  cbn [filter]. rewrite Hstarted. reflexivity.
Qed.

(** X17. [initialize_log_file] leaves an existing log file as it is, so that a
    second call changes nothing; when the file cannot be opened none is
    made.  The file it makes reads back as the six lines of the header,
    ends with a line end, and counts as no episode in [/status]. *)
Theorem log_file_initialised_once (ts : text) :
  is_stamp ts ->
  let fresh := initialize_log_file ts false None in
  (forall content ts' r,
     initialize_log_file ts' r (Some content) = Some content) /\
  (forall ts' r, initialize_log_file ts' r fresh = fresh) /\
  (forall ts', initialize_log_file ts' true None = None) /\
  fresh = Some (List.concat (header ts)) /\
  readlines (List.concat (header ts)) = header ts /\
  terminated (List.concat (header ts)) = true /\
  total_episodes (log_stats false fresh) = 0 /\
  log_file_exists (log_stats false fresh) = true.
Proof.
  intros Hts fresh. destruct (header_lines ts Hts) as [R [T F]].
  split; [reflexivity|]. split; [reflexivity|]. split; [reflexivity|].
  split; [reflexivity|]. split; [exact R|]. split; [exact T|].
  unfold fresh, initialize_log_file, log_stats. cbv zeta.
  rewrite R, F. split; reflexivity.
Qed.

Lemma slice_tail {A : Type} (l : list A) (lines : Z) :
  Py.len l > lines ->
  Py.slice l (- lines) (Py.len l)
  = skipn (Z.to_nat (if 0 <? lines then Py.len l - lines
                     else Z.min (- lines) (Py.len l))) l.
Proof.
  intros Hgt. unfold Py.slice, Py.clip.
  assert (Hn : 0 <= Py.len l) by (unfold Py.len; lia).
  destruct (Z.ltb_spec (Py.len l) 0); [lia|].
  rewrite Z.min_id.
  destruct (Z.ltb_spec 0 lines).
  - destruct (Z.ltb_spec (- lines) 0); [|lia].
    rewrite Z.add_opp_r, Z.max_r by lia.
    apply firstn_all2. rewrite length_skipn. unfold Py.len in *. lia.
  - destruct (Z.ltb_spec (- lines) 0); [lia|].
    apply firstn_all2. rewrite length_skipn. unfold Py.len in *. lia.
Qed.

(** The lines [/logs] picks, and how many. *)
Lemma recent_lines_spec (all_lines : list text) (lines : Z) :
  let total := Py.len all_lines in
  let showing := if 0 <? lines then Z.min lines total
                 else Z.max (total + lines) 0 in
  (if total >? lines then Py.slice all_lines (- lines) total else all_lines)
  = skipn (Z.to_nat (total - showing)) all_lines /\
  Py.len (skipn (Z.to_nat (total - showing)) all_lines) = showing /\
  0 <= showing <= total.
Proof.
  intros total showing.
  assert (Hn : 0 <= total) by (unfold total, Py.len; lia).
  assert (Hs : 0 <= showing <= total).
  { unfold showing. destruct (Z.ltb_spec 0 lines); lia. }
  split; [|split; [|exact Hs]].
  - destruct (Z.gtb_spec total lines).
    + unfold total. rewrite slice_tail by (fold total; lia). fold total.
      f_equal. f_equal. unfold showing.
      destruct (Z.ltb_spec 0 lines); lia.
    + replace (Z.to_nat (total - showing)) with 0%nat; [reflexivity|].
      unfold showing. destruct (Z.ltb_spec 0 lines); lia.
  - unfold Py.len. rewrite length_skipn. unfold total, Py.len in *. lia.
Qed.

(** X18. [/logs] reports the number of lines of the file and shows the last
    [min(lines, total)] of them for a positive [lines]; for [lines <= 0] it
    shows the lines from index [-lines] on, which for [lines = 0] is the
    whole file.  The lines shown are stripped and the empty ones dropped. *)
Theorem recent_logs_window (content : text) (lines : Z) :
  let all_lines := readlines content in
  let total := Py.len all_lines in
  let showing := if 0 <? lines then Z.min lines total
                 else Z.max (total + lines) 0 in
  get_recent_logs false lines (Some content)
  = Return (RecentLogs total showing
              (filter nonempty
                 (map strip (skipn (Z.to_nat (total - showing)) all_lines)))) /\
  0 <= showing <= total /\
  (lines = 0 -> showing = total).
Proof.
  intros all_lines total showing.
  destruct (recent_lines_spec all_lines lines) as [E [L B]].
  fold total in E, L, B. fold showing in E, L, B.
  split; [|split; [exact B|]].
  - unfold get_recent_logs. fold all_lines. fold total. cbv zeta.
    rewrite E, L. reflexivity.
  - intros ->. unfold showing. simpl. unfold total, Py.len. lia.
Qed.

Lemma rstrip_idempotent (s : text) : rstrip (rstrip s) = rstrip s.
Proof.
  induction s as [|c s IH]; [reflexivity|].
  simpl. destruct (rstrip s) as [|k ks] eqn:E.
  - destruct (isspace c) eqn:Hc; [reflexivity|].
    simpl. now rewrite Hc.
  - simpl. simpl in IH. destruct (rstrip ks) as [|k' ks'] eqn:E'.
    + destruct (isspace k); [discriminate|]. inversion IH; subst. reflexivity.
    + inversion IH; subst. reflexivity.
Qed.

Lemma lstrip_head (s : text) :
  match lstrip s with
  | [] => True
  | c :: _ => isspace c = false
  end.
Proof.
  induction s as [|c s IH]; simpl; [exact I|].
  destruct (isspace c) eqn:Hc; [exact IH|exact Hc].
Qed.

Lemma rstrip_head (c : ascii) (s : text) :
  isspace c = false -> exists t, rstrip (c :: s) = c :: t.
Proof.
  intros Hc. simpl. destruct (rstrip s); [rewrite Hc|]; eauto.
Qed.

Lemma strip_idempotent (s : text) : strip (strip s) = strip s.
Proof.
  unfold strip. pose proof (lstrip_head s) as Hh.
  destruct (lstrip s) as [|c u] eqn:E; [reflexivity|].
  destruct (rstrip_head c u Hh) as [t Ht].
  set (v := rstrip (c :: u)) in *.
  assert (Hl : lstrip v = v) by (rewrite Ht; simpl; now rewrite Hh).
  rewrite Hl. unfold v. apply rstrip_idempotent.
Qed.

(** X19. [/logs] answers that there is no log file exactly when there is none,
    and raises a 500 exactly when the file is there and reading it fails.
    Otherwise every entry it returns is a line of the file, stripped, not
    empty and without blanks at its ends, and there are at most
    [showing_lines] of them. *)
Theorem recent_logs_are_stripped (read_raises : bool) (lines : Z)
    (log : option text) :
  match get_recent_logs read_raises lines log with
  | Return (NoLogFile message logs) =>
      log = None /\ message = "No log file found"%string /\ logs = []
  | Return (RecentLogs total showing logs) =>
      exists content,
        log = Some content /\ read_raises = false /\
        total = Py.len (readlines content) /\
        0 <= showing <= total /\
        Py.len logs <= showing /\
        forall entry, In entry logs ->
          entry <> [] /\ strip entry = entry /\
          exists line, In line (readlines content) /\ entry = strip line
  | Raise e =>
      e = HTTPException 500 /\ log <> None /\ read_raises = true
  end.
Proof.
  unfold get_recent_logs. destruct log as [content|]; [|auto].
  destruct read_raises.
  { repeat split; auto. discriminate. }
  destruct (recent_lines_spec (readlines content) lines) as [E [L B]].
  cbv zeta. rewrite E, L.
  set (recent := skipn _ (readlines content)) in *.
  exists content. repeat split; auto; try lia.
  - rewrite <- L. unfold Py.len.
    pose proof (filter_length_le nonempty (map strip recent)) as Hf.
    rewrite length_map in Hf. lia.
  - apply filter_In in H. destruct H as [_ H].
    intros ->. discriminate.
  - apply filter_In in H. destruct H as [H _].
    apply in_map_iff in H. destruct H as [line [<- _]].
    apply strip_idempotent.
  - apply filter_In in H. destruct H as [H _].
    apply in_map_iff in H. destruct H as [line [<- Hin]].
    exists line. split; [|reflexivity].
    unfold recent in Hin.
    rewrite <- (firstn_skipn (Z.to_nat
                  (Py.len (readlines content)
                   - (if 0 <? lines
                      then Z.min lines (Py.len (readlines content))
                      else Z.max (Py.len (readlines content) + lines) 0)))
                  (readlines content)).
    apply in_or_app. now right.
Qed.

Lemma rstrip_snoc_space (s : text) (d : ascii) :
  isspace d = true -> rstrip (s ++ [d]) = rstrip s.
Proof.
  intros Hd. induction s as [|c s IH]; simpl; [now rewrite Hd|].
  now rewrite IH.
Qed.

Lemma rstrip_snoc_keep (s : text) (d : ascii) :
  isspace d = false -> rstrip (s ++ [d]) = s ++ [d].
Proof.
  intros Hd. induction s as [|c s IH]; simpl; [now rewrite Hd|].
  rewrite IH. destruct (s ++ [d]) eqn:E; [destruct s; discriminate|].
  reflexivity.
Qed.

Section RoundTrip.

Variable format_int : Z -> text.
Variable format_int_4d : Z -> text.
Variable format_fixed : nat -> nat -> Q -> text.

Hypothesis format_int_line : forall n, one_line (format_int n).
Hypothesis format_int_4d_line : forall n, one_line (format_int_4d n).
Hypothesis format_fixed_line : forall w p x, one_line (format_fixed w p x).

(** X20. Right after a score is logged to a file that ends with a line end,
    [/logs?lines=1] returns exactly that entry, without its line end, and
    reports one line more than the file had.  The number formats print no
    line end and the time stamp is one of [strftime]. *)
Theorem logged_score_is_latest_log (content ts : text) (ep size : Z)
    (score time : Q) (att : Z) :
  terminated content = true ->
  is_stamp ts ->
  let log' :=
    log_video_score format_int format_int_4d format_fixed ts false
                    ep size score time att (Some content) in
  exists entry,
    score_entry format_int format_int_4d format_fixed ts ep size score time att
    = entry ++ [LF] /\
    get_recent_logs false 1 log'
    = Return (RecentLogs (Py.len (readlines content) + 1) 1 [entry]).
Proof.
  intros Ht Hts log'.
  pose proof (is_stamp_line ts Hts) as Hl.
  destruct (score_entry_line format_int format_int_4d format_fixed
              format_int_line format_int_4d_line format_fixed_line
              ts ep size score time att Hl) as [middle [E [L _]]].
  set (entry := ts ++ middle ++ lit "s") in *.
  exists entry. split; [exact E|].
  unfold log', log_video_score, append_to. rewrite E.
  destruct (recent_logs_window (content ++ entry ++ [LF]) 1) as [R _].
  rewrite R. clear R.
  rewrite readlines_append by assumption.
  assert (Hlen : Py.len (readlines content ++ [entry ++ [LF]])
                 = Py.len (readlines content) + 1).
  { unfold Py.len. rewrite length_app. simpl. lia. }
  rewrite Hlen.
  assert (Hn : 0 <= Py.len (readlines content)) by (unfold Py.len; lia).
  change (0 <? 1) with true. cbv iota.
  rewrite Z.min_l by lia.
  replace (Py.len (readlines content) + 1 - 1)
    with (Py.len (readlines content)) by lia.
  unfold Py.len at 2. rewrite Nat2Z.id.
  rewrite skipn_app, skipn_all, Nat.sub_diag. simpl skipn. simpl app.
  assert (Hstrip : strip (entry ++ [LF]) = entry).
  { unfold strip.
    destruct ts as [|c ts']; [destruct Hts|]. destruct Hts as [Hc _].
    assert (E1 : entry = (c :: ts' ++ middle) ++ ["s"%char]).
    { unfold entry. change (lit "s") with ["s"%char]. simpl.
      now rewrite app_assoc. }
    rewrite E1.
    assert (Hlk : forall rest, lstrip (c :: rest) = c :: rest).
    { intros rest. simpl. now rewrite Hc. }
    change (((c :: ts' ++ middle) ++ ["s"%char]) ++ [LF])
      with (c :: ((ts' ++ middle) ++ ["s"%char]) ++ [LF]).
    rewrite Hlk.
    change (c :: ((ts' ++ middle) ++ ["s"%char]) ++ [LF])
      with (((c :: ts' ++ middle) ++ ["s"%char]) ++ [LF]).
    rewrite rstrip_snoc_space by reflexivity.
    apply rstrip_snoc_keep. reflexivity. }
  simpl map. rewrite Hstrip. simpl.
  destruct entry eqn:Hentry; [|reflexivity].
  unfold entry in Hentry. destruct ts; [destruct Hts|discriminate].
Qed.

End RoundTrip.

End ScoreLogFacts.

Module PyFormatFacts.
Import ScoreLog PyFormat.

Lemma uint_line (u : Decimal.uint) :
  one_line (list_ascii_of_string (DecimalString.NilEmpty.string_of_uint u)).
Proof.
  induction u; simpl; [constructor|..];
    (constructor; [split; discriminate|assumption]).
Qed.

Lemma digits_line (n : Z) : one_line (digits n).
Proof.
  unfold digits, DecimalString.NilZero.string_of_uint.
  destruct (N.to_uint (Z.to_N n)) eqn:E;
    try (rewrite <- E; apply uint_line).
  repeat constructor; discriminate.
Qed.

Lemma rjust_line (width : nat) (fill : ascii) (s : list ascii) :
  fill <> LF -> fill <> CR -> one_line s -> one_line (rjust width fill s).
Proof.
  intros H1 H2 Hs. unfold rjust. apply Forall_app. split; [|exact Hs].
  apply Forall_forall. intros c Hc. apply repeat_spec in Hc. subst. auto.
Qed.

Lemma format_int_line (n : Z) : one_line (format_int n).
Proof.
  unfold format_int. destruct (n <? 0); [constructor|]; try apply digits_line.
  split; discriminate.
Qed.

Lemma format_int_4d_line (n : Z) : one_line (format_int_4d n).
Proof.
  apply rjust_line; try discriminate. apply format_int_line.
Qed.

Lemma format_fixed_line (width precision : nat) (x : Q) :
  one_line (format_fixed width precision x).
Proof.
  unfold format_fixed. apply rjust_line; try discriminate.
  apply Forall_app. split.
  { destruct (Qnum x <? 0); repeat constructor; discriminate. }
  apply Forall_app. split; [apply digits_line|].
  destruct precision; [constructor|].
  constructor; [split; discriminate|].
  apply rjust_line; try discriminate. apply digits_line.
Qed.

Example formats_run :
  format_int 1 = lit "1" /\
  format_int_4d 7 = lit "   7" /\
  format_int_4d (-12345) = lit "-12345" /\
  format_fixed 6 2 (megabytes 1500) = lit "  0.00" /\
  format_fixed 6 4 (3 # 4) = lit "0.7500" /\
  format_fixed 6 2 (1 # 8) = lit "  0.12" /\
  format_fixed 6 2 (3 # 8) = lit "  0.38" /\
  format_fixed 6 2 (- (9877 # 8)) = lit "-1234.62".
Proof. repeat split; vm_compute; reflexivity. Qed.

End PyFormatFacts.

Section StatusFacts.

Context {frame : Type}.
Variable env : Env frame.
Variable get_device_name : string + string.

(** X21. The device report names no device for a model before the model is
    loaded; it names a GPU exactly when CUDA is reported available, which
    needs torch; and once a getter has loaded its model, the report gives
    that model's device as [cuda] when CUDA is available and [cpu]
    otherwise, the other model's entry unchanged. *)
Theorem device_summary_follows_registry (w : World) :
  let report := get_device_summary env get_device_name in
  (summary_sam2_device (report fresh_world) = None /\
   video_classifier_device (report fresh_world) = None) /\
  (gpu_name (report w) <> None <-> summary_cuda_available (report w) = true) /\
  (summary_cuda_available (report w) = true ->
   summary_torch_available (report w) = true) /\
  (forall c w',
     video_classifier w = None ->
     get_video_classifier_components env w = (Return c, w') ->
     video_classifier_device (report w')
     = Some (if summary_cuda_available (report w') then "cuda"%string
             else "cpu"%string) /\
     summary_sam2_device (report w') = summary_sam2_device (report w)) /\
  (forall c w',
     sam2_predictor w = None ->
     get_sam2_components env w = (Return c, w') ->
     summary_sam2_device (report w')
     = Some (if summary_cuda_available (report w') then "cuda"%string
             else "cpu"%string) /\
     video_classifier_device (report w') = video_classifier_device (report w)).
Proof.
  intros report. unfold report, get_device_summary.
  split; [|split; [|split; [|split]]].
  - destruct (torch_available env), (cuda_is_available env); simpl; auto.
  - destruct (torch_available env), (cuda_is_available env); simpl;
      split; try discriminate; try congruence.
    destruct get_device_name; discriminate.
  - destruct (torch_available env), (cuda_is_available env); simpl;
      auto; discriminate.
  - intros c w' Hnone H. unfold get_video_classifier_components in H.
    destruct (TRANSFORMERS_AVAILABLE env); simpl in H; [|discriminate].
    destruct (torch_available env) eqn:Ht; simpl in H; [|discriminate].
    unfold new_model, bind, call, emit, modify, get_world, ret in H.
    rewrite Hnone in H.
    destruct (raises env VideoMAEImageProcessor_from_pretrained);
      [discriminate|]. simpl in H.
    destruct (raises env VideoMAEForVideoClassification_from_pretrained);
      [discriminate|]. simpl in H.
    destruct (raises env video_classifier_to); [discriminate|].
    destruct (raises env video_classifier_eval); [discriminate|].
    simpl in H. inversion H; subst. clear H. unfold select_device.
    destruct (cuda_is_available env); simpl; auto.
  - intros c w' Hnone H. unfold get_sam2_components in H.
    destruct (SAM2_AVAILABLE env); simpl in H; [|discriminate].
    destruct (torch_available env) eqn:Ht; simpl in H; [|discriminate].
    destruct (cv2_available env); simpl in H; [|discriminate].
    unfold new_model, bind, call, emit, modify, get_world, ret in H.
    rewrite Hnone in H.
    destruct (raises env build_sam2_video_predictor_hf); [discriminate|].
    simpl in H.
    destruct (raises env SAM2AutomaticMaskGenerator); [discriminate|].
    simpl in H. inversion H; subst. clear H. unfold select_device.
    destruct (cuda_is_available env); simpl; auto.
Qed.

(** X22. [/health] and [/status] always answer, reading the clock once, and
    report the same size limit, 100 MB, and the timeout of 120 seconds,
    with the device report of the process and, for [/status], the
    statistics of the log.  The limit they report is the one enforced: an
    upload that declares more bytes than that many MB is answered 413. *)
Theorem advertised_limit_is_enforced (read_raises : bool)
    (log : option (list ascii)) (w : World) :
  exists h s,
    health_check env get_device_name w
    = (Return h, set_ticks (S (ticks w)) w) /\
    get_server_status env get_device_name read_raises log w
    = (Return s, set_ticks (S (ticks w)) w) /\
    health_max_file_size_mb h = status_max_file_size_mb s /\
    (health_max_file_size_mb h == 100)%Q /\
    health_timeout_seconds h = 120 /\
    status_timeout_seconds s = 120 /\
    health_gpu h = get_device_summary env get_device_name w /\
    status_gpu s = get_device_summary env get_device_name w /\
    status_log_statistics s = ScoreLog.log_stats read_raises log /\
    forall (req : Upload) (w0 : World),
      (health_max_file_size_mb h * 1024 * 1024 < inject_Z (file_size req))%Q ->
      fst (upload_video env req w0) = Raise (HTTPException 413).
Proof.
  eexists. eexists. split; [reflexivity|]. split; [reflexivity|]. simpl.
  repeat split.
  intros req w0 Hbig.
  assert (Hz : MAX_FILE_SIZE < file_size req).
  { rewrite Zlt_Qlt. eapply Qle_lt_trans; [|exact Hbig].
    unfold max_file_size_mb, MAX_FILE_SIZE. apply Qle_lteq. right.
    reflexivity. }
  unfold upload_video, upload_video_with, try_except.
  unfold bind at 1. unfold time_time at 1.
  destruct (Z.gtb_spec (file_size req) MAX_FILE_SIZE); [reflexivity|lia].
Qed.

End StatusFacts.

(** ** Segmentation stage *)


#[local] Arguments fs_create : simpl never.
#[local] Arguments fs_remove : simpl never.
#[local] Arguments fs_append : simpl never.
#[local] Arguments listed : simpl never.
#[local] Arguments Nat.eqb : simpl never.

Section SegmentationFacts.

Context {frame : Type}.
Variable env : Env frame.

#[local] Ltac run_segment H :=
  unfold segment_uploaded_video, get_sam2_components, with_TemporaryDirectory,
    new_temp, new_model, try_except, try_finally, bind, call, emit, modify,
    get_world, ret, raise in H; simpl in H.

#[local] Ltac blocker t :=
  lazymatch t with
  | match ?x with _ => _ end => blocker x
  | (match ?x with _ => _ end) _ => blocker x
  | _ => t
  end.

#[local] Ltac fork H :=
  lazymatch type of H with
  | (_, _) = _ => fail
  | ?l = _ => let b := blocker l in destruct b eqn:?; simpl in H
  end.

#[local] Ltac grown :=
  unfold trace_grows; simpl;
  first [ exists []; reflexivity
        | eexists [_]; reflexivity
        | eexists [_; _]; reflexivity
        | eexists [_; _; _]; reflexivity
        | eexists [_; _; _; _]; reflexivity
        | eexists [_; _; _; _; _]; reflexivity
        | eexists [_; _; _; _; _; _]; reflexivity
        | eexists [_; _; _; _; _; _; _]; reflexivity ].

#[local] Ltac disk :=
  unfold exists_on_disk; simpl;
  rewrite ?listed_remove, ?listed_create, ?listed_append;
  repeat match goal with
         | |- context [Nat.eqb ?a ?b] => destruct (Nat.eqb_spec a b); simpl
         end;
  try reflexivity; try lia; try congruence.

(** Where the segmentation stage leaves the world. *)
Lemma segment_spec (p : path) (w : World) (out : outcome (option path))
    (w' : World) :
  segment_uploaded_video env p w = (out, w') ->
  exists r,
    out = Return r /\
    trace_grows w w' /\
    score_log w' = score_log w /\
    ticks w' = ticks w /\
    (next_tmp w <= next_tmp w')%nat /\
    (forall q, (q < next_tmp w)%nat \/ (next_tmp w' <= q)%nat ->
               exists_on_disk q w' = exists_on_disk q w) /\
    match r with
    | Some output_path =>
        (next_tmp w <= output_path < next_tmp w')%nat /\
        (forall q, (next_tmp w <= q < next_tmp w')%nat ->
                   exists_on_disk q w' = Nat.eqb q output_path) /\
        SAM2_AVAILABLE env = true /\ torch_available env = true /\
        cv2_available env = true /\
        Forall (fun c => raises env c = false) segmentation_steps /\
        (sam2_predictor w = None ->
         raises env build_sam2_video_predictor_hf = false /\
         raises env SAM2AutomaticMaskGenerator = false)
    | None =>
        Forall (fun c => raises env c = false) render_steps ->
        forall q, (next_tmp w <= q < next_tmp w')%nat ->
                  exists_on_disk q w' = false
    end.
Proof.
  intros H.
  unfold segment_uploaded_video in H. unfold bind at 1 in H.
  unfold emit, modify in H.
  destruct (SAM2_AVAILABLE env) eqn:Hsam, (torch_available env) eqn:Htorch,
    (cv2_available env) eqn:Hcv; simpl in H.
  all: run_segment H; rewrite ?Hsam, ?Htorch, ?Hcv in H; simpl in H.
  all: repeat fork H.
  all: inversion H; subst; clear H.
  all: eexists; (split; [reflexivity|]).
  all: split; [grown|].
  all: split; [reflexivity|]; split; [reflexivity|]; split; [simpl; lia|].
  all: split; [intros q Hq; simpl in Hq; disk|].
  all: simpl.
  all: try (intros Hrender q Hq; unfold render_steps in Hrender;
            repeat match goal with
                   | Hf : Forall _ (_ :: _) |- _ => inversion Hf; subst; clear Hf
                   end;
            try congruence; disk).
  all: repeat split; auto; try (intros; discriminate); try (simpl; lia).
  all: try (intros q Hq; disk).
  all: try (unfold segmentation_steps; repeat constructor; assumption).
Qed.
End SegmentationFacts.

(** ** What classification leaves alone *)

Lemma quiet_refl (w : World) : quiet w w.
Proof. repeat split. apply trace_grows_refl. Qed.

Lemma quiet_trans (a b c : World) : quiet a b -> quiet b c -> quiet a c.
Proof.
  intros [A1 [A2 [A3 [A4 A5]]]] [B1 [B2 [B3 [B4 B5]]]].
  repeat split; try congruence. eapply trace_grows_trans; eauto.
Qed.

Section ClassificationFrame.

Context {frame : Type}.
Variable env : Env frame.

#[local] Ltac quiet_step :=
  repeat split; simpl; try reflexivity;
  first [ now exists [] | eexists [_]; reflexivity ].

#[local] Ltac resp :=
  repeat first
    [ apply (respects_ret quiet quiet_refl)
    | apply (respects_raise quiet quiet_refl)
    | apply (respects_get_world quiet quiet_refl)
    | apply (respects_call quiet quiet_refl)
    | apply (respects_bind quiet quiet_trans); [|intros ?]
    | apply (respects_try_except quiet quiet_trans); [|intros ?]
    | apply (respects_try_finally quiet quiet_trans)
    | apply (respects_modify quiet); intros ?; quiet_step
    | match goal with
      | |- respects _ (match ?x with _ => _ end) => destruct x
      end ].

Lemma score_windows_quiet (windows : list (list frame)) :
  forall acc, respects quiet (score_windows env windows acc).
Proof.
  induction windows as [|win rest IH]; intros acc; simpl.
  - resp.
  - destruct win; [apply IH|].
    apply (respects_bind quiet quiet_trans); [|intros ?; apply IH].
    unfold score_window, emit. resp.
Qed.

Lemma classify_quiet (p : path) :
  respects quiet (classify_segmented_video env p).
Proof.
  unfold classify_segmented_video, load_video_frame_sequences,
    get_video_classifier_components, new_model, emit.
  resp. apply score_windows_quiet.
Qed.

Lemma classify_entered (p : path) (w : World) (out : outcome Q) (w' : World) :
  classify_segmented_video env p w = (out, w') ->
  In (EvClassify p) (trace w').
Proof.
  intros H.
  unfold classify_segmented_video in H. unfold bind at 1 in H.
  unfold emit, modify in H.
  match type of H with
  | ?m (set_trace ?t w) = _ =>
      assert (Hr : respects quiet m)
  end.
  { unfold load_video_frame_sequences, get_video_classifier_components,
      new_model, emit.
    resp. apply score_windows_quiet. }
  apply Hr in H. destruct H as [_ [_ [_ [_ Hg]]]].
  eapply trace_grows_In; [exact Hg|]. simpl. now left.
Qed.

End ClassificationFrame.

(** ** Upload handler *)

Section HandlerFacts.

Context {frame : Type}.
Variable env : Env frame.

Lemma log_video_received_returns (ep total att : Z) (w : World) :
  exists w', log_video_received env ep total att w = (Return tt, w') /\
             fs w' = fs w /\ next_tmp w' = next_tmp w /\ trace w' = trace w.
Proof.
  unfold log_video_received, try_except, bind, call, modify, ret.
  destruct (raises env score_log_write); eexists; split; try reflexivity;
    auto.
Qed.

Lemma log_video_score_returns (ep total : Z) (r t : Q) (att : Z) (w : World) :
  exists w', log_video_score env ep total r t att w = (Return tt, w') /\
             fs w' = fs w /\ next_tmp w' = next_tmp w /\ trace w' = trace w /\
             (raises env score_log_write = false ->
              score_log w' = Scored ep total r t att :: score_log w).
Proof.
  unfold log_video_score, try_except, bind, call, modify, ret.
  destruct (raises env score_log_write); eexists; split; try reflexivity;
    repeat split; auto; discriminate.
Qed.

(** Cleaning up never raises; it touches nothing but the file it is given,
    which is gone afterwards unless [os.remove] failed. *)
Lemma cleanup_spec (p : option path) (w : World) :
  exists w',
    cleanup env p w = (Return tt, w') /\
    next_tmp w' = next_tmp w /\
    score_log w' = score_log w /\
    trace_grows w w' /\
    (forall q, p <> Some q -> exists_on_disk q w' = exists_on_disk q w) /\
    (forall q, p = Some q ->
       exists_on_disk q w' = exists_on_disk q w && remove_raises env q).
Proof.
  destruct p as [p|]; simpl.
  { unfold bind, get_world. destruct (exists_on_disk p w) eqn:Hex.
    - unfold try_except, bind, os_remove. rewrite Hex. simpl.
      rewrite orb_false_r.
      destruct (remove_raises env p) eqn:Hrm; simpl.
      + eexists. split; [reflexivity|]. simpl.
        repeat split; auto.
        * now exists [EvRemoveFailed p].
        * intros q E. inversion E; subst. rewrite Hrm, andb_true_r.
          reflexivity.
      + eexists. split; [reflexivity|]. simpl.
        repeat split; auto.
        * now exists [EvRemove p].
        * intros q Hq. unfold exists_on_disk. simpl. rewrite listed_remove.
          destruct (Nat.eqb_spec q p); [subst; congruence|reflexivity].
        * intros q E. inversion E; subst. rewrite Hrm, andb_false_r.
          unfold exists_on_disk. simpl.
          now rewrite listed_remove, Nat.eqb_refl.
    - eexists. split; [reflexivity|]. repeat split; auto.
      + now exists [].
      + intros q E. inversion E; subst. now rewrite Hex. }
  eexists. split; [reflexivity|]. repeat split; auto.
  - now exists [].
  - discriminate.
Qed.

(** The streaming loop names no file and makes none appear or vanish. *)
Lemma receive_disk (tmp : path) (reads : list read_result) :
  forall (total : Z) (w : World) (out : outcome Z) (w' : World),
    receive env tmp reads total w = (out, w') ->
    next_tmp w' = next_tmp w /\
    forall q, exists_on_disk q w' = exists_on_disk q w.
Proof.
  induction reads as [|r reads IH]; intros total w out w' H; simpl in H.
  - inversion H; subst. auto.
  - destruct r as [n| |]; [|inversion H; subst; auto..].
    destruct (n <=? 0); [inversion H; subst; auto|].
    unfold bind at 1 in H. unfold tmp_write in H. unfold bind at 1 in H.
    destruct (call_cases env upload_write w) as [[_ E]|[_ E]];
      rewrite E in H; [|inversion H; subst; auto].
    unfold modify in H.
    destruct (total + n >? MAX_FILE_SIZE).
    + inversion H; subst. split; [reflexivity|].
      intros q. unfold exists_on_disk. simpl. apply listed_append.
    + apply IH in H. destruct H as [H1 H2]. split; [exact H1|].
      intros q. rewrite H2. unfold exists_on_disk. simpl. apply listed_append.
Qed.

(** What a successful ingestion says about the request and the world. *)
Lemma ingest_returns (req : Upload) (w : World) (tmp : path) (total : Z)
    (w2 : World) :
  ingest env req w = (Return (tmp, total), w2) ->
  (file_size req >? MAX_FILE_SIZE) = false /\
  wrong_content_type (content_type req) = false /\
  exists w1,
    new_temp env upload_NamedTemporaryFile (set_ticks (S (ticks w)) w)
      = (Return tmp, w1) /\
    receive env tmp (body req) 0 w1 = (Return total, w2).
Proof.
  unfold ingest. unfold bind at 1. unfold time_time at 1.
  destruct (file_size req >? MAX_FILE_SIZE); [discriminate|].
  destruct (wrong_content_type (content_type req)); [discriminate|].
  unfold bind at 1.
  destruct (new_temp env upload_NamedTemporaryFile (set_ticks (S (ticks w)) w))
    as [[tmp'|e] w1] eqn:Ht; [|discriminate].
  unfold bind at 1.
  destruct (receive env tmp' (body req) 0 w1) as [[total'|e] w2'] eqn:Hr;
    [|discriminate].
  unfold ret. intros H. inversion H; subst. eauto.
Qed.

Section AnyStages.

Variable segment : path -> M (option path).
Variable classify : path -> M Q.

(** The analysis always hands a reward back: what classification returned,
    or 0 when either stage raised. *)
Lemma analyse_with_run (req : Upload) (tmp : path) (total : Z) (w : World) :
  let wa := snd (time_time env w) in
  exists reward_value w',
    analyse_with env segment classify req tmp total w
      = (Return reward_value, w') /\
    (forall e wb, segment tmp wa = (Raise e, wb) -> reward_value = 0%Q) /\
    (forall sp wb e wc,
       segment tmp wa = (Return sp, wb) ->
       classify (classification_target sp tmp) wb = (Raise e, wc) ->
       reward_value = 0%Q) /\
    (forall sp wb r wc,
       segment tmp wa = (Return sp, wb) ->
       classify (classification_target sp tmp) wb = (Return r, wc) ->
       reward_value = r) /\
    (raises env score_log_write = false ->
     exists analysis_time older,
       score_log w' =
       Scored (episode_number req) total reward_value analysis_time
              (attempt_number req) :: older) /\
    (forall sp wb out wc,
       segment tmp wa = (Return sp, wb) ->
       classify (classification_target sp tmp) wb = (out, wc) ->
       trace_grows wc w').
Proof.
  intros wa. unfold analyse_with. unfold bind at 1.
  unfold time_time at 1. fold (time_time env w). simpl snd.
  change (set_ticks (S (ticks w)) w) with wa.
  unfold bind at 1.
  assert (Htail : forall sp r wc,
    exists w',
      (now <- time_time env ;;
       log_video_score env (episode_number req) total r
         (now - clock env (ticks w)) (attempt_number req) ;;
       cleanup env sp ;; ret r)%py wc = (Return r, w') /\
      trace_grows wc w' /\
      (raises env score_log_write = false ->
       exists analysis_time older,
         score_log w' =
         Scored (episode_number req) total r analysis_time
                (attempt_number req) :: older)).
  { intros sp r wc. unfold bind at 1. unfold time_time at 1.
    unfold bind at 1.
    destruct (log_video_score_returns (episode_number req) total r
                (clock env (ticks wc) - clock env (ticks w))
                (attempt_number req) (set_ticks (S (ticks wc)) wc))
      as [w4 [Hlog [_ [_ [Htr Hsl]]]]].
    rewrite Hlog. unfold bind at 1.
    destruct (cleanup_spec sp w4) as [w5 [Hc [_ [Hsl5 [Hg _]]]]].
    rewrite Hc. unfold ret. exists w5. split; [reflexivity|]. split.
    - destruct Hg as [new Hg]. exists new. rewrite Hg, Htr. reflexivity.
    - intros Hok. rewrite Hsl5, (Hsl Hok). eauto. }
  unfold try_except at 1. unfold bind at 1.
  destruct (segment tmp wa) as [[sp|e] wb] eqn:Hseg.
  - unfold try_except at 1. unfold bind at 1.
    destruct (classify (classification_target sp tmp) wb) as [[r|e] wc] eqn:Hcls.
    + unfold ret at 1. simpl fst. simpl snd.
      destruct (Htail sp r wc) as [w' [Hrun [Hg Hlog]]].
      exists r, w'. split; [exact Hrun|].
      repeat split; auto; try discriminate.
      * intros ? ? ? ? E1 E2. inversion E1; subst. congruence.
      * intros ? ? ? ? E1 E2. inversion E1; subst. congruence.
      * intros ? ? ? ? E1 E2. inversion E1; subst.
        rewrite Hcls in E2. inversion E2; subst. exact Hg.
    + unfold ret at 1. simpl fst. simpl snd.
      destruct (Htail sp 0%Q wc) as [w' [Hrun [Hg Hlog]]].
      exists 0%Q, w'. split; [exact Hrun|].
      repeat split; auto; try discriminate.
      * intros ? ? ? ? E1 E2. inversion E1; subst. congruence.
      * intros ? ? ? ? E1 E2. inversion E1; subst.
        rewrite Hcls in E2. inversion E2; subst. exact Hg.
  - unfold ret at 1. simpl fst. simpl snd.
    destruct (Htail None 0%Q wb) as [w' [Hrun [Hg Hlog]]].
    exists 0%Q, w'. split; [exact Hrun|].
    repeat split; auto; discriminate.
Qed.

(** The handler after a successful ingestion. *)
Lemma upload_with_run (req : Upload) (w : World)
    (tmp : path) (total : Z) (w2 : World) :
  ingest env req w = (Return (tmp, total), w2) ->
  let wa := analysis_world env req total w2 in
  exists reward_value w',
    upload_video_with env segment classify req w
      = (Return (mkUploadResponse "ok" None (Some (episode_number req))
                                  reward_value), w') /\
    (forall e wb, segment tmp wa = (Raise e, wb) -> reward_value = 0%Q) /\
    (forall sp wb e wc,
       segment tmp wa = (Return sp, wb) ->
       classify (classification_target sp tmp) wb = (Raise e, wc) ->
       reward_value = 0%Q) /\
    (forall sp wb r wc,
       segment tmp wa = (Return sp, wb) ->
       classify (classification_target sp tmp) wb = (Return r, wc) ->
       reward_value = r) /\
    (raises env score_log_write = false ->
     exists analysis_time older,
       score_log w' =
       Scored (episode_number req) total reward_value analysis_time
              (attempt_number req) :: older) /\
    (forall sp wb out wc,
       segment tmp wa = (Return sp, wb) ->
       classify (classification_target sp tmp) wb = (out, wc) ->
       trace_grows wc w').
Proof.
  intros Hing wa.
  destruct (ingest_returns _ _ _ _ _ Hing) as [Hsize [Hct [w1 [Htmp Hrecv]]]].
  unfold upload_video_with.
  unfold try_except at 1. unfold bind at 1. unfold time_time at 1.
  rewrite Hsize, Hct. unfold bind at 1. rewrite Htmp.
  unfold try_finally. unfold bind at 1. rewrite Hrecv.
  unfold bind at 1.
  destruct (log_video_received_returns (episode_number req) total
              (attempt_number req) w2) as [w3 [Hlog _]].
  assert (Hwa : wa = snd (time_time env w3)).
  { unfold wa, analysis_world. now rewrite Hlog. }
  rewrite Hlog. unfold bind at 1.
  destruct (analyse_with_run req tmp total w3)
    as [r [w4 [Hrun [Hs [Hc [Hok [Hsl Hg]]]]]]].
  rewrite <- Hwa in Hs, Hc, Hok, Hg.
  rewrite Hrun. unfold bind at 1. unfold time_time at 1. unfold ret at 1.
  destruct (cleanup_spec (Some tmp) (set_ticks (S (ticks w4)) w4))
    as [w5 [Hcl [_ [Hsl5 [Hg5 _]]]]].
  rewrite Hcl. exists r, w5. split; [reflexivity|].
  repeat split; auto.
  - intros Hw. rewrite Hsl5. simpl. auto.
  - intros sp wb out wc E1 E2.
    eapply trace_grows_trans; [eapply Hg; eauto|].
    destruct Hg5 as [new Hg5]. exists new. exact Hg5.
Qed.

(** The handler after a failed ingestion: the failure is what it answers. *)
Lemma upload_with_rejects (req : Upload) (w : World) (e : exn) (w2 : World) :
  ingest env req w = (Raise e, w2) ->
  exists w', upload_video_with env segment classify req w
             = (Raise (as_http e), w').
Proof.
  intros H. unfold ingest in H. unfold upload_video_with, try_except.
  unfold bind at 1 in H. unfold time_time at 1 in H.
  unfold bind at 1. unfold time_time at 1.
  destruct (file_size req >? MAX_FILE_SIZE).
  { inversion H; subst. eexists. reflexivity. }
  destruct (wrong_content_type (content_type req)).
  { inversion H; subst. eexists. reflexivity. }
  unfold bind at 1 in H. unfold bind at 1.
  destruct (new_temp env upload_NamedTemporaryFile (set_ticks (S (ticks w)) w))
    as [[tmp|e'] w1] eqn:Ht.
  2:{ inversion H; subst. destruct e; eexists; reflexivity. }
  unfold try_finally. unfold bind at 1 in H. unfold bind at 1.
  destruct (receive env tmp (body req) 0 w1) as [[total|e'] w2'] eqn:Hr.
  { unfold ret in H. discriminate. }
  inversion H; subst.
  destruct (cleanup_spec (Some tmp) w2) as [w5 [Hcl _]]. rewrite Hcl.
  destruct e; eexists; reflexivity.
Qed.

(** C2, as the code has it.  Once ingestion has succeeded, the handler
    returns and does not raise, whatever the two stages do.  The response
    carries status "ok", no file name, the episode number and a float
    [reward]; it has no [analysis_time] field: that value only goes to the
    score log.  The reward is what classification returned, and it is 0
    when the segmentation call or the classification call raised. *)
Theorem upload_returns_reward (req : Upload) (w : World)
    (tmp : path) (total : Z) (w2 : World) :
  ingest env req w = (Return (tmp, total), w2) ->
  let wa := analysis_world env req total w2 in
  exists resp w',
    upload_video_with env segment classify req w = (Return resp, w') /\
    status resp = "ok"%string /\
    filename resp = None /\
    resp_episode_number resp = Some (episode_number req) /\
    has_float_field "reward" resp = true /\
    json_get "analysis_time" (model_dump resp) = None /\
    (forall e wb, segment tmp wa = (Raise e, wb) -> reward resp = 0%Q) /\
    (forall sp wb e wc,
       segment tmp wa = (Return sp, wb) ->
       classify (classification_target sp tmp) wb = (Raise e, wc) ->
       reward resp = 0%Q) /\
    (forall sp wb r wc,
       segment tmp wa = (Return sp, wb) ->
       classify (classification_target sp tmp) wb = (Return r, wc) ->
       reward resp = r) /\
    (raises env score_log_write = false ->
     exists analysis_time older,
       score_log w' =
       Scored (episode_number req) total (reward resp) analysis_time
              (attempt_number req) :: older).
Proof.
  intros Hing wa.
  destruct (upload_with_run req w tmp total w2 Hing)
    as [r [w' [Hrun [Hs [Hc [Hok [Hsl _]]]]]]].
  eexists. exists w'. split; [exact Hrun|]. simpl.
  repeat split; auto.
Qed.

End AnyStages.
End HandlerFacts.

(** ** The pipeline as a whole *)

Section PipelineFacts.

Context {frame : Type}.
Variable env : Env frame.

Lemma segment_returns (p : path) (w : World) :
  exists r w',
    segment_uploaded_video env p w = (Return r, w') /\
    (SAM2_AVAILABLE env = false \/ torch_available env = false \/
     cv2_available env = false \/
     Exists (fun c => raises env c = true) segmentation_steps \/
     (sam2_predictor w = None /\
      (raises env build_sam2_video_predictor_hf = true \/
       raises env SAM2AutomaticMaskGenerator = true)) ->
     r = None).
Proof.
  destruct (segment_uploaded_video env p w) as [out w'] eqn:H.
  destruct (segment_spec env p w out w' H) as [r [-> [_ [_ [_ [_ [_ Hr]]]]]]].
  exists r, w'. split; [reflexivity|].
  destruct r as [output_path|]; [|reflexivity].
  destruct Hr as [_ [_ [Hs [Ht [Hc [Hsteps Hinit]]]]]].
  intros [E|[E|[E|[E|[Hnone E]]]]]; try congruence.
  - exfalso. apply Exists_exists in E. destruct E as [c [Hin Hc']].
    rewrite Forall_forall in Hsteps. specialize (Hsteps c Hin). congruence.
  - exfalso. destruct (Hinit Hnone) as [H1 H2]. destruct E; congruence.
Qed.

Lemma tidy_trans (a b c : World) : tidy env a b -> tidy env b c -> tidy env a c.
Proof.
  intros [A1 [A2 A3]] [B1 [B2 B3]]. repeat split.
  - lia.
  - intros q Hq Hex. apply A2; [exact Hq|]. apply B2; [lia|exact Hex].
  - intros q Hq Hex.
    destruct (Nat.lt_ge_cases q (next_tmp b)) as [Hlt|Hge].
    + apply A3; [lia|]. apply B2; [exact Hlt|exact Hex].
    + apply B3; [lia|exact Hex].
Qed.

(** Worlds with the same files and the same name supply. *)
Lemma tidy_same_disk (w w' : World) :
  next_tmp w' = next_tmp w ->
  (forall q, exists_on_disk q w' = exists_on_disk q w) ->
  tidy env w w'.
Proof.
  intros Hn Hd. repeat split.
  - lia.
  - intros q _ Hex. now rewrite <- Hd.
  - intros q Hq. lia.
Qed.

(** Segmentation, classification and the clean-up of the segmented clip,
    taken together, leave nothing behind but what could not be removed. *)
Lemma analyse_tidy (req : Upload) (tmp : path) (total : Z) (w : World)
    (out : outcome Q) (w' : World) :
  Forall (fun c => raises env c = false) render_steps ->
  analyse env req tmp total w = (out, w') ->
  tidy env w w'.
Proof.
  intros Hrender H. unfold analyse, analyse_with in H.
  unfold bind at 1 in H. unfold time_time at 1 in H.
  set (wa := set_ticks (S (ticks w)) w) in H.
  unfold bind at 1 in H. unfold try_except at 1 in H. unfold bind at 1 in H.
  destruct (segment_uploaded_video env tmp wa) as [so wb] eqn:Hseg.
  destruct (segment_spec env tmp wa so wb Hseg)
    as [sp [-> [_ [_ [_ [Hnext [Hold Hsp]]]]]]].
  unfold try_except at 1 in H. unfold bind at 1 in H.
  destruct (classify_segmented_video env (classification_target sp tmp) wb)
    as [co wc] eqn:Hcls.
  destruct (classify_quiet env _ _ _ _ Hcls) as [Hfs [Hnt _]].
  assert (Htail : forall r wt,
    (now <- time_time env ;;
     log_video_score env (episode_number req) total r
       (now - clock env (ticks w)) (attempt_number req) ;;
     cleanup env sp ;; ret r)%py wc = (out, wt) -> wt = w' ->
    tidy env w w').
  { intros r wt Ht <-. unfold bind at 1 in Ht. unfold time_time at 1 in Ht.
    unfold bind at 1 in Ht.
    destruct (log_video_score_returns env (episode_number req) total r
                (clock env (ticks wc) - clock env (ticks w))
                (attempt_number req) (set_ticks (S (ticks wc)) wc))
      as [w4 [Hlog [Hfs4 [Hnt4 _]]]].
    rewrite Hlog in Ht. unfold bind at 1 in Ht.
    destruct (cleanup_spec env sp w4) as [w5 [Hc [Hn5 [_ [_ [Ho Hs]]]]]].
    rewrite Hc in Ht. unfold ret in Ht. inversion Ht; subst wt.
    assert (Hd4 : forall q, exists_on_disk q w4 = exists_on_disk q wb).
    { intros q. unfold exists_on_disk. rewrite Hfs4. simpl. now rewrite Hfs. }
    assert (Hn : next_tmp w5 = next_tmp wb).
    { rewrite Hn5, Hnt4. simpl. exact Hnt. }
    assert (Hwa : next_tmp wa = next_tmp w) by reflexivity.
    assert (Hda : forall q, exists_on_disk q wa = exists_on_disk q w)
      by reflexivity.
    repeat split.
    - lia.
    - intros q Hq Hex. rewrite <- Hda, <- Hold by lia. rewrite <- Hd4.
      destruct sp as [output_path|].
      + destruct (Nat.eq_dec output_path q) as [->|Hne].
        * rewrite (Hs q eq_refl) in Hex. apply andb_prop in Hex. tauto.
        * rewrite Ho in Hex; [exact Hex|congruence].
      + rewrite Ho in Hex; [exact Hex|discriminate].
    - intros q Hq Hex. rewrite Hn in Hq.
      destruct sp as [output_path|].
      + destruct Hsp as [_ [Honly _]].
        destruct (Nat.eq_dec output_path q) as [->|Hne].
        * rewrite (Hs q eq_refl) in Hex. apply andb_prop in Hex. tauto.
        * rewrite Ho, Hd4, Honly in Hex by (try congruence; lia).
          apply Nat.eqb_eq in Hex. congruence.
      + rewrite Ho, Hd4, (Hsp Hrender) in Hex by (try discriminate; lia).
        discriminate. }
  destruct co as [r|e]; unfold ret at 1 in H; simpl fst in H; simpl snd in H;
    eapply Htail; eauto.
Qed.

Lemma new_temp_spec (c : ext_call) (w : World) (out : outcome path)
    (w' : World) :
  new_temp env c w = (out, w') ->
  match out with
  | Return p =>
      p = next_tmp w /\ next_tmp w' = S p /\
      forall q, exists_on_disk q w' = Nat.eqb p q || exists_on_disk q w
  | Raise _ => w' = w
  end.
Proof.
  unfold new_temp. unfold bind at 1.
  destruct (call_cases env c w) as [[_ E]|[_ E]]; rewrite E.
  - unfold bind, get_world, modify, emit, ret. simpl.
    intros H. inversion H; subst. auto.
  - intros H. now inversion H.
Qed.

(** Lines 557-627 after the temporary file was made: the streaming loop, the
    two log lines and the analysis. *)
Lemma upload_body_tidy (req : Upload) (tmp : path) (w : World)
    (out : outcome UploadResponse) (w' : World) :
  Forall (fun c => raises env c = false) render_steps ->
  (total_size <- receive env tmp (body req) 0 ;;
   log_video_received env (episode_number req) total_size
                      (attempt_number req) ;;
   reward_value <- analyse env req tmp total_size ;;
   upload_end <- time_time env ;;
   ret (mkUploadResponse "ok" None (Some (episode_number req))
                         reward_value))%py w = (out, w') ->
  tidy env w w'.
Proof.
  intros Hrender H. unfold bind at 1 in H.
  destruct (receive env tmp (body req) 0 w) as [ro w1] eqn:Hr.
  destruct (receive_disk env _ _ _ _ _ _ Hr) as [Hn1 Hd1].
  assert (T1 : tidy env w w1) by (now apply tidy_same_disk).
  destruct ro as [total|e]; [|inversion H; subst; exact T1].
  unfold bind at 1 in H.
  destruct (log_video_received_returns env (episode_number req) total
              (attempt_number req) w1) as [w2 [Hlog [Hfs2 [Hn2 _]]]].
  rewrite Hlog in H.
  assert (T2 : tidy env w1 w2).
  { apply tidy_same_disk; [exact Hn2|].
    intros q. unfold exists_on_disk. now rewrite Hfs2. }
  unfold bind at 1 in H.
  destruct (analyse env req tmp total w2) as [ao w3] eqn:Ha.
  pose proof (analyse_tidy _ _ _ _ _ _ Hrender Ha) as T3.
  assert (T : tidy env w w3).
  { eapply tidy_trans; [exact T1|]. eapply tidy_trans; eauto. }
  destruct ao as [r|e]; [|inversion H; subst; exact T].
  unfold bind, time_time, ret in H. inversion H; subst.
  eapply tidy_trans; [exact T|]. apply tidy_same_disk; reflexivity.
Qed.

Lemma upload_tidy (req : Upload) (w : World) (out : outcome UploadResponse)
    (w' : World) :
  Forall (fun c => raises env c = false) render_steps ->
  upload_video env req w = (out, w') ->
  tidy env w w'.
Proof.
  intros Hrender H. unfold upload_video, upload_video_with in H.
  assert (Hhandler : forall (r : outcome UploadResponse) (w1 : World),
            match r with
            | Return a => (Return a, w1)
            | Raise e =>
                match e with
                | HTTPException c => raise (HTTPException c)
                | _ => raise (HTTPException 500)
                end w1
            end = (out, w') -> w1 = w').
  { intros [a|[c| |s]] w1 E; unfold raise in E; now inversion E. }
  unfold try_except in H.
  match type of H with
  | match ?m with _ => _ end = _ => destruct m as [r w1] eqn:Hm
  end.
  apply Hhandler in H. subst w1. clear Hhandler.
  unfold bind at 1 in Hm. unfold time_time at 1 in Hm.
  set (w0 := set_ticks (S (ticks w)) w) in Hm.
  assert (H0 : tidy env w w0) by (apply tidy_same_disk; reflexivity).
  destruct (file_size req >? MAX_FILE_SIZE).
  { inversion Hm; subst. exact H0. }
  destruct (wrong_content_type (content_type req)).
  { inversion Hm; subst. exact H0. }
  unfold bind at 1 in Hm.
  destruct (new_temp env upload_NamedTemporaryFile w0) as [to w1] eqn:Ht.
  apply new_temp_spec in Ht.
  destruct to as [tmp|e].
  2:{ subst w1. inversion Hm; subst. exact H0. }
  destruct Ht as [Htmp [Hn1 Hd1]].
  unfold try_finally in Hm.
  match type of Hm with
  | match ?m with _ => _ end = _ => destruct m as [rb wb] eqn:Hb
  end.
  fold (analyse env) in Hb.
  apply (upload_body_tidy req tmp w1 rb wb Hrender) in Hb.
  destruct Hb as [B1 [B2 B3]].
  destruct (cleanup_spec env (Some tmp) wb) as [w5 [Hc [Hn5 [_ [_ [Ho Hs]]]]]].
  rewrite Hc in Hm. inversion Hm; subst w5.
  assert (Hw0 : next_tmp w0 = next_tmp w) by reflexivity.
  assert (Hd0 : forall q, exists_on_disk q w0 = exists_on_disk q w)
    by reflexivity.
  repeat split.
  - lia.
  - intros q Hq Hex. rewrite <- Hd0.
    assert (Hne : tmp <> q) by lia.
    rewrite Ho in Hex by congruence.
    apply B2 in Hex; [|lia]. rewrite Hd1 in Hex.
    apply Nat.eqb_neq in Hne. rewrite Hne in Hex. exact Hex.
  - intros q Hq Hex.
    destruct (Nat.eq_dec tmp q) as [<-|Hne].
    + rewrite (Hs tmp eq_refl) in Hex. apply andb_prop in Hex. tauto.
    + rewrite Ho in Hex by congruence. apply B3; [lia|exact Hex].
Qed.

(** Whether [os.remove] fails has no say in what the handler answers. *)
Lemma upload_ignores_remove_failures (g : path -> bool) (req : Upload)
    (w : World) :
  fst (upload_video (with_remove_raises g env) req w)
  = fst (upload_video env req w).
Proof.
  set (env' := with_remove_raises g env).
  set (seg := segment_uploaded_video env).
  set (cls := classify_segmented_video env).
  change (upload_video env' req w)
    with (upload_video_with env' seg cls req w).
  change (upload_video env req w)
    with (upload_video_with env seg cls req w).
  destruct (ingest env req w) as [[[tmp total]|e] w2] eqn:Hi.
  - assert (Hi' : ingest env' req w = (Return (tmp, total), w2)) by exact Hi.
    destruct (upload_with_run env seg cls req w tmp total w2 Hi)
      as [r [w' [Hrun [Hs [Hc [Hok _]]]]]].
    destruct (upload_with_run env' seg cls req w tmp total w2 Hi')
      as [r' [w'' [Hrun' [Hs' [Hc' [Hok' _]]]]]].
    change (analysis_world env' req total w2)
      with (analysis_world env req total w2) in Hs', Hc', Hok'.
    rewrite Hrun, Hrun'. simpl. do 2 f_equal.
    destruct (seg tmp (analysis_world env req total w2))
      as [[sp|e] wb] eqn:Hseg.
    + destruct (cls (classification_target sp tmp) wb) as [[v|e] wc] eqn:Hcls.
      * rewrite (Hok _ _ _ _ eq_refl Hcls), (Hok' _ _ _ _ eq_refl Hcls).
        reflexivity.
      * rewrite (Hc _ _ _ _ eq_refl Hcls), (Hc' _ _ _ _ eq_refl Hcls).
        reflexivity.
    + rewrite (Hs _ _ eq_refl), (Hs' _ _ eq_refl). reflexivity.
  - assert (Hi' : ingest env' req w = (Raise e, w2)) by exact Hi.
    destruct (upload_with_rejects env seg cls req w e w2 Hi) as [w' Hrun].
    destruct (upload_with_rejects env' seg cls req w e w2 Hi') as [w'' Hrun'].
    rewrite Hrun, Hrun'. reflexivity.
Qed.

Lemma as_http_413 (e : exn) :
  as_http e = HTTPException 413 -> e = HTTPException 413.
Proof. destruct e; simpl; intros H; inversion H; reflexivity. Qed.

(** C10.  The size limit is enforced on the bytes that arrive.  The
    declared size defaults to 0, and any declaration up to the maximum lets
    the upload through to the streaming loop, whatever the body holds.  The
    loop ends with the client error 413 exactly when the bytes written to
    the temporary file exceed the maximum, which they do by the last chunk
    written and not before; so the file never holds more than the maximum
    plus one chunk of 1 MiB.  The handler answers 413 in exactly that
    case. *)
Theorem streamed_size_limit (req : Upload) (w : World) :
  file_size req <= MAX_FILE_SIZE ->
  wrong_content_type (content_type req) = false ->
  raises env upload_NamedTemporaryFile = false ->
  Forall within_chunk (body req) ->
  let tmp := next_tmp w in
  let w0 := snd (new_temp env upload_NamedTemporaryFile
                   (snd (time_time env w))) in
  (forall ep att ct b, file_size (upload_form ep att None ct b) = 0) /\
  0 <= MAX_FILE_SIZE /\
  exists_on_disk tmp w0 = true /\
  size_on_disk tmp w0 = 0 /\
  exists out w1,
    receive env tmp (body req) 0 w0 = (out, w1) /\
    size_on_disk tmp w1 <= MAX_FILE_SIZE + CHUNK_SIZE /\
    (too_large out <-> MAX_FILE_SIZE < size_on_disk tmp w1) /\
    (too_large out ->
       exists n, In (Chunk n) (body req) /\
                 size_on_disk tmp w1 - n <= MAX_FILE_SIZE) /\
    (forall t, out = Return t -> t = size_on_disk tmp w1) /\
    (fst (upload_video env req w) = Raise (HTTPException 413)
     <-> MAX_FILE_SIZE < size_on_disk tmp w1).
Proof.
  intros Hdecl Hct Htmp Hchunks tmp w0.
  assert (Hw0 : new_temp env upload_NamedTemporaryFile (snd (time_time env w))
                = (Return tmp, w0)).
  { unfold w0, new_temp, bind, call. rewrite Htmp. reflexivity. }
  assert (Hex : exists_on_disk tmp w0 = true).
  { unfold w0, new_temp, bind, call. rewrite Htmp. simpl.
    unfold exists_on_disk. simpl. rewrite listed_create.
    unfold tmp. now rewrite Nat.eqb_refl. }
  assert (Hsz : size_on_disk tmp w0 = 0).
  { unfold w0, new_temp, bind, call. rewrite Htmp. simpl.
    unfold size_on_disk, size_in, fs_create. simpl. unfold tmp.
    now rewrite Nat.eqb_refl. }
  split; [reflexivity|]. split; [unfold MAX_FILE_SIZE; lia|].
  split; [exact Hex|]. split; [exact Hsz|].
  destruct (receive env tmp (body req) 0 w0) as [out w1] eqn:Hrecv.
  exists out, w1. split; [reflexivity|].
  destruct (receive_bounded env tmp (body req) Hchunks 0 w0 out w1 Hex Hsz
              ltac:(unfold MAX_FILE_SIZE; lia) Hrecv) as [A [B [C [D E]]]].
  split; [exact B|]. split; [exact C|]. split; [exact D|]. split; [exact E|].
  assert (Hing : ingest env req w
                 = (match out with
                    | Return t => Return (tmp, t)
                    | Raise e => Raise e
                    end, w1)).
  { unfold ingest. unfold bind at 1. unfold time_time at 1.
    destruct (Z.gtb_spec (file_size req) MAX_FILE_SIZE); [lia|].
    rewrite Hct. unfold bind at 1.
    unfold time_time in Hw0. simpl in Hw0. rewrite Hw0.
    unfold bind. rewrite Hrecv. now destruct out. }
  rewrite <- C. unfold too_large, upload_video.
  destruct out as [t|e].
  - destruct (upload_with_run env (segment_uploaded_video env)
                (classify_segmented_video env) req w tmp t w1 Hing)
      as [r [w' [Hrun _]]].
    rewrite Hrun. simpl. split; discriminate.
  - destruct (upload_with_rejects env (segment_uploaded_video env)
                (classify_segmented_video env) req w e w1 Hing)
      as [w' Hrun].
    rewrite Hrun. simpl. split.
    + intros H. inversion H as [H1]. now rewrite (as_http_413 e H1).
    + intros H. inversion H; subst. reflexivity.
Qed.
(** C3.  The segmentation stage returns and does not raise, and it returns
    [None] whenever the segmentation dependency is missing or any of its
    steps raises.  When it returns [None] to the handler, classification is
    run on the uploaded file itself, and the reward of the response is what
    that classification gives (0 when it raises). *)
Theorem segmentation_never_blocks_classification
    (p : path) (w0 : World)
    (req : Upload) (w : World) (tmp : path) (total : Z) (w2 wb : World) :
  (exists r w',
     segment_uploaded_video env p w0 = (Return r, w') /\
     (SAM2_AVAILABLE env = false \/ torch_available env = false \/
      cv2_available env = false \/
      Exists (fun c => raises env c = true) segmentation_steps \/
      (sam2_predictor w0 = None /\
       (raises env build_sam2_video_predictor_hf = true \/
        raises env SAM2AutomaticMaskGenerator = true)) ->
      r = None)) /\
  (ingest env req w = (Return (tmp, total), w2) ->
   segment_uploaded_video env tmp (analysis_world env req total w2)
     = (Return None, wb) ->
   exists resp w' out wc,
     upload_video env req w = (Return resp, w') /\
     classify_segmented_video env tmp wb = (out, wc) /\
     reward resp = match out with Return r => r | Raise _ => 0%Q end /\
     In (EvClassify tmp) (trace w')).
Proof.
  split; [apply segment_returns|].
  intros Hing Hseg.
  destruct (upload_with_run env (segment_uploaded_video env)
              (classify_segmented_video env) req w tmp total w2 Hing)
    as [r [w' [Hrun [_ [Hc [Hok [_ Hg]]]]]]].
  destruct (classify_segmented_video env tmp wb) as [out wc] eqn:Hcls.
  eexists. exists w', out, wc.
  split; [exact Hrun|]. split; [reflexivity|]. split.
  - simpl. destruct out as [v|e].
    + exact (Hok None wb v wc Hseg Hcls).
    + exact (Hc None wb e wc Hseg Hcls).
  - eapply trace_grows_In; [exact (Hg None wb out wc Hseg Hcls)|].
    eapply classify_entered; eauto.
Qed.

(** Where the cleanup works.  What the handler answers does not depend on
    whether [os.remove] fails.  And when the segmentation stage does not
    fail after it has created its output file, every temporary artifact
    named during the call (the uploaded file, the frames directory, the
    segmented video) that is still on disk when the call is over is one
    whose removal failed; so all of them are gone when no removal fails.
    This holds whether the handler returns or raises. *)
Theorem temp_artifacts_removed (req : Upload) (w : World)
    (out : outcome UploadResponse) (w' : World) :
  upload_video env req w = (out, w') ->
  Forall (fun c => raises env c = false) render_steps ->
  (forall g, fst (upload_video (with_remove_raises g env) req w) = out) /\
  (next_tmp w <= next_tmp w')%nat /\
  (forall q, (next_tmp w <= q < next_tmp w')%nat ->
             exists_on_disk q w' = true -> remove_raises env q = true) /\
  ((forall q, remove_raises env q = false) ->
   forall q, (next_tmp w <= q < next_tmp w')%nat ->
             exists_on_disk q w' = false).
Proof.
  intros H Hrender.
  destruct (upload_tidy req w out w' Hrender H) as [T1 [_ T3]].
  split; [|split; [exact T1|split; [exact T3|]]].
  - intros g. rewrite upload_ignores_remove_failures, H. reflexivity.
  - intros Hrm q Hq. destruct (exists_on_disk q w') eqn:Hex; [|reflexivity].
    specialize (Hrm q). rewrite (T3 q Hq Hex) in Hrm. discriminate.
Qed.

End PipelineFacts.

(** ** Model registry *)

Module RegistryFacts.

Import Registry.

Section Invariant.

Context {frame : Type}.
Variable env : Env frame.
Variable b : backend.

Lemma count_app (f : pc -> bool) (l1 l2 : list pc) :
  count f (l1 ++ l2) = (count f l1 + count f l2)%nat.
Proof. unfold count. now rewrite filter_app, length_app. Qed.

Lemma count_cons (f : pc -> bool) (p : pc) (l : list pc) :
  count f (p :: l) = ((if f p then 1 else 0) + count f l)%nat.
Proof. unfold count. simpl. now destruct (f p). Qed.

Lemma replace_nth_split (i : nat) (p p' : pc) (ts : list pc) :
  nth_error ts i = Some p ->
  exists l1 l2, ts = l1 ++ p :: l2 /\ replace_nth i p' ts = l1 ++ p' :: l2.
Proof.
  revert i. induction ts as [|t ts IH]; intros [|i] H; simpl in H;
    try discriminate.
  - inversion H; subst. now exists [], ts.
  - destruct (IH i H) as [l1 [l2 [E1 E2]]].
    exists (t :: l1), l2. simpl. now rewrite <- E1, E2.
Qed.

Lemma consistent_start (n : nat) : consistent env b (start n).
Proof.
  assert (Hc : forall f, f AtCheckDeps = false ->
                         count f (repeat AtCheckDeps n) = 0%nat).
  { intros f Hf. induction n; simpl; [reflexivity|].
    rewrite count_cons, Hf. exact IHn. }
  assert (Hin : forall p, In p (repeat AtCheckDeps n) -> p = AtCheckDeps).
  { intros p Hp. now apply repeat_spec in Hp. }
  unfold consistent, start. simpl.
  split; [now apply Hc|]. split.
  { rewrite Hc by reflexivity. lia. }
  split; [intros r Hr; apply Hin in Hr; discriminate|].
  split; [intros rest Hr; apply Hin in Hr; discriminate|].
  intros _. unfold guard. rewrite (Hc at_init) by reflexivity.
  now destruct (guard_is_second b).
Qed.

Hypothesis script_builds_guard : builds (guard_is_second b) (script b).

Lemma In_middle (x y : pc) (l1 l2 : list pc) :
  In x (l1 ++ y :: l2) <-> x = y \/ In x (l1 ++ l2).
Proof.
  rewrite !in_app_iff. simpl. split; intros H; intuition congruence.
Qed.

Lemma count_middle (f : pc -> bool) (y : pc) (l1 l2 : list pc) :
  count f (l1 ++ y :: l2) = ((if f y then 1 else 0) + count f (l1 ++ l2))%nat.
Proof. rewrite !count_app, count_cons. lia. Qed.

Lemma count_zero_not_in (f : pc -> bool) (l : list pc) (p : pc) :
  count f l = 0%nat -> In p l -> f p = false.
Proof.
  induction l as [|x l IH]; intros H Hin; [contradiction|].
  rewrite count_cons in H. destruct Hin as [->|Hin].
  - destruct (f p); [simpl in H; lia|reflexivity].
  - apply IH; [|exact Hin]. destruct (f x); simpl in H; lia.
Qed.

Lemma count_le (f h : pc -> bool) (l : list pc) :
  (forall p, f p = true -> h p = true) -> (count f l <= count h l)%nat.
Proof.
  intros Hfh. induction l as [|x l IH]; [reflexivity|].
  rewrite !count_cons. destruct (f x) eqn:E.
  - rewrite (Hfh x E). lia.
  - destruct (h x); lia.
Qed.

Lemma at_init_in_block (p : pc) : at_init p = true -> in_block p = true.
Proof. now destruct p. Qed.

Lemma script_calls_app (l1 l2 : list init_step) :
  script_calls (l1 ++ l2) = script_calls l1 ++ script_calls l2.
Proof.
  induction l1 as [|[c s'|c|] l1 IH]; simpl; rewrite ?IH; reflexivity.
Qed.

Lemma guard_store (into_second : bool) (g : globals) :
  is_set (guard b (store into_second g))
  = is_set (guard b g) || Bool.eqb into_second (guard_is_second b).
Proof.
  unfold guard, store.
  destruct into_second, (guard_is_second b); simpl;
    rewrite ?orb_true_r, ?orb_false_r; reflexivity.
Qed.

#[local] Ltac others He' :=
  try (intros r Hr; apply In_middle in Hr; destruct Hr as [Hr|Hr];
       [discriminate|auto]);
  try match goal with
      | H : In (AtInit _) (_ ++ _ :: _) |- _ =>
          apply In_middle in H; destruct H as [H|H];
          [discriminate|apply He'; exact H]
      end.

Lemma consistent_step (l1 l2 : list pc) (p p' : pc) (g g' : globals) :
  consistent env b (l1 ++ p :: l2, g) ->
  thread_step env b p g = Some (p', g') ->
  consistent env b (l1 ++ p' :: l2, g').
Proof.
  unfold consistent. simpl fst. simpl snd.
  intros [Ha [Hb [Hc [He Hf]]]] Hstep.
  rewrite !count_middle in *.
  pose proof (count_le at_init in_block (l1 ++ l2) at_init_in_block) as Hle.
  assert (Hc' : forall r, In (Returned r) (l1 ++ l2) -> r = handles g).
  { intros r Hr. apply Hc. apply In_middle. now right. }
  assert (He' : forall rest, In (AtInit rest) (l1 ++ l2) ->
            (is_set (guard b g) = true \/ builds (guard_is_second b) rest) /\
            exists done, script b = done ++ rest).
  { intros rest Hr. apply He. apply In_middle. now right. }
  assert (He0 : forall rest, p = AtInit rest ->
            (is_set (guard b g) = true \/ builds (guard_is_second b) rest) /\
            exists done, script b = done ++ rest).
  { intros rest Hr. apply He. apply In_middle. now left. }
  assert (Hnone : count settled (l1 ++ l2) = 0%nat ->
                  forall r, In (Returned r) (l1 ++ l2) -> False).
  { intros Hz r Hr. now pose proof (count_zero_not_in settled _ _ Hz Hr). }
  assert (Hnoinit : count at_init (l1 ++ l2) = 0%nat ->
                    forall rest, In (AtInit rest) (l1 ++ l2) -> False).
  { intros Hz r Hr. now pose proof (count_zero_not_in at_init _ _ Hz Hr). }
  clear Hc He.
  destruct p as [| | |steps|raising| |r|]; simpl in Hstep.
  - (* AtCheckDeps *)
    destruct (available b); inversion Hstep; subst; simpl in *;
      repeat split; auto; try tauto; others He'.
  - (* AtAcquire *)
    destruct (lock g) eqn:Hl; [discriminate|]. inversion Hstep; subst.
    simpl in *. repeat split; auto; try tauto; try lia; others He'.
  - (* AtTest *)
    simpl in Ha, Hb, Hf.
    assert (Hlock : lock g = true) by (destruct (lock g); [reflexivity|lia]).
    rewrite Hlock in Ha.
    assert (Hz : count at_init (l1 ++ l2) = 0%nat) by lia.
    destruct (guard b g) as [h|] eqn:Hg; inversion Hstep; subst; simpl.
    + rewrite Hlock, Hg. simpl. repeat split; auto; try lia; others He'.
    + change (guard b (count_init g)) with (guard b g). rewrite Hg, Hlock.
      simpl in Hb. simpl.
      assert (Hs0 : count settled (l1 ++ l2) = 0%nat).
      { destruct (count settled (l1 ++ l2)); [reflexivity|].
        destruct Hb as [Hb _]; [lia|discriminate]. }
      repeat split; auto; try lia.
      * intros r Hr. apply In_middle in Hr.
        destruct Hr as [Hr|Hr]; [discriminate|]. exfalso. eauto.
      * apply In_middle in H. destruct H as [H|H]; [|exfalso; eauto].
        inversion H; subst. now right.
      * apply In_middle in H. destruct H as [H|H]; [|exfalso; eauto].
        inversion H; subst. now exists [].
      * intros H. rewrite (Hf H). rewrite Hz. reflexivity.
  - (* AtInit *)
    simpl in Ha, Hb, Hf.
    assert (Hlock : lock g = true) by (destruct (lock g); [reflexivity|lia]).
    rewrite Hlock in Ha.
    assert (Hz : count at_init (l1 ++ l2) = 0%nat) by lia.
    assert (Hs0 : count settled (l1 ++ l2) = 0%nat).
    { destruct (count settled (l1 ++ l2)); [reflexivity|].
      destruct Hb as [_ Hb]; lia. }
    destruct (He0 steps eq_refl) as [Hguard [done Hdone]].
    assert (Hcalls : (forall c, In c (script_calls (script b)) ->
                                raises env c = false) ->
                     forall c, In c (script_calls steps) ->
                               raises env c = false).
    { intros H c Hc. apply H. rewrite Hdone, script_calls_app.
      apply in_or_app. now right. }
    assert (Hsuffix : forall s' rest', steps = s' :: rest' ->
                      exists done', script b = done' ++ rest').
    { intros s' rest' E. exists (done ++ [s']). rewrite <- app_assoc.
      simpl. now rewrite <- E. }
    assert (Hfinish :
      forall g1 rest',
        lock g1 = true -> inits g1 = inits g ->
        (is_set (guard b g1) = true \/ builds (guard_is_second b) rest') ->
        (exists done', script b = done' ++ rest') ->
        ((if in_block (AtInit rest') then 1 else 0)
         + count in_block (l1 ++ l2))%nat =
        (if lock g1 then 1 else 0)%nat /\
        ((0 < (if settled (AtInit rest') then 1 else 0)
              + count settled (l1 ++ l2))%nat ->
         is_set (guard b g1) = true /\
         ((if at_init (AtInit rest') then 1 else 0)
          + count at_init (l1 ++ l2))%nat = 0%nat) /\
        (forall r, In (Returned r) (l1 ++ AtInit rest' :: l2) ->
                   r = handles g1) /\
        (forall rest, In (AtInit rest) (l1 ++ AtInit rest' :: l2) ->
           (is_set (guard b g1) = true \/ builds (guard_is_second b) rest) /\
           exists done, script b = done ++ rest) /\
        ((forall c, In c (script_calls (script b)) -> raises env c = false) ->
         inits g1 =
         (if is_set (guard b g1)
             || (0 <? (if at_init (AtInit rest') then 1 else 0)
                      + count at_init (l1 ++ l2))%nat
          then 1 else 0)%nat)).
    { intros g1 rest' Hl1 Hi1 Hg1 Hd1. rewrite Hl1. simpl.
      repeat split; auto; try lia.
      - intros r Hr. apply In_middle in Hr.
        destruct Hr as [Hr|Hr]; [discriminate|]. exfalso. eauto.
      - apply In_middle in H. destruct H as [Hr|Hr]; [|exfalso; eauto].
        inversion Hr; subst. exact Hg1.
      - apply In_middle in H. destruct H as [Hr|Hr]; [|exfalso; eauto].
        inversion Hr; subst. exact Hd1.
      - intros H. rewrite Hi1, (Hf H), orb_true_r.
        now rewrite orb_true_r. }
    assert (Hraise :
      forall c, In c (script_calls steps) -> raises env c = true ->
        ((if in_block (AtRelease true) then 1 else 0)
         + count in_block (l1 ++ l2))%nat =
        (if lock g then 1 else 0)%nat /\
        ((0 < (if settled (AtRelease true) then 1 else 0)
              + count settled (l1 ++ l2))%nat ->
         is_set (guard b g) = true /\
         ((if at_init (AtRelease true) then 1 else 0)
          + count at_init (l1 ++ l2))%nat = 0%nat) /\
        (forall r, In (Returned r) (l1 ++ AtRelease true :: l2) ->
                   r = handles g) /\
        (forall rest, In (AtInit rest) (l1 ++ AtRelease true :: l2) ->
           (is_set (guard b g) = true \/ builds (guard_is_second b) rest) /\
           exists done, script b = done ++ rest) /\
        ((forall c, In c (script_calls (script b)) -> raises env c = false) ->
         inits g =
         (if is_set (guard b g)
             || (0 <? (if at_init (AtRelease true) then 1 else 0)
                      + count at_init (l1 ++ l2))%nat
          then 1 else 0)%nat)).
    { intros c Hc Hr. rewrite Hlock. simpl. repeat split; auto; try lia.
      - intros r Hr'. apply In_middle in Hr'.
        destruct Hr' as [Hr'|Hr']; [discriminate|]. exfalso. eauto.
      - apply In_middle in H. destruct H as [H|H]; [discriminate|].
        exfalso. eauto.
      - apply In_middle in H. destruct H as [H|H]; [discriminate|].
        exfalso. eauto.
      - intros H. rewrite (Hcalls H c Hc) in Hr. discriminate. }
    destruct steps as [|[c into_second|c|] rest'].
    + (* the block is done *)
      inversion Hstep; subst. rewrite Hlock. simpl.
      destruct Hguard as [Hguard|[c Hc]]; [|contradiction].
      rewrite Hguard. simpl. repeat split; auto; try lia.
      * intros r Hr. apply In_middle in Hr.
        destruct Hr as [Hr|Hr]; [discriminate|]. exfalso. eauto.
      * apply In_middle in H. destruct H as [H|H]; [discriminate|].
        exfalso. eauto.
      * intros H. rewrite (Hf H), Hguard. reflexivity.
    + destruct (raises env c) eqn:Hr; inversion Hstep; subst.
      * apply (Hraise c); [now left|exact Hr].
      * apply Hfinish.
        -- unfold store. now destruct into_second.
        -- unfold store. now destruct into_second.
        -- rewrite guard_store.
           destruct (Bool.eqb into_second (guard_is_second b)) eqn:Hsame.
           ++ left. now rewrite orb_true_r.
           ++ rewrite orb_false_r. destruct Hguard as [Hg|[c' Hb']];
                [now left|right].
              destruct Hb' as [Hb'|Hb']; [|now exists c'].
              inversion Hb'; subst. now rewrite Bool.eqb_reflx in Hsame.
        -- eapply Hsuffix; reflexivity.
    + destruct (raises env c) eqn:Hr; inversion Hstep; subst.
      * apply (Hraise c); [now left|exact Hr].
      * apply Hfinish; [exact Hlock|reflexivity| |eapply Hsuffix; reflexivity].
        destruct Hguard as [Hg|[c' Hb']]; [now left|right].
        destruct Hb' as [Hb'|Hb']; [discriminate|now exists c'].
    + inversion Hstep; subst.
      apply Hfinish; [exact Hlock|reflexivity| |eapply Hsuffix; reflexivity].
      change (guard b (bind_device env g)) with (guard b g).
      destruct Hguard as [Hg|[c' Hb']]; [now left|right].
      destruct Hb' as [Hb'|Hb']; [discriminate|now exists c'].
  - (* AtRelease *)
    inversion Hstep; subst. simpl in Ha, Hb, Hf.
    assert (Hlock : lock g = true) by (destruct (lock g); [reflexivity|lia]).
    rewrite Hlock in Ha.
    change (guard b (set_lock false g)) with (guard b g).
    change (handles (set_lock false g)) with (handles g).
    change (inits (set_lock false g)) with (inits g). simpl lock.
    destruct raising; simpl in *.
    + repeat split; auto; try lia; try tauto.
      * intros r Hr. apply In_middle in Hr.
        destruct Hr as [Hr|Hr]; [discriminate|auto].
      * apply In_middle in H. destruct H as [H|H]; [discriminate|].
        apply He'; exact H.
      * apply In_middle in H. destruct H as [H|H]; [discriminate|].
        apply He'; exact H.
    + repeat split; auto; try lia; try tauto.
      * intros r Hr. apply In_middle in Hr.
        destruct Hr as [Hr|Hr]; [discriminate|auto].
      * apply In_middle in H. destruct H as [H|H]; [discriminate|].
        apply He'; exact H.
      * apply In_middle in H. destruct H as [H|H]; [discriminate|].
        apply He'; exact H.
  - (* AtReturn *)
    inversion Hstep; subst. simpl in *.
    repeat split; auto; try lia; try tauto.
    + intros r Hr. apply In_middle in Hr.
      destruct Hr as [Hr|Hr]; [now inversion Hr|auto].
    + apply In_middle in H. destruct H as [H|H]; [discriminate|].
      apply He'; exact H.
    + apply In_middle in H. destruct H as [H|H]; [discriminate|].
      apply He'; exact H.
  - discriminate.
  - discriminate.
Qed.

Lemma consistent_schedule_one (i : nat) (s : system) :
  consistent env b s -> consistent env b (schedule_one env b i s).
Proof.
  intros Hs. unfold schedule_one. destruct s as [ts g]. simpl.
  destruct (nth_error ts i) as [p|] eqn:Hp; [|exact Hs].
  destruct (thread_step env b p g) as [[p' g']|] eqn:Hstep; [|exact Hs].
  destruct (replace_nth_split i p p' ts Hp) as [l1 [l2 [-> ->]]].
  eapply consistent_step; eauto.
Qed.

Lemma consistent_run (sched : list nat) :
  forall s, consistent env b s -> consistent env b (run env b sched s).
Proof.
  unfold run. induction sched as [|i sched IH]; intros s Hs; simpl.
  - exact Hs.
  - apply IH. now apply consistent_schedule_one.
Qed.

End Invariant.

Section Progress.

Context {frame : Type}.
Variable env : Env frame.
Variable b : backend.

Lemma thread_step_remaining (p p' : pc) (g g' : globals) :
  thread_step env b p g = Some (p', g') ->
  (remaining b p' < remaining b p)%nat.
Proof.
  intros H.
  destruct p as [| | |steps|raising| |r|]; simpl in H.
  - destruct (available b); inversion H; subst; simpl; lia.
  - destruct (lock g); inversion H; subst; simpl; lia.
  - destruct (guard b g); inversion H; subst; simpl; lia.
  - destruct steps as [|[c into_second|c|] rest]; simpl in H.
    + inversion H; subst; simpl; lia.
    + destruct (raises env c); inversion H; subst; simpl; lia.
    + destruct (raises env c); inversion H; subst; simpl; lia.
    + inversion H; subst; simpl; lia.
  - destruct raising; inversion H; subst; simpl; lia.
  - inversion H; subst; simpl; lia.
  - discriminate.
  - discriminate.
Qed.

Lemma work_app (l1 l2 : list pc) :
  work b (l1 ++ l2) = (work b l1 + work b l2)%nat.
Proof.
  unfold work. induction l1 as [|p l1 IH]; simpl; [reflexivity|].
  rewrite IH. lia.
Qed.

Lemma schedule_one_moves (i : nat) (ts : list pc) (g : globals)
    (p p' : pc) (g' : globals) :
  nth_error ts i = Some p ->
  thread_step env b p g = Some (p', g') ->
  schedule_one env b i (ts, g) = (replace_nth i p' ts, g') /\
  (work b (replace_nth i p' ts) < work b ts)%nat.
Proof.
  intros Hp Hstep. split.
  - unfold schedule_one. simpl. now rewrite Hp, Hstep.
  - destruct (replace_nth_split i p p' ts Hp)
      as [l1 [l2 [-> ->]]].
    rewrite !work_app. simpl.
    pose proof (thread_step_remaining _ _ _ _ Hstep). lia.
Qed.

(** A turn either changes nothing or runs one statement. *)
Lemma schedule_one_work (i : nat) (s : system) :
  schedule_one env b i s = s \/
  (work b (fst (schedule_one env b i s)) < work b (fst s))%nat.
Proof.
  destruct s as [ts g].
  destruct (nth_error ts i) as [p|] eqn:Hp.
  - destruct (thread_step env b p g) as [[p' g']|] eqn:Hstep.
    + right. destruct (schedule_one_moves i ts g p p' g' Hp Hstep) as [-> H].
      exact H.
    + left. unfold schedule_one. simpl. now rewrite Hp, Hstep.
  - left. unfold schedule_one. simpl. now rewrite Hp.
Qed.

Lemma replace_nth_length (i : nat) (p : pc) (ts : list pc) :
  List.length (replace_nth i p ts) = List.length ts.
Proof.
  revert i. induction ts as [|t ts IH]; intros [|i]; simpl; auto.
Qed.

Lemma run_length (sched : list nat) :
  forall s, List.length (fst (run env b sched s)) = List.length (fst s).
Proof.
  unfold run. induction sched as [|i sched IH]; intros s; simpl;
    [reflexivity|].
  rewrite IH. unfold schedule_one.
  destruct (nth_error (fst s) i) as [p|]; [|reflexivity].
  destruct (thread_step env b p (snd s)) as [[p' g']|]; [|reflexivity].
  simpl. apply replace_nth_length.
Qed.

Lemma run_app (s1 s2 : list nat) (s : system) :
  run env b (s1 ++ s2) s = run env b s2 (run env b s1 s).
Proof. unfold run. apply fold_left_app. Qed.

Hypothesis script_builds_guard : builds (guard_is_second b) (script b).

(** While a caller is still on its way, some caller can run a statement:
    the one inside the block when the lock is held, any of them when it is
    not. *)
Lemma some_caller_moves (ts : list pc) (g : globals) :
  consistent env b (ts, g) ->
  existsb (fun p => negb (finished p)) ts = true ->
  exists i p p' g',
    nth_error ts i = Some p /\ thread_step env b p g = Some (p', g').
Proof.
  intros [Hlock _] Hex. simpl in Hlock.
  assert (Hblock : forall p, In p ts -> in_block p = true ->
                             exists p' g', thread_step env b p g = Some (p', g')).
  { intros p _ Hp. destruct p as [| | |steps|raising| |r|]; try discriminate.
    - simpl. destruct (guard b g); eauto.
    - destruct steps as [|[c into_second|c|] rest]; simpl; eauto;
        destruct (raises env c); eauto.
    - simpl. eauto. }
  destruct (lock g) eqn:El.
  - (* the holder of the lock moves *)
    assert (Hin : exists p, In p ts /\ in_block p = true).
    { unfold count in Hlock.
      destruct (filter in_block ts) as [|p l] eqn:E; [discriminate|].
      exists p. apply filter_In. rewrite E. now left. }
    destruct Hin as [p [Hin Hp]].
    destruct (In_nth_error _ _ Hin) as [i Hi].
    destruct (Hblock p Hin Hp) as [p' [g' Hs]].
    exists i, p, p', g'. auto.
  - apply existsb_exists in Hex. destruct Hex as [p [Hin Hp]].
    destruct (In_nth_error _ _ Hin) as [i Hi].
    destruct (in_block p) eqn:Hb.
    + destruct (Hblock p Hin Hb) as [p' [g' Hs]]. exists i, p, p', g'. auto.
    + exists i, p.
      destruct p as [| | |steps|raising| |r|]; try discriminate; simpl.
      * destruct (available b); eauto.
      * rewrite El. eauto.
      * eauto.
Qed.

(** A state in which no turn changes anything is one in which every caller
    has left the getter. *)
Lemma quiescent_finished (s : system) :
  consistent env b s ->
  (forall i, schedule_one env b i s = s) ->
  Forall (fun p => finished p = true) (fst s).
Proof.
  intros Hc Hq. destruct s as [ts g]. simpl.
  destruct (existsb (fun p => negb (finished p)) ts) eqn:Hex.
  - exfalso.
    destruct (some_caller_moves ts g Hc Hex) as [i [p [p' [g' [Hi Hs]]]]].
    destruct (schedule_one_moves i ts g p p' g' Hi Hs) as [E Hlt].
    rewrite (Hq i) in E. inversion E as [[Hts Hg]].
    rewrite <- Hts in Hlt. lia.
  - apply Forall_forall. intros p Hin.
    destruct (finished p) eqn:Hf; [reflexivity|].
    assert (existsb (fun p => negb (finished p)) ts = true).
    { apply existsb_exists. exists p. rewrite Hf. auto. }
    congruence.
Qed.

(** Every run can be brought to its end, within the statements still to
    run. *)
Lemma run_completes :
  forall (k : nat) (s : system),
    consistent env b s ->
    (work b (fst s) <= k)%nat ->
    exists more,
      (List.length more <= work b (fst s))%nat /\
      Forall (fun p => finished p = true) (fst (run env b more s)).
Proof.
  induction k as [|k IH]; intros [ts g] Hc Hk; simpl in Hk.
  - destruct (existsb (fun p => negb (finished p)) ts) eqn:Hex.
    + exfalso.
      destruct (some_caller_moves ts g Hc Hex) as [i [p [p' [g' [Hi Hs]]]]].
      destruct (schedule_one_moves i ts g p p' g' Hi Hs) as [_ Hlt]. lia.
    + exists []. split; [simpl; lia|]. simpl.
      apply Forall_forall. intros p Hin.
      destruct (finished p) eqn:Hf; [reflexivity|].
      assert (existsb (fun p => negb (finished p)) ts = true).
      { apply existsb_exists. exists p. rewrite Hf. auto. }
      congruence.
  - destruct (existsb (fun p => negb (finished p)) ts) eqn:Hex.
    + destruct (some_caller_moves ts g Hc Hex) as [i [p [p' [g' [Hi Hs]]]]].
      destruct (schedule_one_moves i ts g p p' g' Hi Hs) as [E Hw].
      destruct (IH (replace_nth i p' ts, g')) as [more [Hlen Hall]].
      * rewrite <- E.
        now apply consistent_schedule_one.
      * simpl. lia.
      * exists (i :: more). split; [simpl in *; lia|].
        unfold run. simpl. fold (run env b more). rewrite E. exact Hall.
    + exists []. split; [simpl; lia|]. simpl.
      apply Forall_forall. intros p Hin.
      destruct (finished p) eqn:Hf; [reflexivity|].
      assert (existsb (fun p => negb (finished p)) ts = true).
      { apply existsb_exists. exists p. rewrite Hf. auto. }
      congruence.
Qed.

Hypothesis dependencies_available : available b = true.
Hypothesis nothing_raises :
  forall c, In c (script_calls (script b)) -> raises env c = false.

(** When the dependencies are there and no call of the initialisation
    raises, no caller leaves the getter by an exception. *)
Lemma unfailed_step (l1 l2 : list pc) (p p' : pc) (g g' : globals) :
  consistent env b (l1 ++ p :: l2, g) ->
  failed p = false ->
  thread_step env b p g = Some (p', g') ->
  failed p' = false.
Proof.
  intros [_ [_ [_ [Hsuf _]]]] Hp Hs. simpl in Hsuf.
  destruct p as [| | |steps|raising| |r|]; simpl in Hs.
  - rewrite dependencies_available in Hs. now inversion Hs.
  - destruct (lock g); now inversion Hs.
  - destruct (guard b g); now inversion Hs.
  - destruct (Hsuf steps) as [_ [done Hd]];
      [apply in_or_app; right; now left|].
    assert (Hc : forall c, In c (script_calls steps) -> raises env c = false).
    { intros c Hc. apply nothing_raises. rewrite Hd.
      rewrite script_calls_app. apply in_or_app. now right. }
    destruct steps as [|[c into_second|c|] rest]; simpl in Hs.
    + now inversion Hs.
    + rewrite (Hc c) in Hs by (simpl; auto). now inversion Hs.
    + rewrite (Hc c) in Hs by (simpl; auto). now inversion Hs.
    + now inversion Hs.
  - destruct raising; [discriminate|]. now inversion Hs.
  - now inversion Hs.
  - discriminate.
  - discriminate.
Qed.

Lemma unfailed_run (sched : list nat) :
  forall s,
    consistent env b s ->
    Forall (fun p => failed p = false) (fst s) ->
    Forall (fun p => failed p = false) (fst (run env b sched s)).
Proof.
  unfold run. induction sched as [|i sched IH]; intros s Hc Hu; simpl;
    [exact Hu|].
  apply IH; [now apply consistent_schedule_one|].
  unfold schedule_one. destruct s as [ts g]. simpl in *.
  destruct (nth_error ts i) as [p|] eqn:Hp; [|exact Hu].
  destruct (thread_step env b p g) as [[p' g']|] eqn:Hstep; [|exact Hu].
  destruct (replace_nth_split i p p' ts Hp)
    as [l1 [l2 [E1 E2]]].
  simpl. rewrite E2. subst ts.
  apply Forall_app in Hu. destruct Hu as [H1 H2].
  inversion H2 as [|? ? Hp0 H3]; subst.
  apply Forall_app. split; [exact H1|]. constructor; [|exact H3].
  eapply unfailed_step; eauto.
Qed.

Lemma unfailed_start (n : nat) :
  Forall (fun p => failed p = false) (fst (start n)).
Proof.
  simpl. apply Forall_forall. intros p Hp. apply repeat_spec in Hp.
  now subst.
Qed.

(** Callers that have all left without an exception have all returned the
    handles of the registry. *)
Lemma finished_returned (s : system) :
  consistent env b s ->
  Forall (fun p => failed p = false) (fst s) ->
  Forall (fun p => finished p = true) (fst s) ->
  Forall (fun p => p = Returned (handles (snd s))) (fst s).
Proof.
  intros [_ [_ [Hr _]]] Hu Hf. simpl in Hr.
  rewrite Forall_forall in *. intros p Hin.
  specialize (Hu p Hin). specialize (Hf p Hin).
  destruct p as [| | |steps|raising| |r|]; try discriminate.
  now rewrite (Hr r Hin).
Qed.

End Progress.

Section Getters.

Context {frame : Type}.
Variable env : Env frame.

#[local] Ltac blocker t :=
  lazymatch t with
  | match ?x with _ => _ end => blocker x
  | (match ?x with _ => _ end) _ => blocker x
  | _ => t
  end.

#[local] Ltac fork H :=
  lazymatch type of H with
  | (_, _) = _ => fail
  | ?l = _ => let b := blocker l in destruct b eqn:?; simpl in H
  end.

Lemma get_sam2_components_idempotent (w : World)
    (c : option handle * option handle) (w1 : World) :
  get_sam2_components env w = (Return c, w1) ->
  get_sam2_components env w1 = (Return c, w1).
Proof.
  intros H. unfold get_sam2_components in *.
  destruct (negb (SAM2_AVAILABLE env) || negb (torch_available env)
            || negb (cv2_available env)); [discriminate|].
  unfold new_model, bind, call, emit, modify, get_world, ret in *.
  simpl in H. repeat fork H; inversion H; subst; clear H; simpl;
    try reflexivity;
    match goal with
    | E : sam2_predictor _ = Some _ |- _ =>
        rewrite E; simpl; rewrite ?E; reflexivity
    end.
Qed.

Lemma get_video_classifier_components_idempotent (w : World)
    (c : option handle * option handle * option device) (w1 : World) :
  get_video_classifier_components env w = (Return c, w1) ->
  get_video_classifier_components env w1 = (Return c, w1).
Proof.
  intros H. unfold get_video_classifier_components in *.
  destruct (negb (TRANSFORMERS_AVAILABLE env) || negb (torch_available env));
    [discriminate|].
  unfold new_model, bind, call, emit, modify, get_world, ret in *.
  simpl in H. repeat fork H; inversion H; subst; clear H; simpl;
    try reflexivity;
    match goal with
    | E : video_classifier _ = Some _ |- _ =>
        rewrite E; simpl; rewrite ?E; reflexivity
    end.
Qed.

Lemma solo_step (b : backend) (p : pc) (g : globals) :
  schedule_one env b 0 ([p], g) =
  match thread_step env b p g with
  | Some (p', g') => ([p'], g')
  | None => ([p], g)
  end.
Proof.
  unfold schedule_one. simpl. destruct (thread_step env b p g) as [[p' g']|];
    reflexivity.
Qed.

#[local] Ltac flags :=
  repeat match goal with
         | H : _ = _ |- _ => rewrite H
         end.

#[local] Ltac solo :=
  unfold run; cbn [fold_left repeat];
  repeat (rewrite solo_step; cbn -[schedule_one]; flags; cbn -[schedule_one]).

(** One caller on its own, given turns enough, ends where the getter of the
    sequential model ends: with the same result or raised, and with the
    same globals. *)
Lemma solo_video_getter (w : World) :
  let s := run env (video env) (repeat 0%nat 11) ([AtCheckDeps], video_globals w) in
  match get_video_classifier_components env w with
  | (Return r, w') =>
      fst s = [Returned r] /\ same_globals (snd s) (video_globals w')
  | (Raise _, w') =>
      fst s = [Raised] /\ same_globals (snd s) (video_globals w')
  end.
Proof.
  unfold get_video_classifier_components, new_model, bind, call, emit,
    modify, get_world, ret, raise, video_globals, same_globals, select_device.
  destruct (TRANSFORMERS_AVAILABLE env) eqn:H1, (torch_available env) eqn:H2,
    (video_classifier w) eqn:E,
    (raises env VideoMAEImageProcessor_from_pretrained) eqn:H3,
    (raises env VideoMAEForVideoClassification_from_pretrained) eqn:H4,
    (raises env video_classifier_to) eqn:H5,
    (raises env video_classifier_eval) eqn:H6;
    solo; repeat split; reflexivity.
Qed.

Lemma solo_sam2_getter (w : World) :
  let s := run env (sam2 env) (repeat 0%nat 11) ([AtCheckDeps], sam2_globals w) in
  match get_sam2_components env w with
  | (Return r, w') =>
      fst s = [Returned (fst r, snd r, sam2_device w')] /\
      same_globals (snd s) (sam2_globals w')
  | (Raise _, w') =>
      fst s = [Raised] /\ same_globals (snd s) (sam2_globals w')
  end.
Proof.
  unfold get_sam2_components, new_model, bind, call, emit,
    modify, get_world, ret, raise, sam2_globals, same_globals, select_device.
  destruct (SAM2_AVAILABLE env) eqn:H1, (torch_available env) eqn:H2,
    (cv2_available env) eqn:H3,
    (sam2_predictor w) eqn:E,
    (raises env build_sam2_video_predictor_hf) eqn:H4,
    (raises env SAM2AutomaticMaskGenerator) eqn:H5;
    solo; repeat split; reflexivity.
Qed.
Lemma builds_guard_sam2 : builds (guard_is_second (sam2 env)) (script (sam2 env)).
Proof. exists build_sam2_video_predictor_hf. simpl. auto. Qed.

Lemma builds_guard_video :
  builds (guard_is_second (video env)) (script (video env)).
Proof.
  exists VideoMAEForVideoClassification_from_pretrained. simpl. auto.
Qed.


End Getters.

End RegistryFacts.

(** ** Refused uploads and failed initialisations *)

Lemma unprocessed_refl (w : World) : unprocessed w w.
Proof. repeat split. now exists []. Qed.

Lemma unprocessed_trans (a b c : World) :
  unprocessed a b -> unprocessed b c -> unprocessed a c.
Proof.
  intros [A1 [A2 [A3 [A4 [A5 [A6 [A7 [A8 [n1 [A9 A10]]]]]]]]]]
         [B1 [B2 [B3 [B4 [B5 [B6 [B7 [B8 [n2 [B9 B10]]]]]]]]]].
  repeat split; try congruence.
  exists (n2 ++ n1). split.
  - rewrite B9, A9. now rewrite app_assoc.
  - apply Forall_app. now split.
Qed.

Section Rejections.

Context {frame : Type}.
Variable env : Env frame.

Lemma receive_unprocessed (tmp : path) (reads : list read_result) :
  forall total, respects unprocessed (receive env tmp reads total).
Proof.
  induction reads as [|r reads IH]; intros total w out w' H; simpl in H.
  - inversion H; subst. apply unprocessed_refl.
  - destruct r as [n| |];
      [|inversion H; subst; apply unprocessed_refl..].
    destruct (n <=? 0); [inversion H; subst; apply unprocessed_refl|].
    unfold bind at 1 in H. unfold tmp_write in H. unfold bind at 1 in H.
    destruct (call_cases env upload_write w) as [[_ E]|[_ E]];
      rewrite E in H; [|inversion H; subst; apply unprocessed_refl].
    unfold modify in H.
    assert (S1 : unprocessed w (set_fs (fs_append tmp n (fs w)) w)).
    { repeat split. now exists []. }
    destruct (total + n >? MAX_FILE_SIZE).
    + inversion H; subst. exact S1.
    + eapply unprocessed_trans; [exact S1|]. eapply IH; eauto.
Qed.

Lemma new_temp_unprocessed (c : ext_call) :
  respects unprocessed (new_temp env c).
Proof.
  intros w out w' H. unfold new_temp in H. unfold bind at 1 in H.
  destruct (call_cases env c w) as [[_ E]|[_ E]]; rewrite E in H.
  - unfold bind, get_world, modify, emit, ret in H. simpl in H.
    inversion H; subst. repeat split.
    eexists [_]. split; [reflexivity|]. repeat constructor.
  - inversion H; subst. apply unprocessed_refl.
Qed.

Lemma cleanup_unprocessed (p : option path) :
  respects unprocessed (cleanup env p).
Proof.
  intros w out w' H. destruct p as [p|]; simpl in H.
  2:{ inversion H; subst. apply unprocessed_refl. }
  unfold bind, get_world in H.
  destruct (exists_on_disk p w) eqn:Hex.
  2:{ inversion H; subst. apply unprocessed_refl. }
  unfold try_except, bind, os_remove, emit, modify in H. rewrite Hex in H.
  simpl in H.
  destruct (remove_raises env p); simpl in H; inversion H; subst;
    repeat split; eexists [_]; (split; [reflexivity|]); repeat constructor.
Qed.

(** Why an ingestion fails, and that it leaves the pipeline untouched. *)
Lemma ingest_raises (req : Upload) (w : World) (e : exn) (w2 : World) :
  ingest env req w = (Raise e, w2) ->
  unprocessed w w2 /\
  ((e = HTTPException 413 /\
    (MAX_FILE_SIZE < file_size req \/
     exists tmp w1, receive env tmp (body req) 0 w1
                    = (Raise (HTTPException 413), w2))) \/
   (e = HTTPException 400 /\ file_size req <= MAX_FILE_SIZE /\
    wrong_content_type (content_type req) = true) \/
   (e = HTTPException 408 /\ In ReadTimeout (body req)) \/
   (e = call_failed /\
    (raises env upload_NamedTemporaryFile = true \/
     raises env upload_write = true)) \/
   (e = Exception "read failed" /\ In ReadFailure (body req))).
Proof.
  intros H. split.
  { revert H. unfold ingest. intros H.
    unfold bind at 1 in H. unfold time_time at 1 in H.
    set (w0 := set_ticks (S (ticks w)) w) in H.
    assert (S0 : unprocessed w w0) by (repeat split; now exists []).
    destruct (file_size req >? MAX_FILE_SIZE); [inversion H; subst; exact S0|].
    destruct (wrong_content_type (content_type req));
      [inversion H; subst; exact S0|].
    unfold bind at 1 in H.
    destruct (new_temp env upload_NamedTemporaryFile w0) as [[tmp|e'] w1] eqn:Ht.
    - apply new_temp_unprocessed in Ht.
      unfold bind at 1 in H.
      destruct (receive env tmp (body req) 0 w1) as [[t|e'] w2'] eqn:Hr;
        [discriminate|].
      inversion H; subst. apply receive_unprocessed in Hr.
      eapply unprocessed_trans; [exact S0|].
      exact (unprocessed_trans _ _ _ Ht Hr).
    - apply new_temp_unprocessed in Ht. inversion H; subst.
      exact (unprocessed_trans _ _ _ S0 Ht). }
  unfold ingest in H. unfold bind at 1 in H. unfold time_time at 1 in H.
  destruct (Z.gtb_spec (file_size req) MAX_FILE_SIZE).
  { inversion H; subst. left. split; [reflexivity|]. now left. }
  destruct (wrong_content_type (content_type req)) eqn:Hct.
  { inversion H; subst. right; left. auto. }
  unfold bind at 1 in H.
  destruct (new_temp env upload_NamedTemporaryFile (set_ticks (S (ticks w)) w))
    as [[tmp|e'] w1] eqn:Ht.
  2:{ inversion H; subst. right; right; right; left.
      unfold new_temp in Ht. unfold bind at 1 in Ht.
      destruct (call_cases env upload_NamedTemporaryFile
                  (set_ticks (S (ticks w)) w)) as [[Hf E]|[Hf E]];
        rewrite E in Ht.
      - unfold bind, get_world, modify, emit, ret in Ht. discriminate.
      - inversion Ht; subst. auto. }
  unfold bind at 1 in H.
  destruct (receive env tmp (body req) 0 w1) as [[t|e'] w2'] eqn:Hr;
    [discriminate|].
  inversion H; subst. clear H Ht.
  assert (G : forall reads total w1,
    receive env tmp reads total w1 = (Raise e, w2) ->
    e = HTTPException 413 \/
    (e = HTTPException 408 /\ In ReadTimeout reads) \/
    (e = call_failed /\ raises env upload_write = true) \/
    (e = Exception "read failed" /\ In ReadFailure reads)).
  { induction reads as [|r reads IH]; intros total wa Ha; simpl in Ha.
    - discriminate.
    - destruct r as [k| |].
      + destruct (k <=? 0); [discriminate|].
        unfold bind at 1 in Ha. unfold tmp_write in Ha.
        unfold bind at 1 in Ha.
        destruct (call_cases env upload_write wa) as [[Hf E]|[Hf E]];
          rewrite E in Ha.
        * unfold modify in Ha.
          destruct (total + k >? MAX_FILE_SIZE).
          -- inversion Ha; subst. now left.
          -- apply IH in Ha.
             destruct Ha as [A|[[A B]|[A|[A B]]]]; auto.
             ++ right; left. split; [exact A|now right].
             ++ right; right; right. split; [exact A|now right].
        * inversion Ha; subst. auto.
      + inversion Ha; subst. right; left. split; [reflexivity|now left].
      + inversion Ha; subst. right; right; right.
        split; [reflexivity|now left]. }
  destruct (G _ _ _ Hr) as [A|[[A B]|[[A B]|[A B]]]].
  - left. split; [exact A|]. right. subst e. eauto.
  - right; right; left. auto.
  - right; right; right; left. auto.
  - right; right; right; right. auto.
Qed.

(** The handler after a failed ingestion, with the world it ends in. *)
Lemma upload_rejects_world (req : Upload) (w : World) (e : exn) (w2 : World) :
  ingest env req w = (Raise e, w2) ->
  exists w', upload_video env req w = (Raise (as_http e), w') /\
             unprocessed w2 w'.
Proof.
  intros H. unfold ingest in H. unfold upload_video, upload_video_with, try_except.
  unfold bind at 1 in H. unfold time_time at 1 in H.
  unfold bind at 1. unfold time_time at 1.
  destruct (file_size req >? MAX_FILE_SIZE).
  { inversion H; subst. eexists. split; [reflexivity|apply unprocessed_refl]. }
  destruct (wrong_content_type (content_type req)).
  { inversion H; subst. eexists. split; [reflexivity|apply unprocessed_refl]. }
  unfold bind at 1 in H. unfold bind at 1.
  destruct (new_temp env upload_NamedTemporaryFile (set_ticks (S (ticks w)) w))
    as [[tmp|e'] w1] eqn:Ht.
  2:{ inversion H; subst.
      destruct e; eexists; (split; [reflexivity|apply unprocessed_refl]). }
  unfold try_finally. unfold bind at 1 in H. unfold bind at 1.
  destruct (receive env tmp (body req) 0 w1) as [[total|e'] w2'] eqn:Hr.
  { unfold ret in H. discriminate. }
  inversion H; subst.
  destruct (cleanup env (Some tmp) w2) as [co w5] eqn:Hcl.
  pose proof (cleanup_unprocessed _ _ _ _ Hcl) as Hu.
  destruct (cleanup_spec env (Some tmp) w2) as [w5' [Hcl' _]].
  rewrite Hcl in Hcl'. inversion Hcl'; subst.
  destruct e; eexists; (split; [reflexivity|exact Hu]).
Qed.

(** X1. When the upload handler raises, what it raises is an HTTP error of status
    400, 408, 413 or 500, and the call has logged nothing, loaded no model
    and entered no stage: the score log and the model registry are as
    before, and the events it added tell of its temporary file only. *)
Theorem upload_failure_statuses (req : Upload) (w : World) (e : exn)
    (w' : World) :
  upload_video env req w = (Raise e, w') ->
  In e [HTTPException 400; HTTPException 408; HTTPException 413;
        HTTPException 500] /\
  unprocessed w w'.
Proof.
  intros H.
  destruct (ingest env req w) as [[[tmp total]|e0] w2] eqn:Hi.
  - destruct (upload_with_run env (segment_uploaded_video env)
                (classify_segmented_video env) req w tmp total w2 Hi)
      as [r [w'' [Hrun _]]].
    unfold upload_video in H. rewrite Hrun in H. discriminate.
  - destruct (upload_rejects_world req w e0 w2 Hi) as [w'' [Hrun Hu]].
    rewrite Hrun in H. inversion H; subst.
    destruct (ingest_raises req w e0 w2 Hi) as [Hu0 Hwhy].
    split; [|exact (unprocessed_trans _ _ _ Hu0 Hu)].
    destruct Hwhy as [[-> _]|[[-> _]|[[-> _]|[[-> _]|[-> _]]]]]; simpl; auto.
Qed.


Lemma receive_total (tmp : path) (reads : list read_result) :
  forall total w t w',
    receive env tmp reads total w = (Return t, w') ->
    t = total + bytes_before_end reads /\
    score_log w' = score_log w /\ ticks w' = ticks w /\ trace w' = trace w.
Proof.
  induction reads as [|r reads IH]; intros total w t w' H; simpl in H.
  - inversion H; subst. simpl. repeat split; lia.
  - destruct r as [n| |]; [|discriminate..].
    simpl. destruct (n <=? 0).
    { inversion H; subst. repeat split; lia. }
    unfold bind at 1 in H. unfold tmp_write in H. unfold bind at 1 in H.
    destruct (call_cases env upload_write w) as [[_ E]|[_ E]];
      rewrite E in H; [|discriminate].
    unfold modify in H.
    destruct (total + n >? MAX_FILE_SIZE); [discriminate|].
    apply IH in H. destruct H as [H1 [H2 [H3 H4]]].
    repeat split; auto. lia.
Qed.

(** X2. The handler answers 400 exactly when the declared size is within the
    limit and a content type is given that is not empty and does not start
    with [video/]; an upload without a content type, or with an empty one,
    is not refused for it.  The refusal comes before any file is made: the
    process is as before, apart from one reading of the clock. *)
Theorem content_type_check (req : Upload) (w : World) :
  (fst (upload_video env req w) = Raise (HTTPException 400) <->
   file_size req <= MAX_FILE_SIZE /\
   exists s, content_type req = Some s /\ s <> EmptyString /\
             String.prefix "video/" s = false) /\
  (fst (upload_video env req w) = Raise (HTTPException 400) ->
   snd (upload_video env req w) = set_ticks (S (ticks w)) w).
Proof.
  assert (Hw : wrong_content_type (content_type req) = true <->
               exists s, content_type req = Some s /\ s <> EmptyString /\
                         String.prefix "video/" s = false).
  { unfold wrong_content_type. destruct (content_type req) as [s|].
    - split.
      + intros H. apply andb_prop in H. destruct H as [H1 H2].
        exists s. split; [reflexivity|]. split.
        * intros ->. discriminate.
        * now apply negb_true_iff in H2.
      + intros [s' [E [Hne Hp]]]. inversion E; subst s'.
        apply andb_true_intro. split.
        * apply negb_true_iff. now apply String.eqb_neq.
        * now apply negb_true_iff.
    - split; [discriminate|]. intros [s [E _]]. discriminate. }
  assert (Hfwd : file_size req <= MAX_FILE_SIZE ->
                 wrong_content_type (content_type req) = true ->
                 upload_video env req w
                 = (Raise (HTTPException 400), set_ticks (S (ticks w)) w)).
  { intros Hsz Hct. unfold upload_video, upload_video_with, try_except.
    unfold bind at 1. unfold time_time at 1.
    destruct (Z.gtb_spec (file_size req) MAX_FILE_SIZE); [lia|].
    rewrite Hct. reflexivity. }
  assert (Hbwd : fst (upload_video env req w) = Raise (HTTPException 400) ->
                 file_size req <= MAX_FILE_SIZE /\
                 wrong_content_type (content_type req) = true).
  { intros H.
    destruct (ingest env req w) as [[[tmp total]|e0] w2] eqn:Hi.
    - destruct (upload_with_run env (segment_uploaded_video env)
                  (classify_segmented_video env) req w tmp total w2 Hi)
        as [r [w'' [Hrun _]]].
      unfold upload_video in H. rewrite Hrun in H. discriminate.
    - destruct (upload_rejects_world req w e0 w2 Hi) as [w'' [Hrun Hu]].
      rewrite Hrun in H. simpl in H.
      destruct (ingest_raises req w e0 w2 Hi) as [_ Hwhy].
      destruct Hwhy as [[-> _]|[[-> A]|[[-> _]|[[-> _]|[-> _]]]]];
        try discriminate.
      exact A. }
  split; [split|].
  - intros H. destruct (Hbwd H) as [A B]. split; [exact A|]. now apply Hw.
  - intros [A B]. rewrite Hfwd; [reflexivity|exact A|now apply Hw].
  - intros H. destruct (Hbwd H) as [A B]. now rewrite Hfwd.
Qed.

Lemma receive_chunks (tmp : path) (sizes : list Z) (rest : list read_result) :
  raises env upload_write = false ->
  Forall (fun n => 0 < n) sizes ->
  forall total w,
    total + fold_right Z.add 0 sizes <= MAX_FILE_SIZE ->
    exists w1,
      receive env tmp (map Chunk sizes ++ rest) total w
      = receive env tmp rest (total + fold_right Z.add 0 sizes) w1 /\
      next_tmp w1 = next_tmp w /\
      (forall q, exists_on_disk q w1 = exists_on_disk q w).
Proof.
  intros Hw. induction 1 as [|n sizes Hn Hs IH]; intros total w Hle; simpl.
  - exists w. rewrite Z.add_0_r. auto.
  - simpl in Hle.
    destruct (Z.leb_spec n 0); [lia|].
    unfold bind at 1. unfold tmp_write. unfold bind at 1.
    unfold call. rewrite Hw. unfold modify.
    assert (Hpos : 0 <= fold_right Z.add 0 sizes).
    { clear -Hs. induction Hs; simpl; lia. }
    destruct (Z.gtb_spec (total + n) MAX_FILE_SIZE); [lia|].
    destruct (IH (total + n) (set_fs (fs_append tmp n (fs w)) w) ltac:(lia))
      as [w1 [E [N D]]].
    exists w1. rewrite E. split; [f_equal; lia|]. split; [exact N|].
    intros q. rewrite D. unfold exists_on_disk. simpl. apply listed_append.
Qed.

(** X3. The handler answers 408 only when a read of the body timed out.  When
    the checks of size and type pass, the temporary file can be made and
    written and the body times out after non-empty chunks that fit the
    limit, the answer is 408: one temporary file has been made, it is gone
    unless removing it fails, and nothing was logged, loaded or analysed. *)
Theorem read_timeout_answered_408 (req : Upload) (w : World) :
  (fst (upload_video env req w) = Raise (HTTPException 408) ->
   In ReadTimeout (body req)) /\
  (forall sizes rest,
     file_size req <= MAX_FILE_SIZE ->
     wrong_content_type (content_type req) = false ->
     raises env upload_NamedTemporaryFile = false ->
     raises env upload_write = false ->
     body req = map Chunk sizes ++ ReadTimeout :: rest ->
     Forall (fun n => 0 < n) sizes ->
     fold_right Z.add 0 sizes <= MAX_FILE_SIZE ->
     exists w',
       upload_video env req w = (Raise (HTTPException 408), w') /\
       next_tmp w' = S (next_tmp w) /\
       exists_on_disk (next_tmp w) w' = remove_raises env (next_tmp w) /\
       unprocessed w w').
Proof.
  split.
  - intros H.
    destruct (ingest env req w) as [[[tmp total]|e0] w2] eqn:Hi.
    + destruct (upload_with_run env (segment_uploaded_video env)
                  (classify_segmented_video env) req w tmp total w2 Hi)
        as [r [w'' [Hrun _]]].
      unfold upload_video in H. rewrite Hrun in H. discriminate.
    + destruct (upload_rejects_world req w e0 w2 Hi) as [w'' [Hrun Hu]].
      rewrite Hrun in H. simpl in H.
      destruct (ingest_raises req w e0 w2 Hi) as [_ Hwhy].
      destruct Hwhy as [[-> _]|[[-> _]|[[-> A]|[[-> _]|[-> _]]]]];
        try discriminate.
      exact A.
  - intros sizes rest Hsz Hct Htmp Hwr Hbody Hpos Hsum.
    unfold upload_video, upload_video_with, try_except.
    unfold bind at 1. unfold time_time at 1.
    destruct (Z.gtb_spec (file_size req) MAX_FILE_SIZE); [lia|].
    rewrite Hct. unfold bind at 1.
    set (w0 := set_ticks (S (ticks w)) w).
    destruct (new_temp env upload_NamedTemporaryFile w0) as [to w1] eqn:Ht.
    pose proof (new_temp_unprocessed _ _ _ _ Ht) as U1.
    pose proof (new_temp_spec env _ _ _ _ Ht) as Hspec.
    destruct to as [tmp|e].
    2:{ unfold new_temp, bind, call in Ht. rewrite Htmp in Ht. discriminate. }
    destruct Hspec as [Hp [Hn1 Hd1]]. simpl in Hp.
    unfold try_finally. unfold bind at 1. rewrite Hbody.
    destruct (receive_chunks tmp sizes (ReadTimeout :: rest) Hwr Hpos 0 w1
                ltac:(lia)) as [w2 [E [N D]]].
    rewrite E.
    change (receive env tmp (ReadTimeout :: rest)
              (0 + fold_right Z.add 0 sizes) w2)
      with (@Raise Z (HTTPException 408), w2).
    cbv beta iota.
    assert (U2 : unprocessed w1 w2).
    { destruct (receive env tmp (map Chunk sizes ++ ReadTimeout :: rest) 0 w1)
        as [o wx] eqn:Hr.
      pose proof (receive_unprocessed _ _ _ _ _ _ Hr) as U.
      simpl in E. inversion E; subst. exact U. }
    destruct (cleanup env (Some tmp) w2) as [co w5] eqn:Hcl.
    pose proof (cleanup_unprocessed _ _ _ _ Hcl) as U3.
    destruct (cleanup_spec env (Some tmp) w2)
      as [w5' [Hcl' [Hn5 [_ [_ [_ Hs]]]]]].
    rewrite Hcl in Hcl'. inversion Hcl'; subst co w5'.
    eexists. split; [reflexivity|].
    split; [rewrite Hn5, N, Hn1, Hp; reflexivity|].
    split.
    + subst tmp. rewrite (Hs _ eq_refl), D, Hd1, Nat.eqb_refl. reflexivity.
    + eapply unprocessed_trans; [|exact U3].
      eapply unprocessed_trans; [|exact U2].
      eapply unprocessed_trans; [|exact U1].
      repeat split. now exists [].
Qed.


(** X4. The handler answers 500 only when the temporary file cannot be made,
    when writing to it fails or when a read of the body fails; no failure of
    the analysis gives a 500.  When the checks of size and type pass and
    the temporary file cannot be made, the answer is 500 and nothing has
    changed but the clock. *)
Theorem server_error_causes (req : Upload) (w : World) :
  (fst (upload_video env req w) = Raise (HTTPException 500) ->
   raises env upload_NamedTemporaryFile = true \/
   raises env upload_write = true \/
   In ReadFailure (body req)) /\
  (file_size req <= MAX_FILE_SIZE ->
   wrong_content_type (content_type req) = false ->
   raises env upload_NamedTemporaryFile = true ->
   upload_video env req w
   = (Raise (HTTPException 500), set_ticks (S (ticks w)) w)).
Proof.
  split.
  - intros H.
    destruct (ingest env req w) as [[[tmp total]|e0] w2] eqn:Hi.
    + destruct (upload_with_run env (segment_uploaded_video env)
                  (classify_segmented_video env) req w tmp total w2 Hi)
        as [r [w'' [Hrun _]]].
      unfold upload_video in H. rewrite Hrun in H. discriminate.
    + destruct (upload_rejects_world req w e0 w2 Hi) as [w'' [Hrun Hu]].
      rewrite Hrun in H. simpl in H.
      destruct (ingest_raises req w e0 w2 Hi) as [_ Hwhy].
      destruct Hwhy as [[-> _]|[[-> _]|[[-> _]|[[-> A]|[-> A]]]]];
        try discriminate; tauto.
  - intros Hsz Hct Htmp.
    unfold upload_video, upload_video_with, try_except.
    unfold bind at 1. unfold time_time at 1.
    destruct (Z.gtb_spec (file_size req) MAX_FILE_SIZE); [lia|].
    rewrite Hct. unfold bind at 1. unfold new_temp. unfold bind at 1.
    unfold call. rewrite Htmp. reflexivity.
Qed.

Lemma log_video_received_log (ep total att : Z) (w : World) :
  exists w', log_video_received env ep total att w = (Return tt, w') /\
             ticks w' = ticks w /\
             score_log w' = if raises env score_log_write then score_log w
                            else Received ep total att :: score_log w.
Proof.
  unfold log_video_received, try_except, bind, call, modify, ret.
  destruct (raises env score_log_write); eexists; split; try reflexivity;
    auto.
Qed.

Lemma log_video_score_log (ep total : Z) (r t : Q) (att : Z) (w : World) :
  exists w', log_video_score env ep total r t att w = (Return tt, w') /\
             ticks w' = ticks w /\
             score_log w' = if raises env score_log_write then score_log w
                            else Scored ep total r t att :: score_log w.
Proof.
  unfold log_video_score, try_except, bind, call, modify, ret.
  destruct (raises env score_log_write); eexists; split; try reflexivity;
    auto.
Qed.

Lemma cleanup_ticks (p : option path) (w : World) (out : outcome unit)
    (w' : World) :
  cleanup env p w = (out, w') -> ticks w' = ticks w.
Proof.
  intros H. destruct p as [p|]; simpl in H; [|now inversion H].
  unfold bind, get_world in H.
  destruct (exists_on_disk p w) eqn:Hex; [|now inversion H].
  unfold try_except, bind, os_remove, emit, modify in H. rewrite Hex in H.
  simpl in H. destruct (remove_raises env p); simpl in H; now inversion H.
Qed.

(** The score line of one analysis, and the clock reads it takes. *)
Lemma analyse_log (req : Upload) (tmp : path) (total : Z) (w : World)
    (r : Q) (w' : World) :
  analyse env req tmp total w = (Return r, w') ->
  ticks w' = S (S (ticks w)) /\
  score_log w' =
    if raises env score_log_write then score_log w
    else Scored (episode_number req) total r
           (clock env (S (ticks w)) - clock env (ticks w))
           (attempt_number req) :: score_log w.
Proof.
  intros H. unfold analyse, analyse_with in H.
  unfold bind at 1 in H. unfold time_time at 1 in H.
  set (wa := set_ticks (S (ticks w)) w) in H.
  unfold bind at 1 in H. unfold try_except at 1 in H. unfold bind at 1 in H.
  destruct (segment_uploaded_video env tmp wa) as [so wb] eqn:Hseg.
  destruct (segment_spec env tmp wa so wb Hseg)
    as [sp [-> [_ [Hsl [Htk _]]]]].
  unfold try_except at 1 in H. unfold bind at 1 in H.
  destruct (classify_segmented_video env (classification_target sp tmp) wb)
    as [co wc] eqn:Hcls.
  destruct (classify_quiet env _ _ _ _ Hcls) as [_ [_ [Hsl' [Htk' _]]]].
  assert (Htail : forall v,
    (now <- time_time env ;;
     log_video_score env (episode_number req) total v
       (now - clock env (ticks w)) (attempt_number req) ;;
     cleanup env sp ;; ret v)%py wc = (Return r, w') ->
    v = r /\ ticks w' = S (S (ticks w)) /\
    score_log w' =
      if raises env score_log_write then score_log w
      else Scored (episode_number req) total r
             (clock env (S (ticks w)) - clock env (ticks w))
             (attempt_number req) :: score_log w).
  { intros v Ht. unfold bind at 1 in Ht. unfold time_time at 1 in Ht.
    unfold bind at 1 in Ht.
    destruct (log_video_score_log (episode_number req) total v
                (clock env (ticks wc) - clock env (ticks w))
                (attempt_number req) (set_ticks (S (ticks wc)) wc))
      as [w4 [Hlog [Htk4 Hsl4]]].
    rewrite Hlog in Ht. unfold bind at 1 in Ht.
    destruct (cleanup env sp w4) as [co' w5] eqn:Hc.
    pose proof (cleanup_ticks _ _ _ _ Hc) as Htk5.
    destruct (cleanup_spec env sp w4) as [w5' [Hc' [_ [Hsl5 _]]]].
    rewrite Hc in Hc'. inversion Hc'; subst co' w5'.
    unfold ret in Ht. inversion Ht; subst v w5.
    assert (Etk : ticks wc = S (ticks w)).
    { rewrite Htk', Htk. reflexivity. }
    split; [reflexivity|]. split.
    - rewrite Htk5, Htk4. simpl. now rewrite Etk.
    - rewrite Hsl5, Hsl4. simpl. rewrite Etk, Hsl', Hsl. reflexivity. }
  destruct co as [v|e]; unfold ret at 1 in H; simpl fst in H; simpl snd in H;
    apply Htail in H; tauto.
Qed.

(** X5. When the handler returns a response, the bytes it received (the chunks
    before the end of the stream) are within the limit and, unless writing
    the score log fails, the call has added exactly two entries to the
    score log: the reception, with the episode, the bytes received and the
    attempt, and after it the score, which is the reward of the response,
    with the time the analysis took between two readings of the clock. *)
Theorem accepted_upload_logged (req : Upload) (w : World)
    (resp : UploadResponse) (w' : World) :
  upload_video env req w = (Return resp, w') ->
  let total := bytes_before_end (body req) in
  let analysis_time :=
    (clock env (S (S (ticks w))) - clock env (S (ticks w)))%Q in
  total <= MAX_FILE_SIZE /\
  score_log w' =
    (if raises env score_log_write then score_log w
     else Scored (episode_number req) total (reward resp) analysis_time
            (attempt_number req)
          :: Received (episode_number req) total (attempt_number req)
          :: score_log w).
Proof.
  intros H total analysis_time.
  unfold upload_video, upload_video_with in H.
  unfold try_except in H.
  match type of H with
  | match ?m with _ => _ end = _ => destruct m as [[a|e] w1] eqn:Hm
  end.
  2:{ destruct e; unfold raise in H; discriminate. }
  inversion H; subst a w1. clear H.
  unfold bind at 1 in Hm. unfold time_time at 1 in Hm.
  set (w0 := set_ticks (S (ticks w)) w) in Hm.
  destruct (file_size req >? MAX_FILE_SIZE); [discriminate|].
  destruct (wrong_content_type (content_type req)); [discriminate|].
  unfold bind at 1 in Hm.
  destruct (new_temp env upload_NamedTemporaryFile w0) as [[tmp|e] w1] eqn:Ht;
    [|discriminate].
  pose proof (new_temp_unprocessed _ _ _ _ Ht) as [Hsl1 _].
  assert (Htk1 : ticks w1 = S (ticks w)).
  { unfold new_temp in Ht. unfold bind at 1 in Ht.
    destruct (call_cases env upload_NamedTemporaryFile w0) as [[_ E]|[_ E]];
      rewrite E in Ht; [|discriminate].
    unfold bind, get_world, modify, emit, ret in Ht. simpl in Ht.
    inversion Ht; subst. reflexivity. }
  unfold try_finally in Hm.
  match type of Hm with
  | match ?m with _ => _ end = _ => destruct m as [rb wb] eqn:Hb
  end.
  destruct (cleanup env (Some tmp) wb) as [co w5] eqn:Hc.
  destruct (cleanup_spec env (Some tmp) wb) as [w5' [Hc' [_ [Hsl5 _]]]].
  rewrite Hc in Hc'. inversion Hc'; subst co w5'.
  inversion Hm; subst rb w5. clear Hm.
  unfold bind at 1 in Hb.
  destruct (receive env tmp (body req) 0 w1) as [[t|e] w2] eqn:Hr;
    [|discriminate].
  destruct (receive_total _ _ _ _ _ _ Hr) as [Ht2 [Hsl2 [Htk2 _]]].
  simpl in Ht2. fold total in Ht2. subst t.
  unfold bind at 1 in Hb.
  destruct (log_video_received_log (episode_number req) total
              (attempt_number req) w2) as [w3 [Hlog [Htk3 Hsl3]]].
  rewrite Hlog in Hb. unfold bind at 1 in Hb.
  fold (analyse env) in Hb.
  destruct (analyse env req tmp total w3) as [[r|e] w4] eqn:Ha;
    [|discriminate].
  destruct (analyse_log _ _ _ _ _ _ Ha) as [Htk4 Hsl4].
  unfold bind, time_time, ret in Hb. inversion Hb; subst resp wb. clear Hb.
  split.
  - assert (Hb : forall reads tot wa t' wb',
      receive env tmp reads tot wa = (Return t', wb') ->
      tot <= MAX_FILE_SIZE -> t' <= MAX_FILE_SIZE).
    { induction reads as [|x reads IH]; intros tot wa t' wb' Hx Hle;
        simpl in Hx.
      - inversion Hx; subst. exact Hle.
      - destruct x as [n| |]; [|discriminate..].
        destruct (n <=? 0); [inversion Hx; subst; exact Hle|].
        unfold bind at 1 in Hx. unfold tmp_write in Hx.
        unfold bind at 1 in Hx.
        destruct (call_cases env upload_write wa) as [[_ E]|[_ E]];
          rewrite E in Hx; [|discriminate].
        unfold modify in Hx.
        destruct (Z.gtb_spec (tot + n) MAX_FILE_SIZE); [discriminate|].
        eapply IH; eauto. }
    eapply Hb; [exact Hr|]. unfold MAX_FILE_SIZE. lia.
  - rewrite Hsl5. simpl. rewrite Hsl4, Hsl3, Hsl2, Hsl1.
    destruct (raises env score_log_write); [reflexivity|].
    unfold analysis_time. rewrite Htk3, Htk2, Htk1. reflexivity.
Qed.

End Rejections.

Section FailedInitialisation.

Context {frame : Type}.
Variable env : Env frame.

#[local] Ltac blocker t :=
  lazymatch t with
  | match ?x with _ => _ end => blocker x
  | (match ?x with _ => _ end) _ => blocker x
  | _ => t
  end.

#[local] Ltac fork H :=
  lazymatch type of H with
  | (_, _) = _ => fail
  | ?l = _ => let b := blocker l in destruct b eqn:?; simpl in H
  end.

(** X6. If the classifier is constructed and moving it to the device, or
    switching it to evaluation mode, raises, the getter raises with the
    processor and the classifier assigned and the device still unset.
    Every later call then finds a classifier, loads nothing, and returns
    the two with no device ([None]), whatever has been repaired since. *)
Theorem classifier_stuck_without_device (w : World) :
  TRANSFORMERS_AVAILABLE env = true ->
  torch_available env = true ->
  video_classifier w = None ->
  video_device w = None ->
  raises env VideoMAEImageProcessor_from_pretrained = false ->
  raises env VideoMAEForVideoClassification_from_pretrained = false ->
  raises env video_classifier_to = true \/
  raises env video_classifier_eval = true ->
  exists w1 p c,
    get_video_classifier_components env w = (Raise call_failed, w1) /\
    video_processor w1 = Some p /\
    video_classifier w1 = Some c /\
    video_device w1 = None /\
    forall env2 : Env frame,
      TRANSFORMERS_AVAILABLE env2 = true ->
      torch_available env2 = true ->
      get_video_classifier_components env2 w1
      = (Return (Some p, Some c, None), w1).
Proof.
  intros Ht Hto Hnone Hdev Hp Hc Hfail.
  unfold get_video_classifier_components. rewrite Ht, Hto. simpl.
  unfold new_model, bind, call, emit, modify, get_world, ret.
  rewrite Hnone, Hp, Hc. simpl.
  destruct (raises env video_classifier_to) eqn:E1.
  - eexists. exists (next_handle w), (S (next_handle w)).
    split; [reflexivity|]. simpl. rewrite Hdev.
    repeat split.
    intros env2 A B. rewrite A, B. simpl. rewrite Hdev. reflexivity.
  - destruct Hfail as [Hf|Hf]; [discriminate|]. rewrite Hf.
    eexists. exists (next_handle w), (S (next_handle w)).
    split; [reflexivity|]. simpl. rewrite Hdev.
    repeat split.
    intros env2 A B. rewrite A, B. simpl. rewrite Hdev. reflexivity.
Qed.

(** X7. If constructing the processor or the classifier raises, the getter
    raises and the classifier stays unset; the next call, made when both
    can be constructed, loads both anew and returns them with the device
    it selects. *)
Theorem failed_classifier_load_is_retried (w : World) :
  TRANSFORMERS_AVAILABLE env = true ->
  torch_available env = true ->
  video_classifier w = None ->
  raises env VideoMAEImageProcessor_from_pretrained = true \/
  raises env VideoMAEForVideoClassification_from_pretrained = true ->
  exists w1,
    get_video_classifier_components env w = (Raise call_failed, w1) /\
    video_classifier w1 = None /\
    forall env2 : Env frame,
      TRANSFORMERS_AVAILABLE env2 = true ->
      torch_available env2 = true ->
      raises env2 VideoMAEImageProcessor_from_pretrained = false ->
      raises env2 VideoMAEForVideoClassification_from_pretrained = false ->
      raises env2 video_classifier_to = false ->
      raises env2 video_classifier_eval = false ->
      exists w2,
        get_video_classifier_components env2 w1
        = (Return (Some (next_handle w1), Some (S (next_handle w1)),
                   Some (select_device env2)), w2) /\
        trace w2
        = EvModelLoad VideoMAEForVideoClassification_from_pretrained
          :: EvModelLoad VideoMAEImageProcessor_from_pretrained :: trace w1.
Proof.
  intros Ht Hto Hnone Hfail.
  unfold get_video_classifier_components. rewrite Ht, Hto. simpl.
  unfold new_model, bind, call, emit, modify, get_world, ret.
  rewrite Hnone.
  destruct (raises env VideoMAEImageProcessor_from_pretrained) eqn:E1.
  - eexists. split; [reflexivity|]. split; [exact Hnone|].
    intros env2 A B C1 C2 C3 C4. rewrite A, B. simpl.
    rewrite Hnone, C1, C2, C3, C4. simpl.
    eexists. split; [reflexivity|]. reflexivity.
  - destruct Hfail as [Hf|Hf]; [discriminate|]. simpl. rewrite Hf.
    eexists. split; [reflexivity|]. split; [exact Hnone|].
    intros env2 A B C1 C2 C3 C4. rewrite A, B. simpl.
    rewrite Hnone, C1, C2, C3, C4. simpl.
    eexists. split; [reflexivity|]. reflexivity.
Qed.


Lemma segment_without_mask_generator (env2 : Env frame) (w : World)
    (p : handle) (input_path : path) :
  sam2_predictor w = Some p ->
  sam2_mask_generator w = None ->
  exists w', segment_uploaded_video env2 input_path w = (Return None, w').
Proof.
  intros Hp Hg.
  destruct (segment_uploaded_video env2 input_path w) as [out w'] eqn:H.
  exists w'. f_equal.
  unfold segment_uploaded_video in H. unfold bind at 1 in H.
  unfold emit, modify in H.
  destruct (SAM2_AVAILABLE env2) eqn:Hsam, (torch_available env2) eqn:Htorch,
    (cv2_available env2) eqn:Hcv; simpl in H.
  all: unfold segment_uploaded_video, get_sam2_components,
         with_TemporaryDirectory, new_temp, new_model, try_except,
         try_finally, bind, call, emit, modify, get_world, ret, raise in H;
       simpl in H; rewrite ?Hsam, ?Htorch, ?Hcv in H; simpl in H;
       rewrite ?Hp, ?Hg in H; simpl in H.
  all: repeat fork H.
  all: try congruence.
  all: inversion H; subst; reflexivity.
Qed.

(** X8. If the SAM2 predictor is built and constructing the mask generator
    raises, the getter raises with the predictor assigned and no mask
    generator.  Every later call then returns the predictor with [None] for
    the mask generator without trying again, and every later segmentation
    returns [None]. *)
Theorem sam2_stuck_without_mask_generator (w : World) :
  SAM2_AVAILABLE env = true ->
  torch_available env = true ->
  cv2_available env = true ->
  sam2_predictor w = None ->
  sam2_mask_generator w = None ->
  raises env build_sam2_video_predictor_hf = false ->
  raises env SAM2AutomaticMaskGenerator = true ->
  exists w1 p,
    get_sam2_components env w = (Raise call_failed, w1) /\
    sam2_predictor w1 = Some p /\
    sam2_mask_generator w1 = None /\
    forall env2 : Env frame,
      (SAM2_AVAILABLE env2 = true -> torch_available env2 = true ->
       cv2_available env2 = true ->
       get_sam2_components env2 w1 = (Return (Some p, None), w1)) /\
      (forall input_path,
         exists w2,
           segment_uploaded_video env2 input_path w1 = (Return None, w2)).
Proof.
  intros Hs Ht Hc Hnone Hgen Hb Hm.
  unfold get_sam2_components. rewrite Hs, Ht, Hc. simpl.
  unfold new_model, bind, call, emit, modify, get_world, ret.
  rewrite Hnone, Hb. simpl. rewrite Hm.
  eexists. exists (next_handle w). split; [reflexivity|]. simpl.
  split; [reflexivity|]. split; [exact Hgen|].
  intros env2. split.
  - intros A B C. rewrite A, B, C. simpl. rewrite Hgen. reflexivity.
  - intros input_path.
    eapply segment_without_mask_generator; simpl; [reflexivity|exact Hgen].
Qed.

End FailedInitialisation.

(** ** The properties at work on a concrete process *)

Lemma demo_yields_probabilities : yields_probabilities Demo.env.
Proof.
  intros win probs H. inversion H; subst.
  repeat constructor; unfold Qle; simpl; lia.
Defined.

Lemma demo_window_score (win : list nat) :
  is_window_score Demo.env win (3 # 4).
Proof.
  exists [1 # 4; 3 # 4]%Q. split; [reflexivity|].
  left. exists 1%nat. split; [reflexivity|]. split; [|reflexivity].
  intros j Hj. destruct j; [discriminate|lia].
Defined.

Lemma demo_window_scores (windows : list (list nat)) :
  Forall2 (is_window_score Demo.env) windows
          (map (fun _ => (3 # 4)%Q) windows).
Proof.
  induction windows as [|win rest IH]; simpl; constructor;
    [apply demo_window_score|exact IH].
Defined.


Lemma upload_returns_reward_witness :
  ingest Demo.env Demo.upload fresh_world
  = (Return (0%nat, 1500), snd (ingest Demo.env Demo.upload fresh_world)) /\
  exists resp w',
    upload_video Demo.env Demo.upload fresh_world = (Return resp, w') /\
    has_float_field "reward" resp = true /\
    json_get "analysis_time" (model_dump resp) = None.
Proof.
  assert (E : ingest Demo.env Demo.upload fresh_world
              = (Return (0%nat, 1500),
                 snd (ingest Demo.env Demo.upload fresh_world)))
    by (vm_compute; reflexivity).
  split; [exact E|].
  destruct (upload_returns_reward Demo.env
              (segment_uploaded_video Demo.env)
              (classify_segmented_video Demo.env)
              Demo.upload fresh_world 0%nat 1500 _ E)
    as [resp [w' [Hrun [_ [_ [_ [Hr [Ha _]]]]]]]].
  exists resp, w'. auto.
Defined.

Lemma response_lacks_analysis_time :
  (exists tmp total w2,
     ingest Demo.env Demo.upload fresh_world = (Return (tmp, total), w2)) /\
  ~ (exists resp w',
       upload_video Demo.env Demo.upload fresh_world = (Return resp, w') /\
       has_float_field "reward" resp = true /\
       has_float_field "analysis_time" resp = true).
Proof.
  split.
  - do 3 eexists. vm_compute. reflexivity.
  - intros [resp [w' [H [_ Ha]]]]. vm_compute in H.
    inversion H; subst. vm_compute in Ha. discriminate.
Qed.

Lemma segmentation_never_blocks_classification_witness :
  ingest Demo.env_without_sam2 Demo.upload fresh_world
  = (Return (0%nat, 1500),
     snd (ingest Demo.env_without_sam2 Demo.upload fresh_world)) /\
  segment_uploaded_video Demo.env_without_sam2 0%nat
    (analysis_world Demo.env_without_sam2 Demo.upload 1500
       (snd (ingest Demo.env_without_sam2 Demo.upload fresh_world)))
  = (Return None,
     snd (segment_uploaded_video Demo.env_without_sam2 0%nat
            (analysis_world Demo.env_without_sam2 Demo.upload 1500
               (snd (ingest Demo.env_without_sam2 Demo.upload fresh_world))))) /\
  exists resp w',
    upload_video Demo.env_without_sam2 Demo.upload fresh_world
    = (Return resp, w') /\
    In (EvClassify 0%nat) (trace w').
Proof.
  assert (E1 : ingest Demo.env_without_sam2 Demo.upload fresh_world
               = (Return (0%nat, 1500),
                  snd (ingest Demo.env_without_sam2 Demo.upload fresh_world)))
    by (vm_compute; reflexivity).
  assert (E2 : segment_uploaded_video Demo.env_without_sam2 0%nat
                 (analysis_world Demo.env_without_sam2 Demo.upload 1500
                    (snd (ingest Demo.env_without_sam2 Demo.upload fresh_world)))
               = (Return None,
                  snd (segment_uploaded_video Demo.env_without_sam2 0%nat
                         (analysis_world Demo.env_without_sam2 Demo.upload 1500
                            (snd (ingest Demo.env_without_sam2 Demo.upload
                                    fresh_world))))))
    by (vm_compute; reflexivity).
  split; [exact E1|]. split; [exact E2|].
  destruct (proj2 (segmentation_never_blocks_classification
                     Demo.env_without_sam2 0%nat fresh_world Demo.upload
                     fresh_world 0%nat 1500 _ _) E1 E2)
    as [resp [w' [out [wc [Hrun [_ [_ Hin]]]]]]].
  exists resp, w'. auto.
Defined.

Lemma sampler_evenly_spaced_windows_witness :
  cv2_available Demo.env = true /\
  decode Demo.env 5%nat = Some (seq 0 20) /\
  raises Demo.env cls_convert_frames = false /\
  0 <= 16 /\ 16 < Py.len (seq 0 20) /\ 1 < 4 /\
  exists windows,
    load_video_frame_sequences Demo.env 5%nat 16 4 fresh_world
    = (Return windows, fresh_world) /\
    Py.len windows = 4.
Proof.
  assert (H5 : 16 < Py.len (seq 0 20)) by (vm_compute; reflexivity).
  repeat (split; [first [reflexivity | lia | exact H5]|]).
  destruct (sampler_evenly_spaced_windows Demo.env 5%nat (seq 0 20) 16 4
              fresh_world eq_refl eq_refl eq_refl ltac:(lia) H5 ltac:(lia))
    as [windows [Hrun [Hlen _]]].
  exists windows. auto.
Defined.

Lemma sampler_pads_short_clip_witness :
  cv2_available Demo.env = true /\
  decode Demo.env 0%nat = Some [1; 2; 3]%nat /\
  raises Demo.env cls_convert_frames = false /\
  0 < Py.len [1; 2; 3]%nat /\ Py.len [1; 2; 3]%nat < 16 /\
  exists win,
    load_video_frame_sequences Demo.env 0%nat 16 4 fresh_world
    = (Return [win], fresh_world) /\
    Py.len win = 16.
Proof.
  assert (H4 : 0 < Py.len [1; 2; 3]%nat) by (vm_compute; reflexivity).
  assert (H5 : Py.len [1; 2; 3]%nat < 16) by (vm_compute; reflexivity).
  repeat (split; [first [reflexivity | exact H4 | exact H5]|]).
  destruct (sampler_pads_short_clip Demo.env 0%nat [1; 2; 3]%nat 16 4
              fresh_world eq_refl eq_refl eq_refl H4 H5)
    as [win [last_frame [Hrun [_ [Hlen _]]]]].
  exists win. auto.
Defined.

Lemma temp_artifacts_removed_witness :
  upload_video Demo.env Demo.upload fresh_world
  = (fst (upload_video Demo.env Demo.upload fresh_world),
     snd (upload_video Demo.env Demo.upload fresh_world)) /\
  Forall (fun c => raises Demo.env c = false) render_steps /\
  forall q,
    (next_tmp fresh_world <= q
     < next_tmp (snd (upload_video Demo.env Demo.upload fresh_world)))%nat ->
    exists_on_disk q (snd (upload_video Demo.env Demo.upload fresh_world))
    = false.
Proof.
  assert (E : upload_video Demo.env Demo.upload fresh_world
              = (fst (upload_video Demo.env Demo.upload fresh_world),
                 snd (upload_video Demo.env Demo.upload fresh_world)))
    by (vm_compute; reflexivity).
  assert (R : Forall (fun c => raises Demo.env c = false) render_steps)
    by (repeat constructor).
  split; [exact E|]. split; [exact R|].
  exact (proj2 (proj2 (proj2 (temp_artifacts_removed Demo.env Demo.upload
                                fresh_world _ _ E R)))
           (fun q => eq_refl)).
Defined.

Lemma upload_file_survives_failed_removal :
  (exists resp,
     fst (upload_video Demo.env_sticky Demo.upload fresh_world) = Return resp) /\
  In (EvTempFile 0%nat)
     (trace (snd (upload_video Demo.env_sticky Demo.upload fresh_world))) /\
  exists_on_disk 0%nat
    (snd (upload_video Demo.env_sticky Demo.upload fresh_world)) = true.
Proof.
  split; [|split].
  - eexists. vm_compute. reflexivity.
  - vm_compute. tauto.
  - vm_compute. reflexivity.
Qed.

(** C6.  The handler leaves a temporary artifact behind on a failure path
    on which no removal fails.  With a renderer that raises after the
    segmentation stage has created its output file (lines 331-347), the
    stage returns [None]; the handler classifies the uploaded file and
    answers; and the output file, number 2, is still on disk when the call
    is over: lines 609-616 remove a segmented file only when the stage
    returned its path.  No removal was refused, none was tried on that
    file.  On the path where the stage succeeds the same file is removed. *)
Lemma segmented_output_leaks :
  (forall q, remove_raises Demo.env_render_fails q = false) /\
  (exists resp,
     fst (upload_video Demo.env_render_fails Demo.upload fresh_world)
     = Return resp) /\
  In (EvTempFile 2%nat)
     (trace (snd (upload_video Demo.env_render_fails Demo.upload
                               fresh_world))) /\
  (forall q,
     ~ In (EvRemoveFailed q)
          (trace (snd (upload_video Demo.env_render_fails Demo.upload
                                    fresh_world)))) /\
  exists_on_disk 2%nat
    (snd (upload_video Demo.env_render_fails Demo.upload fresh_world))
  = true /\
  exists_on_disk 2%nat
    (snd (upload_video Demo.env Demo.upload fresh_world)) = false.
Proof.
  assert (E : trace (snd (upload_video Demo.env_render_fails Demo.upload
                                       fresh_world))
              = [ EvRemove 0%nat; EvInference;
                  EvModelLoad VideoMAEForVideoClassification_from_pretrained;
                  EvModelLoad VideoMAEImageProcessor_from_pretrained;
                  EvClassify 0%nat; EvRemove 1%nat; EvTempFile 2%nat;
                  EvTempFile 1%nat; EvModelLoad SAM2AutomaticMaskGenerator;
                  EvModelLoad build_sam2_video_predictor_hf;
                  EvSegment 0%nat; EvTempFile 0%nat ])
    by (vm_compute; reflexivity).
  split; [intros q; reflexivity|].
  split; [eexists; vm_compute; reflexivity|].
  rewrite E.
  split; [simpl; tauto|].
  split; [|split; vm_compute; reflexivity].
  intros q H. simpl in H.
  repeat (destruct H as [H|H]; [discriminate H|]). exact H.
Qed.

(** The same file is left behind when the frames directory cannot be
    removed on leaving the [with] block of line 261: the exception of the
    removal turns the stage's result into [None] after the output file was
    written.  The directory, number 1, stays as well. *)
Example failed_directory_cleanup_leaves_output :
  (exists resp,
     fst (upload_video Cases.env_cleanup_fails Demo.upload fresh_world)
     = Return resp) /\
  segment_uploaded_video Cases.env_cleanup_fails 0%nat fresh_world
  = (Return None,
     snd (segment_uploaded_video Cases.env_cleanup_fails 0%nat fresh_world)) /\
  exists_on_disk 1%nat
    (snd (upload_video Cases.env_cleanup_fails Demo.upload fresh_world))
  = true /\
  exists_on_disk 2%nat
    (snd (upload_video Cases.env_cleanup_fails Demo.upload fresh_world))
  = true.
Proof.
  split; [eexists; vm_compute; reflexivity|].
  repeat split; vm_compute; reflexivity.
Qed.

(** A renderer that fails after the output file was created leaves that
    file on disk although no removal failed. *)
Example render_failure_leaves_output :
  segment_uploaded_video Demo.env_render_fails 0%nat fresh_world
  = (Return None,
     snd (segment_uploaded_video Demo.env_render_fails 0%nat fresh_world)) /\
  exists_on_disk 1%nat
    (snd (segment_uploaded_video Demo.env_render_fails 0%nat fresh_world))
  = true.
Proof. split; vm_compute; reflexivity. Qed.

Lemma oversize_declaration_rejected_witness :
  MAX_FILE_SIZE < file_size Demo.upload_declared_too_large /\
  exists w',
    upload_video Demo.env Demo.upload_declared_too_large fresh_world
    = (Raise (HTTPException 413), w') /\
    fs w' = [] /\ trace w' = [].
Proof.
  assert (H : MAX_FILE_SIZE < file_size Demo.upload_declared_too_large)
    by (vm_compute; reflexivity).
  split; [exact H|].
  destruct (oversize_declaration_rejected Demo.env
              Demo.upload_declared_too_large fresh_world H)
    as [w' [Hrun [_ [Hfs [_ [Htr _]]]]]].
  exists w'. auto.
Defined.

Lemma unreadable_video_scores_zero_witness :
  (decode Demo.env 6%nat = None \/ decode Demo.env 6%nat = Some []) /\
  load_video_frame_sequences Demo.env 6%nat 16 4 fresh_world
  = (Return [], fresh_world) /\
  classify_segmented_video Demo.env 6%nat fresh_world
  = (Return 0%Q, entered 6%nat fresh_world).
Proof.
  assert (H : decode Demo.env 6%nat = None \/ decode Demo.env 6%nat = Some [])
    by (right; reflexivity).
  split; [exact H|].
  destruct (unreadable_video_scores_zero Demo.env 6%nat fresh_world H)
    as [Hload [Hcls _]].
  split; [apply Hload|exact Hcls].
Defined.

Lemma streamed_size_limit_witness :
  file_size Demo.upload_streamed_too_large <= MAX_FILE_SIZE /\
  wrong_content_type (content_type Demo.upload_streamed_too_large) = false /\
  raises Demo.env upload_NamedTemporaryFile = false /\
  Forall within_chunk (body Demo.upload_streamed_too_large) /\
  fst (upload_video Demo.env Demo.upload_streamed_too_large fresh_world)
  = Raise (HTTPException 413).
Proof.
  assert (H1 : file_size Demo.upload_streamed_too_large <= MAX_FILE_SIZE)
    by (vm_compute; discriminate).
  assert (H4 : Forall within_chunk (body Demo.upload_streamed_too_large)).
  { apply Forall_forall. intros r Hr. apply repeat_spec in Hr. subst r.
    apply Z.le_refl. }
  split; [exact H1|]. split; [reflexivity|]. split; [reflexivity|].
  split; [exact H4|].
  destruct (streamed_size_limit Demo.env Demo.upload_streamed_too_large
              fresh_world H1 eq_refl eq_refl H4)
    as [_ [_ [_ [_ [out [w1 [Hrecv [_ [_ [_ [_ Hhandler]]]]]]]]]]].
  apply Hhandler. vm_compute in Hrecv. inversion Hrecv; subst.
  vm_compute. reflexivity.
Defined.



(** ** Refusals, failed loads, masks and logs on concrete inputs *)

Lemma upload_failure_statuses_witness :
  exists w',
    upload_video Demo.env Cases.upload_timing_out fresh_world
    = (Raise (HTTPException 408), w') /\
    unprocessed fresh_world w'.
Proof.
  assert (E : upload_video Demo.env Cases.upload_timing_out fresh_world
              = (Raise (HTTPException 408),
                 snd (upload_video Demo.env Cases.upload_timing_out
                                   fresh_world)))
    by (vm_compute; reflexivity).
  eexists. split; [exact E|].
  exact (proj2 (upload_failure_statuses Demo.env _ _ _ _ E)).
Defined.

Lemma accepted_upload_logged_witness :
  exists resp w',
    upload_video Demo.env Demo.upload fresh_world = (Return resp, w') /\
    1500 <= MAX_FILE_SIZE /\
    score_log w'
    = [Scored 7 1500 (reward resp) (2 - 1)%Q 1; Received 7 1500 1].
Proof.
  assert (E : upload_video Demo.env Demo.upload fresh_world
              = (Return (match fst (upload_video Demo.env Demo.upload
                                                 fresh_world) with
                         | Return resp => resp
                         | Raise _ => mkUploadResponse EmptyString None None 0
                         end),
                 snd (upload_video Demo.env Demo.upload fresh_world)))
    by (vm_compute; reflexivity).
  eexists. eexists. split; [exact E|].
  exact (accepted_upload_logged Demo.env Demo.upload fresh_world _ _ E).
Defined.

Lemma classifier_stuck_without_device_witness :
  exists w1 p c,
    get_video_classifier_components Cases.env_device_move_fails fresh_world
    = (Raise call_failed, w1) /\
    video_processor w1 = Some p /\
    video_classifier w1 = Some c /\
    video_device w1 = None /\
    get_video_classifier_components Demo.env w1
    = (Return (Some p, Some c, None), w1).
Proof.
  destruct (classifier_stuck_without_device Cases.env_device_move_fails
              fresh_world eq_refl eq_refl eq_refl eq_refl eq_refl eq_refl
              (or_introl eq_refl))
    as [w1 [p [c [H1 [H2 [H3 [H4 H5]]]]]]].
  exists w1, p, c.
  split; [exact H1|]. split; [exact H2|]. split; [exact H3|].
  split; [exact H4|]. exact (H5 Demo.env eq_refl eq_refl).
Defined.

Lemma failed_classifier_load_is_retried_witness :
  exists w1 w2,
    get_video_classifier_components Cases.env_classifier_missing fresh_world
    = (Raise call_failed, w1) /\
    video_classifier w1 = None /\
    get_video_classifier_components Demo.env w1
    = (Return (Some (next_handle w1), Some (S (next_handle w1)), Some cpu),
       w2).
Proof.
  destruct (failed_classifier_load_is_retried Cases.env_classifier_missing
              fresh_world eq_refl eq_refl eq_refl (or_intror eq_refl))
    as [w1 [H1 [H2 H3]]].
  destruct (H3 Demo.env eq_refl eq_refl eq_refl eq_refl eq_refl eq_refl)
    as [w2 [H4 _]].
  exists w1, w2.
  split; [exact H1|]. split; [exact H2|exact H4].
Defined.

Lemma sam2_stuck_without_mask_generator_witness :
  exists w1 p w2,
    get_sam2_components Cases.env_mask_generator_fails fresh_world
    = (Raise call_failed, w1) /\
    get_sam2_components Demo.env w1 = (Return (Some p, None), w1) /\
    segment_uploaded_video Demo.env 0%nat w1 = (Return None, w2).
Proof.
  destruct (sam2_stuck_without_mask_generator Cases.env_mask_generator_fails
              fresh_world eq_refl eq_refl eq_refl eq_refl eq_refl eq_refl
              eq_refl)
    as [w1 [p [H1 [_ [_ H2]]]]].
  destruct (H2 Demo.env) as [H3 H4].
  destruct (H4 0%nat) as [w2 H5].
  exists w1, p, w2.
  split; [exact H1|]. split; [exact (H3 eq_refl eq_refl eq_refl)|exact H5].
Defined.

Lemma rendered_clip_shows_objects_witness :
  exists written,
    Masks.render_frames [0; 1]%nat 0 Cases.video_segments [1] 2 3
    = Some written /\
    Py.len written = 2 /\
    forall frame,
      nth_error written 0 = Some frame ->
      Masks.pixel frame 0 0 = Some Masks.SEGMENT_OBJECT_COLOR /\
      Masks.pixel frame 0 2 = Some Masks.black.
Proof.
  destruct (Masks.render_frames [0; 1]%nat 0 Cases.video_segments [1] 2 3)
    as [written|] eqn:E; [|vm_compute in E; discriminate E].
  exists written. split; [reflexivity|].
  destruct (MaskFacts.rendered_clip_shows_objects _ _ _ _ _ _ E)
    as [Hlen Hpix].
  split; [exact Hlen|].
  intros frame Hf. destruct (Hpix 0%nat frame Hf) as [_ [_ Hp]].
  split.
  - exact (Hp 0%nat 0%nat ltac:(vm_compute; lia) ltac:(vm_compute; lia)).
  - exact (Hp 0%nat 2%nat ltac:(vm_compute; lia) ltac:(vm_compute; lia)).
Defined.

Lemma demo_capture_well_formed :
  VideoAnalyze.well_formed Cases.gray_levels 4 [1; 2; 3]%nat.
Proof.
  split; [lia|].
  repeat (apply Forall_cons;
          [split; [reflexivity|
                   repeat (apply Forall_cons; [simpl; lia|]);
                   apply Forall_nil]|]).
  apply Forall_nil.
Defined.

Lemma motion_score_is_mean_change_witness :
  exists score,
    VideoAnalyze.analyze_video Demo.env Cases.gray_levels 0%nat 600
    = Return score /\
    (0 <= score)%Q /\ (score <= 1)%Q /\ (score == 1 # 255)%Q.
Proof.
  destruct (VideoAnalyzeFacts.motion_score_is_mean_change
              Demo.env Cases.gray_levels 0%nat 600 [1; 2; 3]%nat 4%nat
              eq_refl eq_refl demo_capture_well_formed)
    as [score [H1 [H2 [H3 H4]]]].
  exists score. split; [exact H1|]. split; [exact H2|]. split; [exact H3|].
  rewrite H4. vm_compute. reflexivity.
Defined.

Lemma load_video_frames_pads_to_count_witness :
  VideoAnalyze.load_video_frames Demo.env Cases.path_exists 0%nat 5
  = Return [1; 2; 3; 3; 3]%nat /\
  Py.len [1; 2; 3; 3; 3]%nat = 5.
Proof.
  assert (E : VideoAnalyze.load_video_frames Demo.env Cases.path_exists
                0%nat 5 = Return [1; 2; 3; 3; 3]%nat)
    by (vm_compute; reflexivity).
  split; [exact E|].
  destruct (VideoAnalyzeFacts.load_video_frames_pads_to_count
              Demo.env Cases.path_exists 0%nat 5 _ E) as [_ [[H|H] _]];
    [discriminate H|exact H].
Defined.

Lemma first_window_is_load_video_frames_witness :
  exists window,
    load_video_frame_sequences Demo.env 0%nat 5 4 fresh_world
    = (Return [window], fresh_world) /\
    VideoAnalyze.load_video_frames Demo.env Cases.path_exists 0%nat 5
    = Return window.
Proof.
  destruct (VideoAnalyzeFacts.first_window_is_load_video_frames
              Demo.env Cases.path_exists 0%nat 5 4 fresh_world
              1%nat [2; 3]%nat ltac:(lia) eq_refl eq_refl eq_refl eq_refl)
    as [window [others [H1 [H2 H3]]]].
  exists window. rewrite H3 in H1 by (right; vm_compute; discriminate).
  split; [exact H1|exact H2].
Defined.

Lemma stamp_is_stamp : ScoreLog.is_stamp Cases.stamp.
Proof.
  split; [reflexivity|].
  repeat (apply Forall_cons; [reflexivity|]). apply Forall_nil.
Defined.

Lemma status_counts_log_lines_witness :
  ScoreLog.total_episodes
    (ScoreLog.log_stats false
       (ScoreLog.log_video_score
          PyFormat.format_int PyFormat.format_int_4d PyFormat.format_fixed
          Cases.stamp false 7 1500 (3 # 4) 1 1
          (ScoreLog.log_video_received
             PyFormat.format_int PyFormat.format_int_4d PyFormat.format_fixed
             Cases.stamp false 7 1500 1 None
             (Some (List.concat (ScoreLog.header Cases.stamp))))))
  = 2.
Proof.
  exact (proj1 (proj2
    (ScoreLogFacts.status_counts_log_lines
       PyFormat.format_int PyFormat.format_int_4d PyFormat.format_fixed
       PyFormatFacts.format_int_line PyFormatFacts.format_int_4d_line
       PyFormatFacts.format_fixed_line
       (List.concat (ScoreLog.header Cases.stamp)) Cases.stamp Cases.stamp
       7 1500 1 None (3 # 4) 1
       eq_refl (ScoreLogFacts.is_stamp_line _ stamp_is_stamp)
       (ScoreLogFacts.is_stamp_line _ stamp_is_stamp) I))).
Defined.

Lemma log_file_initialised_once_witness :
  ScoreLog.readlines (List.concat (ScoreLog.header Cases.stamp))
  = ScoreLog.header Cases.stamp /\
  ScoreLog.total_episodes
    (ScoreLog.log_stats false
       (ScoreLog.initialize_log_file Cases.stamp false None)) = 0.
Proof.
  destruct (ScoreLogFacts.log_file_initialised_once Cases.stamp
              stamp_is_stamp) as [_ [_ [_ [_ [H1 [_ [H2 _]]]]]]].
  split; [exact H1|exact H2].
Defined.

Lemma logged_score_is_latest_log_witness :
  ScoreLog.get_recent_logs false 1
    (ScoreLog.log_video_score
       PyFormat.format_int PyFormat.format_int_4d PyFormat.format_fixed
       Cases.stamp false 7 1500 (3 # 4) 1 1
       (Some (List.concat (ScoreLog.header Cases.stamp))))
  = Return
      (ScoreLog.RecentLogs 7 1
         [ScoreLog.lit
            "2025-01-02 03:04:05 | Episode:    7 | Attempt: 1 | Size:   0.00MB | Score: 0.7500 | Analysis:   1.00s"]).
Proof.
  destruct (ScoreLogFacts.logged_score_is_latest_log
              PyFormat.format_int PyFormat.format_int_4d PyFormat.format_fixed
              PyFormatFacts.format_int_line PyFormatFacts.format_int_4d_line
              PyFormatFacts.format_fixed_line
              (List.concat (ScoreLog.header Cases.stamp)) Cases.stamp
              7 1500 (3 # 4) 1 1 eq_refl stamp_is_stamp)
    as [entry [He Hg]].
  rewrite Hg. f_equal. f_equal. f_equal.
  apply (app_inj_tail entry _ ScoreLog.LF ScoreLog.LF).
  rewrite <- He. vm_compute. reflexivity.
Defined.
